(** * AAR backend: the permission-gated module execution loop

    A shallow embedding of [src/backend/main.js] (the express backend of
    AAR): the directive parser [ModuleService.parseModuleCommand], the
    registry entry points [ModuleService.runModule], [loadModule] and
    [listModules], the three provider request builders of [AIService] and
    the route handlers [POST /message], [POST /approve-module] and
    [POST /clear-history], together with the properties of the
    orchestration loop; and of the [search] handler of
    [src/modules/websearch.mjs].

    Conventions of the embedding.
    - A JavaScript string is a [string]; a character stands for the UTF-16
      code unit with the same number (code units 0..255).
    - The process-wide [Map]s [pendingModuleRequests] and [chatHistory] are
      [gmap]s keyed by strings, threaded explicitly through the handlers.
    - Everything the backend awaits (the providers, the dynamic [import] of a
      module, a module handler, the clock and the random source) is an event
      of a small interaction monad; the answers come from a [World].
    - A route handler runs to completion before the next one starts. *)

From Stdlib Require Import Ascii String NArith Lia.
From stdpp Require Import gmap strings list pretty.

Set Default Proof Using "Type".

(** String concatenation computes under [simpl] in this development. *)
#[local] Arguments String.append !_ _ / : simpl nomatch.

(* ================================================================== *)
(** * Regular expressions, as [RegExp.prototype.exec] runs them *)
(* ================================================================== *)

Module Regex.

(** The fragment of the pattern language the backend uses.  A quantifier
    [+] is only ever applied to a character class. *)
Inductive regex : Type :=
| Eps                              (* the empty pattern *)
| Lit (c : ascii)                  (* one literal character *)
| Class (p : ascii -> bool)        (* one character of a class *)
| Cat (r1 r2 : regex)              (* r1 r2, also (?: ... ) *)
| Opt (r : regex)                  (* r?   (greedy) *)
| Plus (p : ascii -> bool)         (* [p]+ (greedy) *)
| Star (p : ascii -> bool)         (* [p]* (greedy) *)
| Group (n : nat) (r : regex).     (* the n-th capturing group *)

(** The captures array: [m n] is [match[n]], [None] is [undefined]. *)
Definition captures : Type := nat -> option string.

Definition no_captures : captures := fun _ => None.

Definition set_capture (n : nat) (s : string) (m : captures) : captures :=
  fun i => if Nat.eqb i n then Some s else m i.

(** What was consumed between the input [s] and its suffix [s']. *)
Definition consumed (s s' : string) : string :=
  String.substring 0 (String.length s - String.length s') s.

(** [[p]+] against [s]: take one character, then as many more as
    possible, giving characters back one at a time when the continuation
    fails. *)
Fixpoint run_plus {R : Type} (p : ascii -> bool) (s : string)
    (k : string -> option R) : option R :=
  match s with
  | String c s' =>
      if p c then
        match run_plus p s' k with
        | Some x => Some x
        | None => k s'
        end
      else None
  | EmptyString => None
  end.

(** The backtracking matcher, in continuation-passing style: [k] is the
    rest of the pattern. *)
Fixpoint rmatch {R : Type} (r : regex) (s : string) (m : captures)
    (k : string -> captures -> option R) : option R :=
  match r with
  | Eps => k s m
  | Lit c =>
      match s with
      | String x s' => if Ascii.eqb x c then k s' m else None
      | EmptyString => None
      end
  | Class p =>
      match s with
      | String x s' => if p x then k s' m else None
      | EmptyString => None
      end
  | Cat r1 r2 => rmatch r1 s m (fun s1 m1 => rmatch r2 s1 m1 k)
  | Opt r1 =>
      match rmatch r1 s m k with
      | Some x => Some x
      | None => k s m
      end
  | Plus p => run_plus p s (fun s' => k s' m)
  | Star p =>
      match run_plus p s (fun s' => k s' m) with
      | Some x => Some x
      | None => k s m
      end
  | Group n r1 =>
      rmatch r1 s m (fun s' m' => k s' (set_capture n (consumed s s') m'))
  end.

(** [regex.exec(text)] on a fresh regex object ([lastIndex] is 0): the
    match at the leftmost position that has one. *)
Fixpoint exec (r : regex) (s : string) : option captures :=
  match rmatch r s no_captures (fun _ m => Some m) with
  | Some m => Some m
  | None =>
      match s with
      | String _ s' => exec r s'
      | EmptyString => None
      end
  end.

(** A literal word, character by character. *)
Fixpoint word (w : string) : regex :=
  match w with
  | EmptyString => Eps
  | String c w' => Cat (Lit c) (word w')
  end.

(** ** Character classes *)

Definition code (c : ascii) : N := N_of_ascii c.

Definition in_range (lo hi : N) (c : ascii) : bool :=
  (lo <=? code c)%N && (code c <=? hi)%N.

(** [\s]: TAB, LF, VT, FF, CR, SPACE and NO-BREAK SPACE. *)
Definition is_space (c : ascii) : bool :=
  in_range 9 13 c || (code c =? 32)%N || (code c =? 160)%N.

(** [\w]: [A-Za-z0-9_]. *)
Definition is_word (c : ascii) : bool :=
  in_range 65 90 c || in_range 97 122 c || in_range 48 57 c
  || (code c =? 95)%N.

(** [.]: anything but a line terminator (LF, CR). *)
Definition is_dot (c : ascii) : bool :=
  negb ((code c =? 10)%N || (code c =? 13)%N).

(** A non-empty run of characters of one class. *)
Definition run_of (p : ascii -> bool) (s : string) : Prop :=
  s <> "" /\ forallb p (list_ascii_of_string s) = true.

(** ** What a pattern matches, without the search order

    [matches r s m m'] : the pattern [r] matches exactly the string [s],
    taking the captures from [m] to [m']. *)
Inductive matches : regex -> string -> captures -> captures -> Prop :=
| M_Eps m : matches Eps "" m m
| M_Lit c m : matches (Lit c) (String c "") m m
| M_Class p c m : p c = true -> matches (Class p) (String c "") m m
| M_Cat r1 r2 s1 s2 m m1 m2 :
    matches r1 s1 m m1 -> matches r2 s2 m1 m2 ->
    matches (Cat r1 r2) (s1 +:+ s2) m m2
| M_OptSome r s m m' : matches r s m m' -> matches (Opt r) s m m'
| M_OptNone r m : matches (Opt r) "" m m
| M_Plus p s m :
    s <> "" -> forallb p (list_ascii_of_string s) = true ->
    matches (Plus p) s m m
| M_Star p s m :
    forallb p (list_ascii_of_string s) = true -> matches (Star p) s m m
| M_Group n r s m m' :
    matches r s m m' -> matches (Group n r) s m (set_capture n s m').

End Regex.

(* ================================================================== *)
(** * The directive parser *)
(* ================================================================== *)

(** [{module, command, parameters}] *)
Record Directive : Type := mkDirective {
  module : string;
  command : string;
  parameters : string
}.

(** [a || b] on strings: the empty string is falsy. *)
Definition str_or (a b : string) : string :=
  match a with
  | EmptyString => b
  | _ => a
  end.

(** [m || ''] on a capture: [undefined] and the empty string are falsy. *)
Definition capture_or (a : option string) (b : string) : string :=
  match a with
  | Some s => str_or s b
  | None => b
  end.

(** Whether [s] starts with [p]. *)
Fixpoint starts_with (p s : string) : bool :=
  match p, s with
  | EmptyString, _ => true
  | String a p', String b s' => Ascii.eqb a b && starts_with p' s'
  | String _ _, EmptyString => false
  end.

(** [s.includes(needle)] *)
Fixpoint includes (needle s : string) : bool :=
  starts_with needle s ||
  match s with
  | EmptyString => false
  | String _ s' => includes needle s'
  end.

(** [s.split(c)] for a one-character separator. *)
Fixpoint split (c : ascii) (s : string) : list string :=
  match s with
  | EmptyString => [EmptyString]
  | String x s' =>
      if Ascii.eqb x c then EmptyString :: split c s'
      else
        match split c s' with
        | p :: ps => String x p :: ps
        | [] => [String x EmptyString]
        end
  end.

(** [/\/?run\s+module\s+(\w+)\s+(\w+)(?:\s+(.+))?/g] *)
Definition directive_regex : Regex.regex :=
  let ws := Regex.Plus Regex.is_space in
  Regex.Cat (Regex.Opt (Regex.Lit "/"))
   (Regex.Cat (Regex.word "run")
    (Regex.Cat ws
     (Regex.Cat (Regex.word "module")
      (Regex.Cat ws
       (Regex.Cat (Regex.Group 1 (Regex.Plus Regex.is_word))
        (Regex.Cat ws
         (Regex.Cat (Regex.Group 2 (Regex.Plus Regex.is_word))
          (Regex.Opt
            (Regex.Cat ws (Regex.Group 3 (Regex.Plus Regex.is_dot)))))))))))%char.

(** [ModuleService.parseModuleCommand(text)]; [None] is [null]. *)
Definition parseModuleCommand (text : string) : option Directive :=
  match Regex.exec directive_regex text with
  | None => None
  | Some m =>
      let moduleName := default "" (m 1) in     (* match[1] *)
      let commandName := default "" (m 2) in    (* match[2] *)
      let '(moduleName, commandName) :=
        if includes "." moduleName then
          let parts := split "." moduleName in
          (nth 0 parts "", nth 1 parts "")
        else (moduleName, commandName) in
      Some {| module := moduleName;
              command := commandName;
              parameters := capture_or (m 3) "" |}
  end.

(* ================================================================== *)
(** * The sentences of the directive pattern *)
(* ================================================================== *)

Module Grammar.
Import Regex.

(** The sentences of the source's pattern
    [/\/?run\s+module\s+(\w+)\s+(\w+)(?:\s+(.+))?/], as a grammar:
    [["/"] "run" <ws> "module" <ws> <module> <ws> <command> [<ws> <parameters>]].
    A token is a non-empty run of identifier characters [\w], the
    parameters are a non-empty run of characters that are not line
    terminators.  The grammar of the specification, whose tokens are
    whitespace-separated, is [SpecGrammar] below. *)
Definition whitespace (s : string) : Prop := run_of is_space s.
Definition token (s : string) : Prop := run_of is_word s.
Definition parameters_text (s : string) : Prop := run_of is_dot s.
Definition optional_slash (s : string) : Prop := s = "" \/ s = "/".

(** [directive_grammar t d] : the text [t], as a whole, is a directive
    that reads as [d]. *)
Inductive directive_grammar : string -> Directive -> Prop :=
| DG_bare slash ws1 ws2 m ws3 c :
    optional_slash slash -> whitespace ws1 -> whitespace ws2 ->
    token m -> whitespace ws3 -> token c ->
    directive_grammar
      (slash +:+ "run" +:+ ws1 +:+ "module" +:+ ws2 +:+ m +:+ ws3 +:+ c)
      (mkDirective m c "")
| DG_parameters slash ws1 ws2 m ws3 c ws4 p :
    optional_slash slash -> whitespace ws1 -> whitespace ws2 ->
    token m -> whitespace ws3 -> token c ->
    whitespace ws4 -> parameters_text p ->
    directive_grammar
      (slash +:+ "run" +:+ ws1 +:+ "module" +:+ ws2 +:+ m +:+ ws3 +:+ c
         +:+ ws4 +:+ p)
      (mkDirective m c p).

(** [occurs_at t n d] : a directive reading as [d] starts at offset [n]
    of the text [t]. *)
Definition occurs_at (t : string) (n : nat) (d : Directive) : Prop :=
  exists pre mt rest,
    t = pre +:+ mt +:+ rest /\ String.length pre = n /\
    directive_grammar mt d.

End Grammar.

(** The directive the parser builds from the captures of a match. *)
Definition directive_of (m : Regex.captures) : Directive :=
  let moduleName := default "" (m 1) in
  let commandName := default "" (m 2) in
  let '(moduleName, commandName) :=
    if includes "." moduleName then
      let parts := split "." moduleName in
      (nth 0 parts "", nth 1 parts "")
    else (moduleName, commandName) in
  {| module := moduleName;
     command := commandName;
     parameters := capture_or (m 3) "" |}.

(* ================================================================== *)
(** * Data of the backend *)
(* ================================================================== *)

(** The double quote and the line feed, for the template literals. *)
Definition dq : string := String (Ascii.ascii_of_nat 34) "".
Definition nl : string := String (Ascii.ascii_of_nat 10) "".

(** A JavaScript value the backend only passes on (a handler's result). *)
Definition JSValue : Type := string.

(** What [ModuleService.runModule] returns: [{ success: true, result }] or
    [{ error }], where [error] is [undefined] when the caught value has no
    [message]. *)
Inductive ModuleOutput : Type :=
| Success (result : JSValue)
| Failed (error : option string).

Inductive Role : Type := system | user | assistant.

(** [{ role, content, timestamp }]; the messages the request builders add
    have no [timestamp]. *)
Record ChatMessage : Type := mkChatMessage {
  role : Role;
  content : string;
  timestamp : option string
}.

(** An entry of [allModuleOutputs]: [{ module, command, result }]. *)
Record ChainEntry : Type := mkChainEntry {
  entry_module : string;
  entry_command : string;
  entry_result : ModuleOutput
}.

(** A value of [pendingModuleRequests]. *)
Record PendingRequest : Type := mkPendingRequest {
  pending_module : string;
  pending_command : string;
  pending_parameters : string;
  originalPrompt : string;
  aiResponse : string;
  allModuleOutputs : list ChainEntry;
  originalSessionId : string
}.

(** The two process-wide maps. *)
Record State : Type := mkState {
  pendingModuleRequests : gmap string PendingRequest;
  chatHistory : gmap string (list ChatMessage)
}.

Definition initial_state : State := mkState ∅ ∅.

(** The JSON bodies [res.json] is called with. *)
Inductive Response : Type :=
| RespFailure (message : string)
    (* { success: false, message } *)
| RespDirect (message : string) (moduleResult : ModuleOutput)
    (history : list ChatMessage)
    (* { success: true, message, moduleResult, history, directCommand: true } *)
| RespFinal (message : string) (moduleResult : option ModuleOutput)
    (history : option (list ChatMessage))
    (* { success: true, message, moduleResult?, history? } *)
| RespApproval (requestId module_ command_ : string)
    (previousResult : option string) (message : string)
    (* { success: true, requiresApproval: true, requestId, module, command,
         previousResult?, message } *)
| RespDenied (message : string).
    (* { success: true, message, denied: true } *)

(** The request bodies.  A field that is absent, or present and falsy, is
    the empty string; [sessionId] is [None] when absent.

    The routes are modelled on the bodies the frontend sends: a JSON
    object whose [userprompt], [typoftask], [sessionId] and [requestId] are
    strings when present.  A request without a body, or with a [userprompt]
    that is not a string, is outside the model: the source destructures
    [req.body] and calls [parseModuleCommand(userprompt)] outside every
    [try], so such a request can fail there without an answer of the
    route. *)
Record MessageBody : Type := mkMessageBody {
  userprompt : string;
  typoftask : string;
  sessionId : option string
}.

Record ApproveBody : Type := mkApproveBody {
  requestId : string;
  approved : bool
}.

(** [process.env]: an unset variable is the empty string, which is falsy
    like [undefined]. *)
Record Env : Type := mkEnv {
  DEFAULT_LLM_SERVICE : string;
  OPENAI_API_KEY : string;
  GEMINI_API_KEY : string;
  OPENAI_MAIN_MODEL : string;
  GEMINI_MAIN_MODEL : string;
  OLLAMA_MAIN_MODEL : string
}.

(* ================================================================== *)
(** * What the backend awaits *)
(* ================================================================== *)

(** The request an SDK call carries. *)
Inductive ProviderRequest : Type :=
| OpenAIChat (model : string) (messages : list ChatMessage)
    (* openai.chat.completions.create({ model, messages }) *)
| GeminiGenerate (model : string) (contents : string)
    (* gemini.models.generateContent({ model, contents }) *)
| OllamaChat (model : string) (messages : list ChatMessage).
    (* ollama.chat({ model, messages }) *)

(** The SDK call resolves with a text or rejects with an [Error]. *)
Inductive ProviderAnswer : Type :=
| Reply (text : string)
| Rejected (message : string).

(** What [module?.commands?.[commandName]] and [typeof handler] see. *)
Inductive CommandShape : Type :=
| NoCommand           (* no [commands], or no such entry *)
| NotCallable         (* the entry's [handler] is not a function *)
| Callable.

(** A loaded module, as far as [runModule] looks at it. *)
Definition ModuleShape : Type := string -> CommandShape.

(** A handler returns a value or throws; JavaScript throws any value:
    one with a [message] (an [Error]), one without, or [null]/[undefined]
    (a promise rejected without a reason). *)
Inductive Thrown : Type :=
| WithMessage (message : string)
| WithoutMessage
| Nullish.

Inductive HandlerOutcome : Type :=
| Returned (v : JSValue)
| Threw (t : Thrown).

Inductive Query : Type :=
| QProvider (req : ProviderRequest)
| QImport (moduleName ext : string)   (* import(modulesPath/moduleName+ext) *)
| QCall (moduleName commandName arg : string)   (* handler(arg) *)
| QTimestamp                          (* new Date().toISOString() *)
| QDateNow                            (* Date.now() *)
| QRandom.                            (* Math.random().toString(36).substr(2, 9) *)

Definition Answer (q : Query) : Type :=
  match q with
  | QProvider _ => ProviderAnswer
  | QImport _ _ => option ModuleShape      (* [None]: the import rejects *)
  | QCall _ _ _ => HandlerOutcome
  | QTimestamp => string
  | QDateNow => N
  | QRandom => string
  end.

(** One awaited interaction, with its answer. *)
Definition Event : Type := { q : Query & Answer q }.

(** The outside world answers a query knowing everything that happened
    before. *)
Definition World : Type := list Event -> forall q : Query, Answer q.

(** Programs that interact with the world. *)
Inductive io (A : Type) : Type :=
| Ret (a : A)
| Ask (q : Query) (k : Answer q -> io A).
Arguments Ret {A} a.
Arguments Ask {A} q k.

Fixpoint io_bind {A B : Type} (p : io A) (f : A -> io B) : io B :=
  match p with
  | Ret a => f a
  | Ask q k => Ask q (fun a => io_bind (k a) f)
  end.

(** [run w tr p]: run [p] in the world [w] after the events [tr]; the
    result and the extended event log. *)
Fixpoint run {A : Type} (w : World) (tr : list Event) (p : io A)
    : A * list Event :=
  match p with
  | Ret a => (a, tr)
  | Ask q k => let a := w tr q in run w (tr ++ [existT q a]) (k a)
  end.

(** A JavaScript completion: a value, or a thrown [Error] with its
    [message]. *)
Inductive Completion (A : Type) : Type :=
| Normal (a : A)
| Throw (message : string).
Arguments Normal {A} a.
Arguments Throw {A} message.

(** Handler code: reads and writes the two maps, interacts, may throw.
    What was written before a throw stays written. *)
Definition M (A : Type) : Type := State -> io (Completion A * State).

Definition ret {A : Type} (a : A) : M A := fun st => Ret (Normal a, st).

Definition throw {A : Type} (message : string) : M A :=
  fun st => Ret (Throw message, st).

Definition bind {A B : Type} (m : M A) (f : A -> M B) : M B :=
  fun st =>
    io_bind (m st) (fun r =>
      match r with
      | (Normal a, st') => f a st'
      | (Throw e, st') => Ret (Throw e, st')
      end).

(** [try { m } catch (error) { h error.message }] *)
Definition try_catch {A : Type} (m : M A) (h : string -> M A) : M A :=
  fun st =>
    io_bind (m st) (fun r =>
      match r with
      | (Normal a, st') => Ret (Normal a, st')
      | (Throw e, st') => h e st'
      end).

Definition ask (q : Query) : M (Answer q) :=
  fun st => Ask q (fun a => Ret (Normal a, st)).

Definition get_state : M State := fun st => Ret (Normal st, st).

Definition modify (f : State -> State) : M unit :=
  fun st => Ret (Normal tt, f st).

Notation "'let*' x ':=' m 'in' k" := (bind m (fun x => k))
  (at level 10, x name, m at level 200, k at level 200).

Notation "m ';;;' k" := (bind m (fun _ => k))
  (at level 100, k at level 200, right associativity).

(* ================================================================== *)
(** * The services and the route handlers *)
(* ================================================================== *)

(** The library functions the backend calls, kept abstract.
    [JSON.stringify] throws a [TypeError] on a value that holds a [BigInt]
    or a cycle, with or without indentation: [JSON_throws x] is the message
    of that error, [None] when [JSON.stringify(x)] returns; the two
    [JSON_stringify] fields are the texts it then returns. *)
Record Library : Type := mkLibrary {
  JSON_stringify : ModuleOutput -> string;           (* JSON.stringify(x) *)
  JSON_stringify_pretty : ModuleOutput -> string;    (* JSON.stringify(x, null, 2) *)
  markdown_toHTML : string -> string;                (* markdown.toHTML(x) *)
  SystemLLMPrompt : string;                          (* the system prompt text *)
  JSON_throws : ModuleOutput -> option string        (* the TypeError of JSON.stringify(x) *)
}.

(** [!s]: the empty string is falsy. *)
Definition falsy (s : string) : bool :=
  match s with
  | EmptyString => true
  | String _ _ => false
  end.

(** [history.slice(-10)] *)
Definition slice_last (n : nat) {A : Type} (l : list A) : list A :=
  drop (length l - n) l.

(** [Date.now().toString() + Math.random().toString(36).substr(2, 9)] *)
Definition newRequestId : M string :=
  let* now := ask QDateNow in
  let* rnd := ask QRandom in
  ret (pretty now +:+ rnd).

(** [chatHistory.get(sessionId)]; [None] is [undefined]. *)
Definition history_of (sid : string) : M (option (list ChatMessage)) :=
  let* st := get_state in ret (chatHistory st !! sid).

(** [chatHistory.get(sessionId) || []] *)
Definition history_or_empty (sid : string) : M (list ChatMessage) :=
  let* h := history_of sid in ret (default [] h).

(** [chatHistory.get(sid).push({ role, content, timestamp: new
    Date().toISOString() })]: the array stored under [sid] grows in place;
    reading [push] off [undefined] throws before the clock is read. *)
Definition push_history (sid : string) (r : Role) (text : string) : M unit :=
  let* h := history_of sid in
  match h with
  | None => throw "Cannot read properties of undefined (reading 'push')"
  | Some _ =>
      let* ts := ask QTimestamp in
      modify (fun st =>
        mkState (pendingModuleRequests st)
          (alter (fun l => l ++ [mkChatMessage r text (Some ts)]) sid
             (chatHistory st)))
  end.

(** [pendingModuleRequests.set(id, p)] and [.delete(id)] *)
Definition set_pending (id : string) (p : PendingRequest) : M unit :=
  modify (fun st =>
    mkState (<[id := p]> (pendingModuleRequests st)) (chatHistory st)).

Definition delete_pending (id : string) : M unit :=
  modify (fun st =>
    mkState (delete id (pendingModuleRequests st)) (chatHistory st)).

(** ** [ModuleService] *)

Definition is_quote (c : ascii) : bool :=
  (Regex.code c =? 34)%N || (Regex.code c =? 39)%N.

Definition not_quote (c : ascii) : bool := negb (is_quote c).
Definition not_space (c : ascii) : bool := negb (Regex.is_space c).

(** [/query\s*=\s*Q([^Q]+)Q/], where [Q] is the class of the double and
    the single quote. *)
Definition quoted_query_regex : Regex.regex :=
  Regex.Cat (Regex.word "query")
   (Regex.Cat (Regex.Star Regex.is_space)
    (Regex.Cat (Regex.Lit "=")
     (Regex.Cat (Regex.Star Regex.is_space)
      (Regex.Cat (Regex.Class is_quote)
       (Regex.Cat (Regex.Group 1 (Regex.Plus not_quote))
        (Regex.Class is_quote)))))).

(** [/query\s*=\s*([^\s]+)/] *)
Definition bare_query_regex : Regex.regex :=
  Regex.Cat (Regex.word "query")
   (Regex.Cat (Regex.Star Regex.is_space)
    (Regex.Cat (Regex.Lit "=")
     (Regex.Cat (Regex.Star Regex.is_space)
      (Regex.Group 1 (Regex.Plus not_space))))).

(** The [parsedParams] of [runModule]. *)
Definition parse_query (parameters : string) : string :=
  if negb (falsy parameters) && includes "query=" parameters then
    match Regex.exec quoted_query_regex parameters with
    | Some queryMatch => default "" (queryMatch 1)
    | None =>
        if includes "query=" parameters then
          match Regex.exec bare_query_regex parameters with
          | Some queryMatch => default "" (queryMatch 1)
          | None => parameters
          end
        else parameters
    end
  else parameters.

(** [ModuleService.loadModule]: the [.js] file first, then the [.mjs]
    file; [null] when both imports fail. *)
Definition loadModule (moduleName : string) : M (option ModuleShape) :=
  let* js := ask (QImport moduleName ".js") in
  match js with
  | Some imported => ret (Some imported)
  | None =>
      let* mjs := ask (QImport moduleName ".mjs") in
      match mjs with
      | Some imported => ret (Some imported)
      | None => ret None
      end
  end.

(** [module?.commands?.[commandName]] and [typeof handler] *)
Definition command_shape (module_ : option ModuleShape) (commandName : string)
    : CommandShape :=
  match module_ with
  | None => NoCommand
  | Some shape => shape commandName
  end.

(** [ModuleService.runModule(moduleName, commandName, parameters)].  The
    [catch] block reads [err.message], which itself throws a [TypeError] when
    [err] is [null] or [undefined]. *)
Definition runModule (moduleName commandName parameters : string)
    : M ModuleOutput :=
  let* module_ := loadModule moduleName in
  match command_shape module_ commandName with
  | NoCommand =>
      ret (Failed (Some ("Command " +:+ dq +:+ commandName +:+ dq
                         +:+ " not found in " +:+ dq +:+ moduleName +:+ dq)))
  | NotCallable => ret (Failed (Some "Handler is not a function"))
  | Callable =>
      let parsedParams := parse_query parameters in
      let* outcome := ask (QCall moduleName commandName parsedParams) in
      match outcome with
      | Returned result => ret (Success result)
      | Threw (WithMessage message) => ret (Failed (Some message))
      | Threw WithoutMessage => ret (Failed None)
      | Threw Nullish =>
          throw "Cannot read properties of undefined (reading 'message')"
      end
  end.

Section Backend.
Context (lib : Library) (env : Env).

(** ** [AIService] *)

Definition role_name (r : Role) : string :=
  match r with
  | system => "system"
  | user => "user"
  | assistant => "assistant"
  end.

(** Evaluating [JSON.stringify(moduleOutput)] where a route builds a text
    from a module result: the [TypeError] is thrown there. *)
Definition JSON_check (moduleOutput : ModuleOutput) : M unit :=
  match JSON_throws lib moduleOutput with
  | Some message => throw message
  | None => ret tt
  end.

(** The same for the optional [moduleOutput] of the request builders, which
    call [JSON.stringify] only [if (moduleOutput)]. *)
Definition JSON_failure (moduleOutput : option ModuleOutput) : option string :=
  match moduleOutput with
  | Some out => JSON_throws lib out
  | None => None
  end.

(** The two messages that carry a module result, when there is one. *)
Definition module_output_messages (moduleOutput : option ModuleOutput)
    : list ChatMessage :=
  match moduleOutput with
  | Some out =>
      [ mkChatMessage system
          ("Module execution result: " +:+ JSON_stringify lib out) None;
        mkChatMessage user
          "Please respond to the user with the module execution result." None ]
  | None => []
  end.

(** The [messages] of [getOpenAIResponse]. *)
Definition openai_messages (prompt systemPrompt : string)
    (moduleOutput : option ModuleOutput) (history : list ChatMessage)
    : list ChatMessage :=
  [mkChatMessage system systemPrompt None]
  ++ (if (0 <? length history)%nat then slice_last 10 history else [])
  ++ [mkChatMessage user prompt None]
  ++ module_output_messages moduleOutput.

(** The [fullPrompt] of [getGeminiResponse] and [getOllamaResponse]. *)
Definition full_prompt (prompt systemPrompt : string)
    (moduleOutput : option ModuleOutput) (history : list ChatMessage)
    : string :=
  systemPrompt
  +:+ (if (0 <? length history)%nat then
         nl +:+ nl +:+ "Chat History:" +:+ nl +:+
         String.concat nl
           (map (fun msg => role_name (role msg) +:+ ": " +:+ content msg)
                (slice_last 10 history))
       else "")
  +:+ (nl +:+ nl +:+ "User: " +:+ prompt)
  +:+ match moduleOutput with
      | Some out =>
          nl +:+ nl +:+ "Module execution result: " +:+ JSON_stringify lib out
          +:+ nl +:+ nl
          +:+ "Please respond to the user with the module execution result."
      | None => ""
      end.

(** The [messages] of [getOllamaResponse]: [fullPrompt] is built there and
    not used. *)
Definition ollama_messages (prompt systemPrompt : string)
    (moduleOutput : option ModuleOutput) (history : list ChatMessage)
    : list ChatMessage :=
  let fullPrompt := full_prompt prompt systemPrompt moduleOutput history in
  [ mkChatMessage system systemPrompt None;
    mkChatMessage user prompt None ]
  ++ module_output_messages moduleOutput.

Definition getOpenAIResponse (prompt systemPrompt : string)
    (moduleOutput : option ModuleOutput) (history : list ChatMessage)
    : M string :=
  if falsy (OPENAI_API_KEY env)
     || (OPENAI_API_KEY env =? "your_openai_api_key_here")%string
  then ret "Error: OpenAI API key is not configured. Please set a valid OPENAI_API_KEY in .ENV file."
  else
    match JSON_failure moduleOutput with
    | Some message => throw message   (* [messages] is built before the [try] *)
    | None =>
        let messages :=
          openai_messages prompt systemPrompt moduleOutput history in
        let model := str_or (OPENAI_MAIN_MODEL env) "gpt-4o-mini" in
        let* completion := ask (QProvider (OpenAIChat model messages)) in
        match completion with
        | Reply text => ret text
        | Rejected message =>
            ret ("Error: OpenAI API call failed - " +:+ message
                 +:+ ". Please check your API key configuration.")
        end
    end.

Definition getGeminiResponse (prompt systemPrompt : string)
    (moduleOutput : option ModuleOutput) (history : list ChatMessage)
    : M string :=
  if falsy (GEMINI_API_KEY env)
     || (GEMINI_API_KEY env =? "your_gemini_api_key_here")%string
  then ret "Error: Gemini API key is not configured. Please set a valid GEMINI_API_KEY in .ENV file."
  else
    match JSON_failure moduleOutput with
    | Some message =>                 (* [fullPrompt] is built inside the [try] *)
        ret ("Error: Gemini API call failed - " +:+ message
             +:+ ". Please check your API key configuration.")
    | None =>
        let fullPrompt :=
          full_prompt prompt systemPrompt moduleOutput history in
        let model := str_or (GEMINI_MAIN_MODEL env) "gemini-2.0-flash-exp" in
        let* result := ask (QProvider (GeminiGenerate model fullPrompt)) in
        match result with
        | Reply text => ret text
        | Rejected message =>
            ret ("Error: Gemini API call failed - " +:+ message
                 +:+ ". Please check your API key configuration.")
        end
    end.

Definition getOllamaResponse (prompt systemPrompt : string)
    (moduleOutput : option ModuleOutput) (history : list ChatMessage)
    : M string :=
  match JSON_failure moduleOutput with
  | Some message =>                   (* [fullPrompt] is built inside the [try] *)
      ret ("Error: Ollama API call failed - " +:+ message
           +:+ ". Please check if Ollama is running and the model is available.")
  | None =>
      let model := str_or (OLLAMA_MAIN_MODEL env) "llama2" in
      let messages :=
        ollama_messages prompt systemPrompt moduleOutput history in
      let* response := ask (QProvider (OllamaChat model messages)) in
      match response with
      | Reply text => ret text
      | Rejected message =>
          ret ("Error: Ollama API call failed - " +:+ message
               +:+ ". Please check if Ollama is running and the model is available.")
      end
  end.

(** [DEFAULT_LLM_SERVICE = process.env.DEFAULT_LLM_SERVICE || "openai"] *)
Definition defaultService : string := str_or (DEFAULT_LLM_SERVICE env) "openai".

(** [AIService.getResponse(prompt, systemPrompt, moduleOutput, history)] *)
Definition getResponse (prompt systemPrompt : string)
    (moduleOutput : option ModuleOutput) (history : list ChatMessage)
    : M string :=
  if falsy prompt then throw "Prompt is required"
  else if (defaultService =? "openai")%string then
    getOpenAIResponse prompt systemPrompt moduleOutput history
  else if (defaultService =? "gemini")%string then
    getGeminiResponse prompt systemPrompt moduleOutput history
  else if (defaultService =? "ollama")%string then
    getOllamaResponse prompt systemPrompt moduleOutput history
  else
    ret ("Error: Unknown LLM service " +:+ dq +:+ defaultService +:+ dq
         +:+ ". Available: openai, gemini, ollama").

(** The continuation prompt both routes build after a module has run. *)
Definition continuation_prompt (original moduleName commandName : string)
    (moduleOutput : ModuleOutput) : string :=
  "Original user request: " +:+ dq +:+ original +:+ dq +:+ ". " +:+ nl
  +:+ "Module execution result for " +:+ moduleName +:+ "." +:+ commandName
  +:+ ": " +:+ JSON_stringify lib moduleOutput +:+ "." +:+ nl
  +:+ "Based on this result, please provide a complete response to the user's original request. Only execute another module if the result is insufficient to answer the user's question. If you need to execute more modules, use the /run module syntax again.".

(** Store a request for approval under a new id and answer with it. *)
Definition suspend (d : Directive) (prompt response : string)
    (outputs : list ChainEntry) (sid : string)
    (previousResult : option string) (message : string) : M Response :=
  let* requestId := newRequestId in
  set_pending requestId
    (mkPendingRequest (module d) (command d) (parameters d)
       prompt response outputs sid) ;;;
  ret (RespApproval requestId (module d) (command d) previousResult message).

(** ** [POST /message] *)

(** The assistant entry a direct command leaves in the log. *)
Definition direct_log (d : Directive) (moduleOutput : ModuleOutput) : string :=
  "Direct command executed: " +:+ module d +:+ "." +:+ command d +:+ nl
  +:+ "Result: " +:+ JSON_stringify_pretty lib moduleOutput.

(** The [case "llm"] arm of the [switch]. *)
Definition message_llm (userprompt sid : string) : M Response :=
  let* sessionHistory := history_or_empty sid in
  let* aiResponse :=
    getResponse userprompt (SystemLLMPrompt lib) None sessionHistory in
  match parseModuleCommand aiResponse with
  | Some moduleCommand =>
      if (module moduleCommand =? "list")%string then
        (* auto-approved *)
        try_catch
          (let* moduleOutput :=
             runModule (module moduleCommand) (command moduleCommand)
               (parameters moduleCommand) in
           JSON_check moduleOutput ;;;
           let nextPrompt :=
             continuation_prompt userprompt (module moduleCommand)
               (command moduleCommand) moduleOutput in
           let* sessionHistory := history_or_empty sid in
           let* finalResponse :=
             getResponse nextPrompt (SystemLLMPrompt lib) None sessionHistory in
           match parseModuleCommand finalResponse with
           | Some nextModuleCommand =>
               suspend nextModuleCommand userprompt finalResponse
                 [mkChainEntry (module moduleCommand) (command moduleCommand)
                    moduleOutput]
                 sid (Some (markdown_toHTML lib finalResponse))
                 "AI requests permission to execute another module."
           | None =>
               push_history sid assistant finalResponse ;;;
               let* sessionHistory := history_or_empty sid in
               ret (RespFinal (markdown_toHTML lib finalResponse)
                      (Some moduleOutput) (Some sessionHistory))
           end)
          (fun error =>
             ret (RespFailure ("List module execution failed: " +:+ error)))
      else
        suspend moduleCommand userprompt aiResponse [] sid None
          "AI requests permission to execute a module. Please approve or deny."
  | None =>
      push_history sid assistant aiResponse ;;;
      let* sessionHistory := history_or_empty sid in
      ret (RespFinal (markdown_toHTML lib aiResponse) None
             (Some sessionHistory))
  end.

(** [if (!chatHistory.has(sessionId)) chatHistory.set(sessionId, [])] *)
Definition init_history (sid : string) : M unit :=
  modify (fun st =>
    match chatHistory st !! sid with
    | Some _ => st
    | None =>
        mkState (pendingModuleRequests st) (<[sid := []]> (chatHistory st))
    end).

Definition post_message (body : MessageBody) : M Response :=
  let sid := default "default" (sessionId body) in
  if falsy (userprompt body) || falsy (typoftask body) then
    ret (RespFailure "Missing Fields")
  else
    init_history sid ;;;
    match parseModuleCommand (userprompt body) with
    | Some directCommand =>
        try_catch
          (let* moduleOutput :=
             runModule (module directCommand) (command directCommand)
               (parameters directCommand) in
           push_history sid user (userprompt body) ;;;
           JSON_check moduleOutput ;;;
           push_history sid assistant (direct_log directCommand moduleOutput) ;;;
           let* sessionHistory := history_or_empty sid in
           ret (RespDirect
                  ("<strong>Direct Command Result:</strong><br><pre>"
                   +:+ JSON_stringify_pretty lib moduleOutput +:+ "</pre>")
                  moduleOutput sessionHistory))
          (fun error =>
             ret (RespFailure
                    ("Direct command execution failed: " +:+ error)))
    | None =>
        push_history sid user (userprompt body) ;;;
        try_catch
          (if (typoftask body =? "llm")%string then
             message_llm (userprompt body) sid
           else ret (RespFailure "Unknown task type"))
          (fun error =>
             ret (RespFailure (str_or error "Internal Server Error")))
    end.

(** ** [POST /approve-module] *)

(** The body of the [try] block, once the request is approved. *)
Definition approved_run (pendingRequest : PendingRequest) : M Response :=
  let* moduleOutput :=
    runModule (pending_module pendingRequest) (pending_command pendingRequest)
      (pending_parameters pendingRequest) in
  let updatedModuleOutputs :=
    allModuleOutputs pendingRequest
    ++ [mkChainEntry (pending_module pendingRequest)
          (pending_command pendingRequest) moduleOutput] in
  JSON_check moduleOutput ;;;
  let nextPrompt :=
    continuation_prompt (originalPrompt pendingRequest)
      (pending_module pendingRequest) (pending_command pendingRequest)
      moduleOutput in
  let sid := str_or (originalSessionId pendingRequest) "default" in
  let* sessionHistoryForApproval := history_or_empty sid in
  let* finalResponse :=
    getResponse nextPrompt (SystemLLMPrompt lib) None
      sessionHistoryForApproval in
  match parseModuleCommand finalResponse with
  | Some nextModuleCommand =>
      if (module nextModuleCommand =? "list")%string then
        try_catch
          (let* listModuleOutput :=
             runModule (module nextModuleCommand) (command nextModuleCommand)
               (parameters nextModuleCommand) in
           let newUpdatedModuleOutputs :=
             updatedModuleOutputs
             ++ [mkChainEntry (module nextModuleCommand)
                   (command nextModuleCommand) listModuleOutput] in
           JSON_check listModuleOutput ;;;
           let nextPrompt :=
             continuation_prompt (originalPrompt pendingRequest)
               (module nextModuleCommand) (command nextModuleCommand)
               listModuleOutput in
           let* sessionHistoryForList :=
             history_or_empty (originalSessionId pendingRequest) in
           let* nextFinalResponse :=
             getResponse nextPrompt (SystemLLMPrompt lib) None
               sessionHistoryForList in
           match parseModuleCommand nextFinalResponse with
           | Some yetAnotherModuleCommand =>
               suspend yetAnotherModuleCommand (originalPrompt pendingRequest)
                 nextFinalResponse newUpdatedModuleOutputs
                 (originalSessionId pendingRequest)
                 (Some (markdown_toHTML lib nextFinalResponse))
                 "AI requests permission to execute another module."
           | None =>
               ret (RespFinal (markdown_toHTML lib nextFinalResponse)
                      (Some listModuleOutput) None)
           end)
          (fun error =>
             ret (RespFailure ("List module execution failed: " +:+ error)))
      else
        suspend nextModuleCommand (originalPrompt pendingRequest)
          finalResponse updatedModuleOutputs
          (originalSessionId pendingRequest)
          (Some (markdown_toHTML lib finalResponse))
          "AI requests permission to execute another module."
  | None =>
      push_history sid assistant finalResponse ;;;
      let* sessionHistory := history_or_empty sid in
      ret (RespFinal (markdown_toHTML lib finalResponse) (Some moduleOutput)
             (Some sessionHistory))
  end.

Definition post_approve_module (body : ApproveBody) : M Response :=
  if falsy (requestId body) then ret (RespFailure "Missing request ID")
  else
    let* st := get_state in
    match pendingModuleRequests st !! requestId body with
    | None => ret (RespFailure "Request not found or expired")
    | Some pendingRequest =>
        delete_pending (requestId body) ;;;
        if negb (approved body) then
          ret (RespDenied "Module execution denied by user.")
        else
          try_catch (approved_run pendingRequest)
            (fun error =>
               ret (RespFailure ("Module execution failed: " +:+ error)))
    end.

(** [POST /clear-history]: [chatHistory.delete(sessionId)] *)
Definition post_clear_history (sid : option string) : M Response :=
  modify (fun st =>
    mkState (pendingModuleRequests st)
      (delete (default "default" sid) (chatHistory st))) ;;;
  ret (RespFinal "Chat history cleared" None None).

End Backend.

(** ** Serving requests *)

Inductive Request : Type :=
| PostMessage (body : MessageBody)
| PostApproveModule (body : ApproveBody)
| PostClearHistory (sid : option string).

Definition handler (lib : Library) (env : Env) (req : Request) : M Response :=
  match req with
  | PostMessage body => post_message lib env body
  | PostApproveModule body => post_approve_module lib env body
  | PostClearHistory sid => post_clear_history sid
  end.

(** What serving one request leaves behind: the completion of the handler,
    the state and the events. *)
Record Served : Type := mkServed {
  completion : Completion Response;
  state_after : State;
  events : list Event
}.

Definition serve (lib : Library) (env : Env) (w : World) (req : Request)
    (st : State) : Served :=
  let '(r, st', tr) := run w [] (handler lib env req st) in
  mkServed r st' tr.

(** Serving requests one after the other, each in its own world. *)
Fixpoint serve_all (lib : Library) (env : Env)
    (reqs : list (World * Request)) (st : State) : State :=
  match reqs with
  | [] => st
  | (w, req) :: rest =>
      serve_all lib env rest (state_after (serve lib env w req st))
  end.

(** The events that are handler invocations, provider calls. *)
Definition is_call (e : Event) : bool :=
  match projT1 e with
  | QCall _ _ _ => true
  | _ => false
  end.

Definition is_provider_call (e : Event) : bool :=
  match projT1 e with
  | QProvider _ => true
  | _ => false
  end.

(* ================================================================== *)
(** * Concrete worlds, for running the handlers *)
(* ================================================================== *)

Definition count_provider_calls (tr : list Event) : nat :=
  length (List.filter is_provider_call tr).

(** A world whose provider gives the [replies] in turn, whose modules all
    load and have every command, and whose handlers all end in [outcome]. *)
Definition scripted (replies : list string) (outcome : HandlerOutcome)
    : World :=
  fun tr q =>
    match q return Answer q with
    | QProvider _ => Reply (nth (count_provider_calls tr) replies "")
    | QImport _ _ => Some (fun _ => Callable)
    | QCall _ _ _ => outcome
    | QTimestamp => "2025-01-01T00:00:00.000Z"
    | QDateNow => 1735689600000%N
    | QRandom => "k3j9x0q1z"
    end.

(** Renderers that only tell the two kinds of output apart; every result
    can be rendered. *)
Definition plain_library : Library :=
  mkLibrary
    (fun out => match out with Success r => r | Failed _ => "error" end)
    (fun out => match out with Success r => r | Failed _ => "error" end)
    (fun text => text)
    "You are an AI agent."
    (fun _ => None).

(** A configuration that selects the local provider. *)
Definition ollama_env : Env := mkEnv "ollama" "" "" "" "" "".

(** The one id the scripted worlds generate. *)
Definition scripted_id : string := "1735689600000k3j9x0q1z".

(** A world in which the model asks for the [time] module once and then
    answers in plain text. *)
Definition time_world : World :=
  scripted ["/run module time getTime"; "It is noon."] (Returned "12:00").

Definition time_question : MessageBody :=
  mkMessageBody "What time is it?" "llm" None.

(** A state with one request waiting for a decision. *)
Definition waiting_id : string := "1735689500000a1b2c3d4e".

Definition waiting_request : PendingRequest :=
  mkPendingRequest "time" "getTime" "" "What time is it?"
    "/run module time getTime" [] "default".

Definition waiting_state : State :=
  mkState {[ waiting_id := waiting_request ]}
    {[ "default" :=
         [mkChatMessage user "What time is it?"
            (Some "2025-01-01T00:00:00.000Z")] ]}.

(** A world in which the model keeps asking for the listing module. *)
Definition listing_world : World :=
  scripted [ "/run module list listAllModules";
             "/run module list listAllModules";
             "/run module list listAllModules" ] (Returned "[]").

(** A world in which the model, given a module result, asks for one more
    module. *)
Definition chain_world : World :=
  scripted ["/run module system getDeviceId"] (Returned "12:00").

(** A world whose handlers reject without a reason. *)
Definition rejecting_world : World := scripted [] (Threw Nullish).

(** The events in which a handler returned normally. *)
Definition is_successful_call (e : Event) : bool :=
  match e with
  | existT q a =>
      match q return Answer q -> bool with
      | QCall _ _ _ =>
          fun outcome =>
            match outcome with
            | Returned _ => true
            | Threw _ => false
            end
      | _ => fun _ => false
      end a
  end.

(* ================================================================== *)
(** * Specifications of handler code *)
(* ================================================================== *)

(** [answers w q a]: [a] is an answer the world [w] can give to [q]. *)
Definition answers (w : World) (q : Query) (a : Answer q) : Prop :=
  exists tr, a = w tr q.

(** [wp w m st Q]: whatever happened before, running [m] from [st] in the
    world [w] ends in a completion and a state that satisfy [Q]. *)
Definition wp {A : Type} (w : World) (m : M A) (st : State)
    (Q : Completion A -> State -> Prop) : Prop :=
  forall tr, Q (run w tr (m st)).1.1 (run w tr (m st)).1.2.

(** [generates w id]: the world [w] can make [newRequestId] return [id]. *)
Definition generates (w : World) (id : string) : Prop :=
  exists now rnd, answers w QDateNow now /\ answers w QRandom rnd /\
                  id = pretty now +:+ rnd.

(** The provider wrappers always return a text and leave the maps alone. *)
Definition returns_text (st : State) (r : Completion string) (st' : State)
    : Prop :=
  st' = st /\ exists text, r = Normal text.

(** ** What a run of [POST /message] establishes *)

(** The [llm] arm, from a state in which the session has the log [h]. *)
Definition llm_post (lib : Library) (w : World) (sid : string)
    (h : list ChatMessage) (st : State)
    (r : Completion Response) (st' : State) : Prop :=
  exists resp, r = Normal resp /\
    match resp with
    | RespApproval id m c prev msg =>
        generates w id /\
        exists p, st' = mkState (<[id := p]> (pendingModuleRequests st))
                          (chatHistory st)
    | RespFinal msg mo oh =>
        exists text ts,
          msg = markdown_toHTML lib text /\
          oh = Some (h ++ [mkChatMessage assistant text (Some ts)]) /\
          st' = mkState (pendingModuleRequests st)
                  (<[sid := h ++ [mkChatMessage assistant text (Some ts)]]>
                     (chatHistory st))
    | RespFailure msg => st' = st
    | RespDirect _ _ _ | RespDenied _ => False
    end.

(** The whole route: the other sessions are untouched, and the answer
    tells what happened to the pending table and to the session's log. *)
Definition message_post (lib : Library) (w : World) (body : MessageBody)
    (st : State) (r : Completion Response) (st' : State) : Prop :=
  let sid := default "default" (sessionId body) in
  let old := default [] (chatHistory st !! sid) in
  exists resp, r = Normal resp /\
    (forall sid', sid' <> sid ->
       chatHistory st' !! sid' = chatHistory st !! sid') /\
    match resp with
    | RespApproval id m c prev msg =>
        generates w id /\
        (exists p, pendingModuleRequests st'
                   = <[id := p]> (pendingModuleRequests st)) /\
        exists ts,
          chatHistory st' !! sid
          = Some (old ++ [mkChatMessage user (userprompt body) (Some ts)])
    | RespDirect msg out h =>
        pendingModuleRequests st' = pendingModuleRequests st /\
        chatHistory st' !! sid = Some h /\
        exists d ts1 ts2,
          parseModuleCommand (userprompt body) = Some d /\
          h = old ++ [mkChatMessage user (userprompt body) (Some ts1);
                      mkChatMessage assistant (direct_log lib d out) (Some ts2)]
    | RespFinal msg mo oh =>
        pendingModuleRequests st' = pendingModuleRequests st /\
        exists text ts1 ts2,
          msg = markdown_toHTML lib text /\
          oh = Some (old ++ [mkChatMessage user (userprompt body) (Some ts1);
                             mkChatMessage assistant text (Some ts2)]) /\
          chatHistory st' !! sid = oh
    | RespFailure msg =>
        pendingModuleRequests st' = pendingModuleRequests st
    | RespDenied _ => False
    end.

(** ** What an approved run of [POST /approve-module] establishes

    [st] is the state once the request has left the pending table. *)
Definition approved_post (lib : Library) (w : World) (p : PendingRequest)
    (st : State) (r : Completion Response) (st' : State) : Prop :=
  let sid := str_or (originalSessionId p) "default" in
  exists resp, r = Normal resp /\
    match resp with
    | RespApproval id m c prev msg =>
        generates w id /\
        exists p', st' = mkState (<[id := p']> (pendingModuleRequests st))
                           (chatHistory st)
    | RespFinal msg mo (Some h) =>
        exists old text ts,
          chatHistory st !! sid = Some old /\
          msg = markdown_toHTML lib text /\
          h = old ++ [mkChatMessage assistant text (Some ts)] /\
          st' = mkState (pendingModuleRequests st)
                  (<[sid := h]> (chatHistory st))
    | RespFinal msg mo None => st' = st
    | RespFailure msg => st' = st
    | RespDirect _ _ _ | RespDenied _ => False
    end.

(* ================================================================== *)
(** * What a run may touch *)
(* ================================================================== *)

(** [emits w m E]: from any state and after any events, every event a run
    of [m] in the world [w] adds satisfies [E]. *)
Definition emits {A : Type} (w : World) (m : M A) (E : Event -> Prop) : Prop :=
  forall st tr, exists ext, (run w tr (m st)).2 = tr ++ ext /\ Forall E ext.

(** The event is a provider call. *)
Definition provider_event (e : Event) : Prop :=
  match projT1 e with
  | QProvider _ => True
  | _ => False
  end.

(** The event reads the clock or the random source. *)
Definition clock_event (e : Event) : Prop :=
  match projT1 e with
  | QTimestamp | QDateNow | QRandom => True
  | _ => False
  end.

(** The event is part of running [moduleName.commandName] on [parameters]:
    an import of that module's file, or a call of that handler with the
    parsed parameters. *)
Definition directive_event (moduleName commandName parameters : string)
    (e : Event) : Prop :=
  match projT1 e with
  | QImport m ext => m = moduleName /\ (ext = ".js" \/ ext = ".mjs")
  | QCall m c arg =>
      m = moduleName /\ c = commandName /\ arg = parse_query parameters
  | _ => False
  end.

(** The event imports or calls the listing module. *)
Definition listing_event (e : Event) : Prop :=
  match projT1 e with
  | QImport m _ => m = "list"
  | QCall m _ _ => m = "list"
  | _ => False
  end.

(** The event imports a module file or calls a handler. *)
Definition module_event (e : Event) : Prop :=
  match projT1 e with
  | QImport _ _ | QCall _ _ _ => True
  | _ => False
  end.

(** What the model can cause without approval: provider calls, clock
    reads, and the listing module. *)
Definition unapproved_event (e : Event) : Prop :=
  provider_event e \/ clock_event e \/ listing_event e.

(** What a direct command causes: clock reads and the directive itself. *)
Definition direct_event (d : Directive) (e : Event) : Prop :=
  clock_event e \/ directive_event (module d) (command d) (parameters d) e.

(** What approving the request [p] can cause: what the model can cause
    anyway, and the run of the approved directive. *)
Definition approved_event (p : PendingRequest) (e : Event) : Prop :=
  unapproved_event e \/
  directive_event (pending_module p) (pending_command p)
    (pending_parameters p) e.

(** [preserves w m R]: a run of [m] takes every state to an [R]-related
    state. *)
Definition preserves {A : Type} (w : World) (m : M A)
    (R : State -> State -> Prop) : Prop :=
  forall st tr, R st (run w tr (m st)).1.2.

(** Every log of [st] is a prefix of the log of the same session in
    [st']. *)
Definition log_extends (st st' : State) : Prop :=
  forall sid old,
    chatHistory st !! sid = Some old ->
    exists new, chatHistory st' !! sid = Some (old ++ new).

(** Every id pending in [st] is still pending in [st']. *)
Definition pending_kept (st st' : State) : Prop :=
  forall id, is_Some (pendingModuleRequests st !! id) ->
             is_Some (pendingModuleRequests st' !! id).

(** [POST /clear-history] is the one route that drops log entries. *)
Definition clears (req : Request) : bool :=
  match req with
  | PostClearHistory _ => true
  | _ => false
  end.

(** The pending table is the same in both states. *)
Definition same_pending (st st' : State) : Prop :=
  pendingModuleRequests st' = pendingModuleRequests st.

(** A suspension answer names a request that is stored, with a non-empty
    id, for the directive it announces, under the given prompt and
    session. *)
Definition announced (prompt sid : string) (chain : list ChainEntry -> Prop)
    (r : Completion Response) (st' : State) : Prop :=
  forall id m c prev msg,
    r = Normal (RespApproval id m c prev msg) ->
    id <> "" /\
    exists p,
      pendingModuleRequests st' !! id = Some p /\
      pending_module p = m /\ pending_command p = c /\
      originalPrompt p = prompt /\ originalSessionId p = sid /\
      chain (allModuleOutputs p).


(** [stops p s]: no run of the class [p] starts at the head of [s]. *)
Definition stops (p : ascii -> bool) (s : string) : Prop :=
  match s with
  | EmptyString => True
  | String c _ => p c = false
  end.

(** ** Parts of the directive pattern *)

(** The optional parameter group of the directive pattern. *)
Definition parameters_group : Regex.regex :=
  Regex.Opt
    (Regex.Cat (Regex.Plus Regex.is_space)
       (Regex.Group 3 (Regex.Plus Regex.is_dot))).

(** The continuation [exec] starts the matcher with. *)
Definition final : string -> Regex.captures -> option Regex.captures :=
  fun _ m => Some m.

(** The pattern from the module token on. *)
Definition from_module : Regex.regex :=
  Regex.Cat (Regex.Group 1 (Regex.Plus Regex.is_word))
    (Regex.Cat (Regex.Plus Regex.is_space)
       (Regex.Cat (Regex.Group 2 (Regex.Plus Regex.is_word))
          parameters_group)).

(* ================================================================== *)
(** * More worlds and event classes *)
(* ================================================================== *)

(** The event imports a file of the module [moduleName]. *)
Definition import_event (moduleName : string) (e : Event) : Prop :=
  match projT1 e with
  | QImport m ext => m = moduleName /\ (ext = ".js" \/ ext = ".mjs")
  | _ => False
  end.

(** A world like [scripted], but in which no module file can be
    imported. *)
Definition unloadable (replies : list string) : World :=
  fun tr q =>
    match q return Answer q with
    | QProvider _ => Reply (nth (count_provider_calls tr) replies "")
    | QImport _ _ => None
    | QCall _ _ _ => Returned ""
    | QTimestamp => "2025-01-01T00:00:00.000Z"
    | QDateNow => 1735689600000%N
    | QRandom => "k3j9x0q1z"
    end.

(** The text [getOpenAIResponse] returns instead of calling the provider
    when the key is missing or is the placeholder of the sample file. *)
Definition openai_key_notice : string :=
  "Error: OpenAI API key is not configured. Please set a valid OPENAI_API_KEY in .ENV file.".

(** A configuration that selects OpenAI and sets no key. *)
Definition keyless_env : Env := mkEnv "" "" "" "" "" "".

(** [plain_model lib env w]: whatever the routes ask, what [getResponse]
    returns in the world [w] holds no directive.  The routes pass [null]
    for [moduleOutput]. *)
Definition plain_model (lib : Library) (env : Env) (w : World) : Prop :=
  forall prompt sys h st tr,
    falsy prompt = false ->
    exists text,
      (run w tr (getResponse lib env prompt sys None h st)).1.1 = Normal text /\
      parseModuleCommand text = None.

(** A library whose [JSON.stringify] throws on one result, as on a
    [BigInt], and a world whose handlers return it. *)
Definition strict_library : Library :=
  mkLibrary
    (fun out => match out with Success r => r | Failed _ => "error" end)
    (fun out => match out with Success r => r | Failed _ => "error" end)
    (fun text => text)
    "You are an AI agent."
    (fun out =>
       match out with
       | Success r =>
           if (r =? "9007199254740993n")%string
           then Some "Do not know how to serialize a BigInt"
           else None
       | Failed _ => None
       end).

Definition bigint_world : World := scripted [] (Returned "9007199254740993n").

(** A world whose model answers every prompt with the same plain text. *)
Definition noon_world : World := scripted [] (Returned "12:00").

(** [yields w m st Q]: whatever happened before, a run of [m] from [st] in
    the world [w] ends in a completion, a state and added events that
    satisfy [Q]. *)
Definition yields {A : Type} (w : World) (m : M A) (st : State)
    (Q : Completion A -> State -> list Event -> Prop) : Prop :=
  forall tr, exists ext,
    (run w tr (m st)).2 = tr ++ ext /\
    Q (run w tr (m st)).1.1 (run w tr (m st)).1.2 ext.

(** The key of the configuration cannot be used. *)
Definition openai_key_unusable (env : Env) : bool :=
  falsy (OPENAI_API_KEY env)
  || (OPENAI_API_KEY env =? "your_openai_api_key_here")%string.

Definition gemini_key_unusable (env : Env) : bool :=
  falsy (GEMINI_API_KEY env)
  || (GEMINI_API_KEY env =? "your_gemini_api_key_here")%string.

(* ================================================================== *)
(** * [ModuleService.listModules] *)
(* ================================================================== *)

(** [s.endsWith(suffix)] *)
Fixpoint ends_with (suffix s : string) : bool :=
  (s =? suffix)%string ||
  match s with
  | EmptyString => false
  | String _ s' => ends_with suffix s'
  end.

(** [s.slice(0, -n)] for a positive [n]: [s] without its last [n]
    characters, the empty string when [s] is shorter. *)
Definition slice_end (n : nat) (s : string) : string :=
  substring 0 (String.length s - n) s.

(** [listModules], as a function of what [fs.readdir(modulesPath)]
    resolved with. *)
Definition listModules (files : list string) : list string :=
  map (fun file =>
         if ends_with ".mjs" file then slice_end 4 file
         else slice_end 3 file)
      (List.filter (fun file => ends_with ".js" file || ends_with ".mjs" file)
         files).

(* ================================================================== *)
(** * The web search module *)
(* ================================================================== *)

Module WebSearch.

(** What the [search] handler returns: [{ error, details? }] or
    [{ success: true, service, query, result, timestamp }]. *)
Inductive SearchResult : Type :=
| SearchFailed (error : string) (details : option string)
| SearchDone (service query result timestamp : string).

(** The [messages] of the two OpenAI requests. *)
Definition browsing_messages (query : string) : list ChatMessage :=
  [ mkChatMessage system
      "You are a helpful assistant with access to real-time web search capabilities. When asked to search for information, use your browsing capabilities to find current and accurate information."
      None;
    mkChatMessage user
      ("Please search for information about: " +:+ query
       +:+ ". Provide a comprehensive and current answer based on your web search capabilities.")
      None ].

Definition fallback_messages (query : string) : list ChatMessage :=
  [ mkChatMessage user
      ("Search for information about: " +:+ query
       +:+ ". Note: I don't have access to real-time web search, so please provide information based on my training data.")
      None ].

Definition fallback_note : string :=
  nl +:+ nl
  +:+ "[Note: This information is based on training data, not real-time web search]".

Section Handler.
(** [error_toString] is [error.toString()] of a rejection, from its
    message; a rejected call carries a message, as the errors of the two
    SDKs do.  The constant [config] of the Gemini request (the search tool)
    is not part of [ProviderRequest]. *)
Context (env : Env) (error_toString : string -> string).

Definition searchWithGemini (query : string) : M SearchResult :=
  if falsy (GEMINI_API_KEY env)
     || (GEMINI_API_KEY env =? "your_gemini_api_key_here")%string
  then
    ret (SearchFailed
           "Gemini API key is not configured. Please set GEMINI_API_KEY in .ENV file."
           None)
  else
    let model := str_or (GEMINI_MAIN_MODEL env) "gemini-2.0-flash-exp" in
    let* response :=
      ask (QProvider (GeminiGenerate model ("Search for: " +:+ query))) in
    match response with
    | Reply text =>
        let* now := ask QTimestamp in
        ret (SearchDone "gemini" query text now)
    | Rejected message => throw message
    end.

Definition searchWithOpenAI (query : string) : M SearchResult :=
  if falsy (OPENAI_API_KEY env)
     || (OPENAI_API_KEY env =? "your_openai_api_key_here")%string
  then
    ret (SearchFailed
           "OpenAI API key is not configured. Please set OPENAI_API_KEY in .ENV file."
           None)
  else
    let model := str_or (OPENAI_MAIN_MODEL env) "gpt-4o" in
    try_catch
      (let* response :=
         ask (QProvider (OpenAIChat model (browsing_messages query))) in
       match response with
       | Reply searchResult =>
           let* now := ask QTimestamp in
           ret (SearchDone "openai" query searchResult now)
       | Rejected message => throw message
       end)
      (fun _ =>
         (* the model may not support browsing *)
         let* response :=
           ask (QProvider (OpenAIChat "gpt-4o-mini" (fallback_messages query))) in
         match response with
         | Reply searchResult =>
             let* now := ask QTimestamp in
             ret (SearchDone "openai" query (searchResult +:+ fallback_note) now)
         | Rejected message => throw message
         end).

(** The [handler] of the [search] command. *)
Definition search (query : string) : M SearchResult :=
  if falsy query then ret (SearchFailed "Search query is required" None)
  else
    try_catch
      (if (defaultService env =? "gemini")%string then searchWithGemini query
       else if (defaultService env =? "openai")%string then
         searchWithOpenAI query
       else
         ret (SearchFailed
                ("Unsupported LLM service: " +:+ defaultService env
                 +:+ ". Use 'gemini' or 'openai'.")
                None))
      (fun message =>
         ret (SearchFailed ("Web search failed: " +:+ message)
                (Some (error_toString message)))).

End Handler.

(** A configuration with an OpenAI key. *)
Definition openai_env : Env := mkEnv "openai" "sk-test" "" "" "" "".

(** A world whose provider rejects the first call and answers the
    following ones. *)
Definition flaky_world : World :=
  fun tr q =>
    match q return Answer q with
    | QProvider _ =>
        match count_provider_calls tr with
        | O => Rejected "The model does not exist"
        | S _ => Reply "Rocq is a proof assistant."
        end
    | QImport _ _ => None
    | QCall _ _ _ => Returned ""
    | QTimestamp => "2025-01-01T00:00:00.000Z"
    | QDateNow => 1735689600000%N
    | QRandom => "k3j9x0q1z"
    end.

End WebSearch.

(* ================================================================== *)
(** * The directive grammar, in the specification's words *)
(* ================================================================== *)

Module SpecGrammar.
Import Regex.

(** Section 4.2 of the specification: the first match of
    [["/"] "run" "module" <module-token> <command-token> [<parameters...>]],
    case-sensitive tokens, whitespace-separated, the leading slash
    optional; a module-token that contains a [.] is split into module and
    command.  A whitespace-separated token is a non-empty run of characters
    that are not whitespace. *)
Definition token (s : string) : Prop := run_of not_space s.

Inductive sentence : string -> Directive -> Prop :=
| S_plain slash ws1 ws2 m ws3 c :
    Grammar.optional_slash slash ->
    Grammar.whitespace ws1 -> Grammar.whitespace ws2 ->
    token m -> includes "." m = false ->
    Grammar.whitespace ws3 -> token c ->
    sentence
      (slash +:+ "run" +:+ ws1 +:+ "module" +:+ ws2 +:+ m +:+ ws3 +:+ c)
      (mkDirective m c "")
| S_parameters slash ws1 ws2 m ws3 c ws4 p :
    Grammar.optional_slash slash ->
    Grammar.whitespace ws1 -> Grammar.whitespace ws2 ->
    token m -> includes "." m = false ->
    Grammar.whitespace ws3 -> token c ->
    Grammar.whitespace ws4 -> p <> "" ->
    sentence
      (slash +:+ "run" +:+ ws1 +:+ "module" +:+ ws2 +:+ m +:+ ws3 +:+ c
         +:+ ws4 +:+ p)
      (mkDirective m c p)
| S_dotted slash ws1 ws2 m c :
    Grammar.optional_slash slash ->
    Grammar.whitespace ws1 -> Grammar.whitespace ws2 ->
    token (m +:+ "." +:+ c) -> includes "." m = false ->
    sentence
      (slash +:+ "run" +:+ ws1 +:+ "module" +:+ ws2 +:+ (m +:+ "." +:+ c))
      (mkDirective m c "")
| S_dotted_parameters slash ws1 ws2 m c ws3 p :
    Grammar.optional_slash slash ->
    Grammar.whitespace ws1 -> Grammar.whitespace ws2 ->
    token (m +:+ "." +:+ c) -> includes "." m = false ->
    Grammar.whitespace ws3 -> p <> "" ->
    sentence
      (slash +:+ "run" +:+ ws1 +:+ "module" +:+ ws2 +:+ (m +:+ "." +:+ c)
         +:+ ws3 +:+ p)
      (mkDirective m c p).

(** A sentence that reads as [d] starts at offset [n] of the text [t]. *)
Definition occurs_at (t : string) (n : nat) (d : Directive) : Prop :=
  exists pre mt rest,
    t = pre +:+ mt +:+ rest /\ String.length pre = n /\ sentence mt d.

End SpecGrammar.

(* ================================================================== *)
(** * What the pattern reads at an offset *)
(* ================================================================== *)

Module FirstMatch.
Import Regex Grammar.

(** Nothing after [rest]'s leading whitespace can start the parameters: no
    whitespace prefix of [rest] is followed by a character other than a
    line terminator. *)
Definition no_parameters (rest : string) : Prop :=
  forall ws rest', rest = ws +:+ rest' -> whitespace ws -> stops is_dot rest'.

(** [reads s d]: the text [s] starts with a sentence of the pattern
    [/\/?run\s+module\s+(\w+)\s+(\w+)(?:\s+(.+))?/], and [d] is what the
    pattern reads there, each part taking as much as it can: the module and
    the command are whole runs of identifier characters; the parameters are
    read whenever some whitespace after the command is followed by a
    character that is not a line terminator, start after the longest such
    whitespace, and run to the end of the line. *)
Inductive reads : string -> Directive -> Prop :=
| R_bare slash ws1 ws2 m ws3 c rest :
    optional_slash slash -> whitespace ws1 -> whitespace ws2 ->
    token m -> whitespace ws3 -> token c ->
    stops is_word rest -> no_parameters rest ->
    reads
      (slash +:+ "run" +:+ ws1 +:+ "module" +:+ ws2 +:+ m +:+ ws3 +:+ c
         +:+ rest)
      (mkDirective m c "")
| R_parameters slash ws1 ws2 m ws3 c ws4 p rest :
    optional_slash slash -> whitespace ws1 -> whitespace ws2 ->
    token m -> whitespace ws3 -> token c ->
    whitespace ws4 -> parameters_text p ->
    stops is_dot rest -> no_parameters (p +:+ rest) ->
    reads
      (slash +:+ "run" +:+ ws1 +:+ "module" +:+ ws2 +:+ m +:+ ws3 +:+ c
         +:+ ws4 +:+ p +:+ rest)
      (mkDirective m c p).

(** [first_directive t d]: [d] is what the pattern reads at the leftmost
    offset of [t] at which a sentence of the pattern starts. *)
Definition first_directive (t : string) (d : Directive) : Prop :=
  exists pre s,
    t = pre +:+ s /\ reads s d /\
    forall n d', occurs_at t n d' -> String.length pre <= n.

End FirstMatch.

(* ================================================================== *)
(** * Facts about strings *)
(* ================================================================== *)

Lemma string_app_nil_r (s : string) : s +:+ "" = s.
Proof. induction s as [|c s IH]; simpl; [done | by rewrite IH]. Qed.

Lemma string_app_assoc (s1 s2 s3 : string) :
  (s1 +:+ s2) +:+ s3 = s1 +:+ (s2 +:+ s3).
Proof. induction s1 as [|c s1 IH]; simpl; [done | by rewrite IH]. Qed.

Lemma string_length_app (s1 s2 : string) :
  String.length (s1 +:+ s2) = String.length s1 + String.length s2.
Proof. induction s1 as [|c s1 IH]; simpl; [done | by rewrite IH]. Qed.

Lemma string_app_eq_nil (s1 s2 : string) :
  s1 +:+ s2 = "" -> s1 = "" /\ s2 = "".
Proof. destruct s1; simpl; [done | discriminate]. Qed.

Lemma substring_prefix_app (s1 s2 : string) :
  String.substring 0 (String.length s1) (s1 +:+ s2) = s1.
Proof.
  induction s1 as [|c s1 IH]; simpl.
  - by destruct s2.
  - by rewrite IH.
Qed.

Lemma string_app_inv_length (a b c d : string) :
  a +:+ b = c +:+ d -> String.length a = String.length c -> a = c /\ b = d.
Proof.
  revert c; induction a as [|x a IH]; intros [|y c] H Hl; simpl in *;
    try discriminate; [done|].
  injection H as -> H. injection Hl as Hl.
  destruct (IH _ H Hl) as [-> ->]. done.
Qed.

(** Two ways of cutting one string: the shorter prefix is a prefix of the
    longer one. *)
Lemma string_app_split (a b c d : string) :
  a +:+ b = c +:+ d -> String.length a <= String.length c ->
  exists e, c = a +:+ e /\ b = e +:+ d.
Proof.
  revert c; induction a as [|x a IH]; intros c H Hl; simpl in *.
  - exists c. done.
  - destruct c as [|y c]; simpl in *; [lia|].
    injection H as -> H.
    destruct (IH c H ltac:(lia)) as (e & -> & ->). by exists e.
Qed.

Module RegexFacts.
Import Regex.

Lemma consumed_app (s1 s2 : string) : consumed (s1 +:+ s2) s2 = s1.
Proof.
  unfold consumed. rewrite string_length_app.
  replace (String.length s1 + String.length s2 - String.length s2)
    with (String.length s1) by lia.
  apply substring_prefix_app.
Qed.

Lemma run_of_cons p c s :
  p c = true -> (s = "" \/ run_of p s) -> run_of p (String c s).
Proof.
  intros Hc Hs. split; [done|]. simpl. rewrite Hc. simpl.
  destruct Hs as [-> | [_ H]]; done.
Qed.

Lemma run_of_inv p c s :
  run_of p (String c s) -> p c = true /\ (s = "" \/ run_of p s).
Proof.
  intros [_ H]. simpl in H. apply andb_prop in H as [Hc Hs].
  split; [done|]. destruct s; [by left | right; split; done].
Qed.

Section Matcher.
Context {R : Type}.

Lemma run_plus_sound p (k : string -> option R) s x :
  run_plus p s k = Some x ->
  exists s1 s2, s = s1 +:+ s2 /\ run_of p s1 /\ k s2 = Some x.
Proof.
  induction s as [|c s IH]; simpl; [discriminate|].
  destruct (p c) eqn:Hc; [|discriminate].
  destruct (run_plus p s k) as [y|] eqn:Hrest.
  - intros [= ->]. destruct (IH eq_refl) as (s1 & s2 & -> & Hrun & Hk).
    exists (String c s1), s2. split; [done|]. split; [|done].
    apply run_of_cons; auto.
  - intros Hk. exists (String c ""), s. split; [done|]. split; [|done].
    apply run_of_cons; auto.
Qed.

Lemma run_plus_complete p (k : string -> option R) s1 s2 :
  run_of p s1 -> is_Some (k s2) -> is_Some (run_plus p (s1 +:+ s2) k).
Proof.
  revert s2. induction s1 as [|c s1 IH]; intros s2 Hrun Hk.
  - by destruct Hrun.
  - apply run_of_inv in Hrun as [Hc Hs]. simpl. rewrite Hc.
    destruct Hs as [-> | Hs]; simpl.
    + destruct (run_plus p s2 k); [by eexists | done].
    + destruct (IH s2 Hs Hk) as [y ->]. by eexists.
Qed.
End Matcher.

(** Soundness: a successful run consumed a prefix the pattern matches. *)
Lemma rmatch_sound {R : Type} r : forall s m (k : string -> captures -> option R) x,
  rmatch r s m k = Some x ->
  exists s1 s2 m', s = s1 +:+ s2 /\ matches r s1 m m' /\ k s2 m' = Some x.
Proof.
  induction r as [|c|p|r1 IH1 r2 IH2|r1 IH1|p|p|n r1 IH1]; intros s m k x; simpl.
  - intros Hk. exists "", s, m. split_and!; [done|constructor|done].
  - destruct s as [|y s]; [discriminate|].
    destruct (Ascii.eqb_spec y c) as [->|]; [|discriminate].
    intros Hk. exists (String c ""), s, m. split_and!; [done|constructor|done].
  - destruct s as [|y s]; [discriminate|].
    destruct (p y) eqn:Hp; [|discriminate].
    intros Hk. exists (String y ""), s, m. split_and!; [done|by constructor|done].
  - intros H. apply IH1 in H as (s1 & s' & m1 & -> & Hm1 & H).
    apply IH2 in H as (s2 & s3 & m2 & -> & Hm2 & H).
    exists (s1 +:+ s2), s3, m2. split_and!; [|by econstructor|done].
    by rewrite string_app_assoc.
  - destruct (rmatch r1 s m k) as [y|] eqn:H1.
    + intros [= ->]. apply IH1 in H1 as (s1 & s2 & m' & -> & Hm & H).
      exists s1, s2, m'. split_and!; [done|by constructor|done].
    + intros Hk. exists "", s, m. split_and!; [done|apply M_OptNone|done].
  - intros H. apply run_plus_sound in H as (s1 & s2 & -> & [Hne Hall] & H).
    exists s1, s2, m. split_and!; [done|by constructor|done].
  - destruct (run_plus p s _) as [y|] eqn:H1.
    + intros [= ->]. apply run_plus_sound in H1 as (s1 & s2 & -> & [Hne Hall] & H).
      exists s1, s2, m. split_and!; [done|by constructor|done].
    + intros Hk. exists "", s, m. split_and!; [done|by constructor|done].
  - intros H. apply IH1 in H as (s1 & s2 & m' & -> & Hm & H).
    rewrite consumed_app in H.
    exists s1, s2, (set_capture n s1 m'). split_and!; [done|by constructor|done].
Qed.

(** Completeness: if the pattern matches a prefix after which the rest of
    the pattern succeeds, the matcher succeeds (possibly elsewhere). *)
Lemma rmatch_complete r s1 m m' :
  matches r s1 m m' ->
  forall {R : Type} (k : string -> captures -> option R) s2,
  is_Some (k s2 m') -> is_Some (rmatch r (s1 +:+ s2) m k).
Proof.
  induction 1 as [m|c m|p c m Hp|r1 r2 s1 s2 m m1 m2 _ IH1 _ IH2
                 |r s m m' _ IH|r m
                 |p s m Hne Hall|p s m Hall|n r s m m' _ IH];
    intros R k s3 Hk; simpl.
  - apply Hk.
  - rewrite Ascii.eqb_refl. apply Hk.
  - rewrite Hp. apply Hk.
  - rewrite string_app_assoc. apply IH1. by apply IH2.
  - destruct (IH R k s3 Hk) as [y ->]. by eexists.
  - destruct (rmatch r s3 m k); [by eexists | apply Hk].
  - apply run_plus_complete; [done | apply Hk].
  - destruct s as [|c s].
    + simpl. destruct (run_plus p s3 _); [by eexists | apply Hk].
    + destruct (run_plus_complete p (fun s' => k s' m) (String c s) s3)
        as [y Hy]; [by split | apply Hk |].
      rewrite Hy. by eexists.
  - apply IH. by rewrite consumed_app.
Qed.

(** [matched_at r s] : the pattern matches some prefix of [s]. *)
Definition matched_at (r : regex) (s : string) : Prop :=
  exists s1 s2 m, s = s1 +:+ s2 /\ matches r s1 no_captures m.

Lemma rmatch_top_None r s :
  rmatch r s no_captures (fun _ m => Some m) = None <-> ~ matched_at r s.
Proof.
  split.
  - intros Hn (s1 & s2 & m & -> & Hm).
    destruct (rmatch_complete _ _ _ _ Hm (fun _ m => Some m) s2) as [y Hy];
      [by eexists | congruence].
  - intros Hn. destruct (rmatch r s no_captures _) as [y|] eqn:E; [|done].
    apply rmatch_sound in E as (s1 & s2 & m' & -> & Hm & _).
    exfalso. apply Hn. by exists s1, s2, m'.
Qed.

(** [exec] returns the captures of a match at the leftmost position at
    which the pattern matches at all. *)
Lemma exec_Some r s m :
  exec r s = Some m ->
  exists pre s1 s2,
    s = pre +:+ (s1 +:+ s2) /\ matches r s1 no_captures m /\
    forall pre' rest, s = pre' +:+ rest ->
      String.length pre' < String.length pre -> ~ matched_at r rest.
Proof.
  induction s as [|c s IH]; simpl.
  - destruct (rmatch r "" no_captures _) as [y|] eqn:E; [|discriminate].
    intros [= ->]. apply rmatch_sound in E as (s1 & s2 & m' & E & Hm & [= ->]).
    exists "", s1, s2. split_and!; [done|done|]. simpl. intros; lia.
  - destruct (rmatch r (String c s) no_captures _) as [y|] eqn:E.
    + intros [= ->]. apply rmatch_sound in E as (s1 & s2 & m' & E & Hm & [= ->]).
      exists "", s1, s2. split_and!; [done|done|]. simpl. intros; lia.
    + intros H. destruct (IH H) as (pre & s1 & s2 & -> & Hm & Hfirst).
      exists (String c pre), s1, s2. split_and!; [done|done|].
      intros [|c' pre'] rest Heq Hlen.
      * simpl in Heq. subst rest. by apply rmatch_top_None.
      * simpl in Heq, Hlen. injection Heq as -> Heq.
        apply (Hfirst pre' rest Heq). lia.
Qed.

Lemma exec_None r s :
  exec r s = None <-> forall pre rest, s = pre +:+ rest -> ~ matched_at r rest.
Proof.
  induction s as [|c s IH]; simpl.
  - destruct (rmatch r "" no_captures _) as [y|] eqn:E.
    + split; [discriminate|]. intros H. exfalso.
      apply rmatch_sound in E as (s1 & s2 & m' & E & Hm & _).
      apply (H "" ""); [done|]. by exists s1, s2, m'.
    + split; [|done]. intros _ pre rest Heq.
      symmetry in Heq. apply string_app_eq_nil in Heq as [-> ->].
      by apply rmatch_top_None.
  - destruct (rmatch r (String c s) no_captures _) as [y|] eqn:E.
    + split; [discriminate|]. intros H. exfalso.
      apply rmatch_sound in E as (s1 & s2 & m' & E & Hm & _).
      apply (H "" (String c s)); [done|]. by exists s1, s2, m'.
    + rewrite IH. split.
      * intros H [|c' pre] rest Heq; simpl in Heq.
        -- subst rest. by apply rmatch_top_None.
        -- injection Heq as -> Heq. by apply (H pre).
      * intros H pre rest ->. by apply (H (String c pre)).
Qed.

End RegexFacts.

Module ParserFacts.
Import Regex RegexFacts Grammar.

Lemma word_chars_no_dot (s : string) :
  forallb is_word (list_ascii_of_string s) = true -> includes "." s = false.
Proof.
  induction s as [|c s IH]; [done|].
  intros H. cbn [list_ascii_of_string forallb] in H.
  apply andb_prop in H as [Hc Hs].
  cbn [includes starts_with]. rewrite (IH Hs), orb_false_r.
  destruct (Ascii.eqb_spec "." c) as [<-|]; [|done].
  vm_compute in Hc. discriminate.
Qed.

Lemma parseModuleCommand_exec text :
  parseModuleCommand text = directive_of <$> exec directive_regex text.
Proof.
  unfold parseModuleCommand.
  destruct (exec directive_regex text) as [m|]; [|reflexivity].
  unfold directive_of. simpl. by destruct (includes _ _).
Qed.

(** From a match of the pattern to a sentence of the grammar. *)
Ltac invc H := inversion H; subst; clear H.

Ltac invert_matches :=
  repeat match goal with
         | H : matches (Cat _ _) _ _ _ |- _ => invc H
         | H : matches (Lit _) _ _ _ |- _ => invc H
         | H : matches Eps _ _ _ |- _ => invc H
         | H : matches (Group _ _) _ _ _ |- _ => invc H
         | H : matches (Plus _) _ _ _ |- _ => invc H
         end.

Lemma matches_optional_slash s m m' :
  matches (Opt (Lit "/")) s m m' -> optional_slash s /\ m' = m.
Proof.
  intros H. invc H; [|by split; [left|]].
  invert_matches. by split; [right|].
Qed.

Lemma matches_directive_grammar s m :
  matches directive_regex s no_captures m ->
  directive_grammar s (directive_of m).
Proof.
  unfold directive_regex. simpl. intros H. invert_matches.
  match goal with
  | H : matches (Opt (Lit _)) _ _ _ |- _ =>
      apply matches_optional_slash in H as [Hslash ->]
  end.
  match goal with
  | H : matches (Opt (Cat _ _)) _ _ _ |- _ => invc H
  end.
  - invert_matches.
    unfold directive_of, set_capture. simpl.
    rewrite word_chars_no_dot by done.
    match goal with
    | |- context [str_or ?p ""] =>
        replace (str_or p "") with p by (by destruct p)
    end.
    lazymatch goal with
    | |- directive_grammar
           (?a +:+ String _ (String _ (String _ (?b +:+ String _ (String _
              (String _ (String _ (String _ (String _
                 (?c +:+ ?d +:+ ?e +:+ ?f +:+ ?g +:+ ?h)))))))))) _ =>
        apply (DG_parameters a b c d e f g h); try done; by split
    end.
  - unfold directive_of, set_capture, no_captures. simpl.
    rewrite word_chars_no_dot by done.
    rewrite string_app_nil_r.
    lazymatch goal with
    | |- directive_grammar
           (?a +:+ String _ (String _ (String _ (?b +:+ String _ (String _
              (String _ (String _ (String _ (String _
                 (?c +:+ ?d +:+ ?e +:+ ?f)))))))))) _ =>
        apply (DG_bare a b c d e f); try done; by split
    end.
Qed.

Lemma matches_cat_opt_none r1 r2 s m m' :
  matches r1 s m m' -> matches (Cat r1 (Opt r2)) s m m'.
Proof.
  intros H. pose proof (M_Cat _ _ _ _ _ _ _ H (M_OptNone r2 m')) as H'.
  by rewrite string_app_nil_r in H'.
Qed.

(** From a sentence of the grammar to a match of the pattern. *)
Lemma directive_grammar_matches s d :
  directive_grammar s d -> exists m, matches directive_regex s no_captures m.
Proof.
  assert (Hopt : forall sl m, optional_slash sl -> matches (Opt (Lit "/")) sl m m).
  { intros sl m [-> | ->]; [apply M_OptNone | apply M_OptSome, M_Lit]. }
  assert (Hword : forall w m, matches (word w) w m m).
  { induction w as [|c w IH]; intros m; simpl; [constructor|].
    apply (M_Cat _ _ (String c "") w m m m); [constructor | apply IH]. }
  intros [sl ws1 ws2 m ws3 c Hsl [] [] [] [] []
         |sl ws1 ws2 m ws3 c ws4 p Hsl [] [] [] [] [] [] []];
    unfold directive_regex.
  - exists (set_capture 2 c (set_capture 1 m no_captures)).
    do 7 (eapply M_Cat; [solve [eauto using matches]|]).
    apply matches_cat_opt_none. eauto using matches.
  - exists (set_capture 3 p (set_capture 2 c (set_capture 1 m no_captures))).
    repeat (eapply M_Cat; [solve [eauto using matches]|]).
    apply M_OptSome. eapply M_Cat; eauto using matches.
Qed.

Lemma matched_at_occurs rest :
  matched_at directive_regex rest <->
  exists mt rest' d, rest = mt +:+ rest' /\ directive_grammar mt d.
Proof.
  split.
  - intros (s1 & s2 & m & -> & Hm). 
    exists s1, s2, (directive_of m). split; [done|].
    by apply matches_directive_grammar.
  - intros (mt & rest' & d & -> & Hd).
    destruct (directive_grammar_matches _ _ Hd) as [m Hm].
    by exists mt, rest', m.
Qed.

End ParserFacts.

(* ================================================================== *)
(** * Reasoning about handler code *)
(* ================================================================== *)

Lemma run_bind {A B : Type} (w : World) (p : io A) (f : A -> io B) tr :
  run w tr (io_bind p f) = run w (run w tr p).2 (f (run w tr p).1).
Proof.
  revert tr. induction p as [a|q k IH]; intros tr; simpl; [done|].
  by rewrite IH.
Qed.

(** The events of a run extend the log it started from. *)
Lemma run_extends {A : Type} (w : World) (p : io A) tr :
  exists ext, (run w tr p).2 = tr ++ ext.
Proof.
  revert tr. induction p as [a|q k IH]; intros tr; simpl.
  - exists []. by rewrite app_nil_r.
  - destruct (IH (w tr q) (tr ++ [existT q (w tr q)])) as [ext ->].
    eexists. by rewrite <-app_assoc.
Qed.

Section WpRules.
Context {A B : Type} (w : World).
Implicit Types (st : State).

Lemma wp_mono (m : M A) st (Q Q' : Completion A -> State -> Prop) :
  wp w m st Q -> (forall r st', Q r st' -> Q' r st') -> wp w m st Q'.
Proof. intros H HQ tr. apply HQ, H. Qed.

Lemma wp_ret (a : A) st (Q : Completion A -> State -> Prop) :
  Q (Normal a) st -> wp w (ret a) st Q.
Proof. intros H tr. exact H. Qed.

Lemma wp_throw (e : string) st (Q : Completion A -> State -> Prop) :
  Q (Throw e) st -> wp w (throw e) st Q.
Proof. intros H tr. exact H. Qed.

Lemma wp_bind (m : M A) (f : A -> M B) st (Q : Completion B -> State -> Prop) :
  wp w m st (fun r st' =>
    match r with
    | Normal a => wp w (f a) st' Q
    | Throw e => Q (Throw e) st'
    end) ->
  wp w (bind m f) st Q.
Proof.
  intros H tr. unfold bind. rewrite run_bind.
  specialize (H tr). destruct (run w tr (m st)) as [[[a|e] st'] tr']; simpl in *.
  - apply H.
  - exact H.
Qed.

Lemma wp_try_catch (m : M A) (h : string -> M A) st
    (Q : Completion A -> State -> Prop) :
  wp w m st (fun r st' =>
    match r with
    | Normal a => Q (Normal a) st'
    | Throw e => wp w (h e) st' Q
    end) ->
  wp w (try_catch m h) st Q.
Proof.
  intros H tr. unfold try_catch. rewrite run_bind.
  specialize (H tr). destruct (run w tr (m st)) as [[[a|e] st'] tr']; simpl in *.
  - exact H.
  - apply H.
Qed.

Lemma wp_modify (f : State -> State) st (Q : Completion unit -> State -> Prop) :
  Q (Normal tt) (f st) -> wp w (modify f) st Q.
Proof. intros H tr. exact H. Qed.

Lemma wp_get_state st (Q : Completion State -> State -> Prop) :
  Q (Normal st) st -> wp w get_state st Q.
Proof. intros H tr. exact H. Qed.

End WpRules.

Lemma wp_ask (w : World) (q : Query) st
    (Q : Completion (Answer q) -> State -> Prop) :
  (forall a, answers w q a -> Q (Normal a) st) -> wp w (ask q) st Q.
Proof. intros H tr. simpl. apply H. by exists tr. Qed.

(** From [wp] to what [serve] leaves behind. *)
Lemma wp_serve lib env w req st (Q : Completion Response -> State -> Prop) :
  wp w (handler lib env req) st Q ->
  Q (completion (serve lib env w req st)) (state_after (serve lib env w req st)).
Proof.
  intros H. specialize (H []). unfold serve.
  by destruct (run w [] (handler lib env req st)) as [[r st'] tr].
Qed.


Lemma state_eta (st : State) :
  mkState (pendingModuleRequests st) (chatHistory st) = st.
Proof. by destruct st. Qed.

(** One step of a [wp] proof on the structure of the program. *)
Ltac wp_step :=
  lazymatch goal with
  | |- wp _ (bind _ _) _ _ => apply wp_bind
  | |- wp _ (try_catch _ _) _ _ => apply wp_try_catch
  | |- wp _ (ret _) _ _ => apply wp_ret
  | |- wp _ (throw _) _ _ => apply wp_throw
  | |- wp _ (modify _) _ _ => apply wp_modify
  | |- wp _ get_state _ _ => apply wp_get_state
  | |- wp _ (ask _) _ _ => apply wp_ask; intros ? ?
  end.

Section Components.
Context (lib : Library) (env : Env) (w : World).
Implicit Types (st : State).

(** [loadModule] and [runModule] leave the two maps alone. *)
Lemma wp_loadModule moduleName st :
  wp w (loadModule moduleName) st (fun r st' =>
    st' = st /\ exists m, r = Normal m).
Proof.
  unfold loadModule. wp_step. wp_step. destruct a as [m|].
  - wp_step. eauto.
  - wp_step. wp_step. destruct a as [m|]; wp_step; eauto.
Qed.

Lemma wp_runModule moduleName commandName parameters st :
  wp w (runModule moduleName commandName parameters) st (fun r st' => st' = st).
Proof.
  unfold runModule. wp_step.
  eapply wp_mono; [apply wp_loadModule|].
  intros r st' [-> [m ->]].
  destruct (command_shape m commandName); try (by wp_step).
  wp_step. wp_step. destruct a as [v|[msg| |]]; by wp_step.
Qed.

(** The three wrappers return a text when the module result they are
    given, if any, can be rendered; the routes give them none. *)
Lemma wp_getOpenAIResponse prompt sys out h st :
  JSON_failure lib out = None ->
  wp w (getOpenAIResponse lib env prompt sys out h) st (returns_text st).
Proof.
  intros Hout. unfold getOpenAIResponse, returns_text.
  destruct (_ || _); [wp_step; eauto|]. rewrite Hout.
  wp_step. wp_step. destruct a; wp_step; eauto.
Qed.

Lemma wp_getGeminiResponse prompt sys out h st :
  wp w (getGeminiResponse lib env prompt sys out h) st (returns_text st).
Proof.
  unfold getGeminiResponse, returns_text.
  destruct (_ || _); [wp_step; eauto|].
  destruct (JSON_failure lib out); [wp_step; eauto|].
  wp_step. wp_step. destruct a; wp_step; eauto.
Qed.

Lemma wp_getOllamaResponse prompt sys out h st :
  wp w (getOllamaResponse lib env prompt sys out h) st (returns_text st).
Proof.
  unfold getOllamaResponse, returns_text.
  destruct (JSON_failure lib out); [wp_step; eauto|].
  wp_step. wp_step. destruct a; wp_step; eauto.
Qed.

Lemma wp_getResponse prompt sys out h st :
  falsy prompt = false -> JSON_failure lib out = None ->
  wp w (getResponse lib env prompt sys out h) st (returns_text st).
Proof.
  intros Hp Hout. unfold getResponse. rewrite Hp.
  destruct (_ =? _)%string; [by apply wp_getOpenAIResponse|].
  destruct (_ =? _)%string; [apply wp_getGeminiResponse|].
  destruct (_ =? _)%string; [apply wp_getOllamaResponse|].
  wp_step. unfold returns_text. eauto.
Qed.

(** Whatever it is given, [getResponse] leaves the two maps alone. *)
Lemma wp_getResponse_state prompt sys out h st :
  wp w (getResponse lib env prompt sys out h) st (fun _ st' => st' = st).
Proof.
  unfold getResponse, getOpenAIResponse, getGeminiResponse, getOllamaResponse.
  repeat first
    [ wp_step
    | match goal with
      | |- wp _ (match ?x with _ => _ end) _ _ => destruct x
      | |- wp _ (if ?x then _ else _) _ _ => destruct x
      end ];
    done.
Qed.

(** Rendering a module result leaves the two maps alone. *)
Lemma wp_JSON_check out st (Q : Completion unit -> State -> Prop) :
  (JSON_throws lib out = None -> Q (Normal tt) st) ->
  (forall message, JSON_throws lib out = Some message ->
                   Q (Throw message) st) ->
  wp w (JSON_check lib out) st Q.
Proof.
  intros Hok Hthrow. unfold JSON_check.
  destruct (JSON_throws lib out) as [message|]; wp_step; auto.
Qed.

Lemma continuation_prompt_truthy original m c out :
  falsy (continuation_prompt lib original m c out) = false.
Proof. reflexivity. Qed.

Lemma wp_newRequestId st :
  wp w newRequestId st (fun r st' =>
    st' = st /\ exists id, r = Normal id /\ generates w id).
Proof.
  unfold newRequestId. wp_step. wp_step. wp_step. wp_step. wp_step.
  split; [done|]. eexists. split; [done|]. by exists a, a0.
Qed.

Lemma wp_suspend d prompt response outputs sid prev message st :
  wp w (suspend d prompt response outputs sid prev message) st (fun r st' =>
    exists id,
      generates w id /\
      r = Normal (RespApproval id (module d) (command d) prev message) /\
      st' = mkState
              (<[id := mkPendingRequest (module d) (command d) (parameters d)
                         prompt response outputs sid]>
                 (pendingModuleRequests st))
              (chatHistory st)).
Proof.
  unfold suspend. wp_step.
  eapply wp_mono; [apply wp_newRequestId|].
  intros r st' [-> (id & -> & Hid)].
  wp_step. unfold set_pending. wp_step. wp_step. by exists id.
Qed.

Lemma wp_history_or_empty sid st :
  wp w (history_or_empty sid) st (fun r st' =>
    st' = st /\ r = Normal (default [] (chatHistory st !! sid))).
Proof.
  unfold history_or_empty, history_of.
  wp_step. wp_step. wp_step. wp_step. wp_step. done.
Qed.

(** Pushing onto the log of an existing session appends one entry. *)
Lemma wp_push_history sid r text h st :
  chatHistory st !! sid = Some h ->
  wp w (push_history sid r text) st (fun res st' =>
    exists ts,
      res = Normal tt /\
      st' = mkState (pendingModuleRequests st)
              (<[sid := h ++ [mkChatMessage r text (Some ts)]]> (chatHistory st))).
Proof.
  intros Hh. unfold push_history, history_of.
  wp_step. wp_step. wp_step. wp_step. rewrite Hh. wp_step. wp_step.
  wp_step. exists a. split; [done|]. f_equal.
  apply map_eq. intros i. rewrite lookup_alter, lookup_insert.
  destruct (decide (sid = i)) as [<-|]; [by rewrite Hh | done].
Qed.

(** Pushing onto the log of a session that does not exist throws. *)
Lemma wp_push_history_missing sid r text st :
  chatHistory st !! sid = None ->
  wp w (push_history sid r text) st (fun res st' =>
    st' = st /\
    res = Throw "Cannot read properties of undefined (reading 'push')").
Proof.
  intros Hh. unfold push_history, history_of.
  wp_step. wp_step. wp_step. wp_step. rewrite Hh. by wp_step.
Qed.

End Components.

(* ================================================================== *)
(** * What [POST /message] does *)
(* ================================================================== *)

Section MessageRoute.
Context (lib : Library) (env : Env) (w : World).
Implicit Types (st : State).

Ltac wp_runModule :=
  eapply wp_mono; [apply wp_runModule|]; intros ? ? ->.
Ltac wp_getResponse :=
  eapply wp_mono; [apply wp_getResponse; done|]; intros ? ? [-> [? ->]].
Ltac wp_history :=
  eapply wp_mono; [apply wp_history_or_empty|]; intros ? ? [-> ->].
Ltac wp_suspend :=
  eapply wp_mono; [apply wp_suspend|]; intros ? ? (? & ? & -> & ->).
Ltac wp_push H :=
  eapply wp_mono; [eapply wp_push_history, H|]; intros ? ? (? & -> & ->).

Lemma wp_final_response sid h text mo st :
  chatHistory st !! sid = Some h ->
  wp w (push_history sid assistant text ;;;
        let* sessionHistory := history_or_empty sid in
        ret (RespFinal (markdown_toHTML lib text) mo (Some sessionHistory)))
     st (llm_post lib w sid h st).
Proof.
  intros Hh. wp_step. wp_push Hh. wp_step. wp_history. wp_step.
  eexists. split; [done|]. simpl. rewrite lookup_insert_eq. simpl. eauto.
Qed.

Lemma wp_message_llm userprompt sid h st :
  chatHistory st !! sid = Some h -> falsy userprompt = false ->
  wp w (message_llm lib env userprompt sid) st (llm_post lib w sid h st).
Proof.
  intros Hh Hp. unfold message_llm.
  wp_step. wp_history. wp_step. wp_getResponse.
  destruct (parseModuleCommand _) as [d|]; [|by apply wp_final_response].
  destruct (_ =? _)%string.
  - wp_step. wp_step. wp_runModule. destruct r as [out|e].
    + wp_step. apply wp_JSON_check; [intros _|intros ? _; wp_step; by eexists].
      wp_step. wp_history. wp_step. wp_getResponse.
      destruct (parseModuleCommand _) as [d'|].
      * wp_suspend. eexists. split; [done|]. simpl. eauto.
      * eapply wp_mono; [by apply wp_final_response|].
        intros r st' (resp & -> & H). by exists resp.
    + wp_step. by eexists.
  - wp_suspend. eexists. split; [done|]. simpl. eauto.
Qed.

(** After [init_history] the session has a log. *)
Lemma init_history_lookup sid st :
  chatHistory
    match chatHistory st !! sid with
    | Some _ => st
    | None =>
        mkState (pendingModuleRequests st) (<[sid := []]> (chatHistory st))
    end !! sid
  = Some (default [] (chatHistory st !! sid)).
Proof.
  destruct (chatHistory st !! sid) as [h|] eqn:E; simpl; [done|].
  apply lookup_insert_eq.
Qed.

Lemma wp_post_message body st :
  wp w (post_message lib env body) st (message_post lib w body st).
Proof.
  unfold post_message, message_post.
  set (sid := default "default" (sessionId body)).
  set (old := default [] (chatHistory st !! sid)).
  destruct (falsy (userprompt body)) eqn:Hp; simpl.
  { wp_step. eexists. split; [done|]. done. }
  destruct (falsy (typoftask body)) eqn:Ht; simpl.
  { wp_step. eexists. split; [done|]. done. }
  wp_step. unfold init_history. wp_step.
  set (st0 := match chatHistory st !! sid with Some _ => st | None => _ end).
  assert (H0 : chatHistory st0 !! sid = Some old
               /\ (forall sid', sid' <> sid ->
                     chatHistory st0 !! sid' = chatHistory st !! sid')
               /\ pendingModuleRequests st0 = pendingModuleRequests st).
  { unfold st0, old. destruct (chatHistory st !! sid) as [h|] eqn:E; simpl.
    - done.
    - rewrite lookup_insert_eq. split_and!; [done| |done].
      intros sid' Hne. by rewrite lookup_insert_ne. }
  destruct H0 as (Hold & Hother & Hpend). clearbody st0.
  destruct (parseModuleCommand (userprompt body)) as [d|] eqn:Hparse.
  - (* a direct command *)
    wp_step. wp_step. wp_runModule. destruct r as [out|e].
    + wp_step. wp_push Hold. wp_step.
      apply wp_JSON_check; [intros _|].
      2:{ intros ? _. wp_step. eexists. split; [done|]. simpl. split; [|done].
          intros sid' Hne. rewrite lookup_insert_ne by done. by apply Hother. }
      wp_step.
      eapply wp_mono; [eapply wp_push_history|].
      { simpl. apply lookup_insert_eq. }
      intros ? ? (ts2 & -> & ->). wp_step. wp_history. wp_step.
      eexists. split; [done|]. simpl. split.
      { intros sid' Hne. rewrite !lookup_insert_ne by done. by apply Hother. }
      rewrite !lookup_insert_eq. simpl. split_and!; [done|done|].
      eexists d, _, _. split; [done|]. by rewrite <-app_assoc.
    + wp_step. eexists. split; [done|]. by split.
  - (* through the model *)
    wp_step. wp_push Hold. wp_step.
    destruct (_ =? _)%string.
    + eapply wp_mono; [eapply wp_message_llm; [|done]|].
      { simpl. apply lookup_insert_eq. }
      intros r st' (resp & -> & H). eexists. split; [done|].
      destruct resp as [msg|msg out h|msg mo oh|id m c prev msg|msg]; simpl in *.
      * subst st'. simpl. split; [|done].
        intros sid' Hne. rewrite lookup_insert_ne by done. by apply Hother.
      * done.
      * destruct H as (text & ts & -> & -> & ->). simpl. split.
        { intros sid' Hne. rewrite !lookup_insert_ne by done. by apply Hother. }
        split; [done|]. eexists text, _, ts. split; [done|].
        rewrite lookup_insert_eq. by rewrite <-app_assoc.
      * destruct H as (Hid & p & ->). simpl. split.
        { intros sid' Hne. rewrite lookup_insert_ne by done. by apply Hother. }
        split; [done|]. split; [exists p; by rewrite Hpend|].
        rewrite lookup_insert_eq. eauto.
      * done.
    + wp_step. eexists. split; [done|]. simpl. split; [|done].
      intros sid' Hne. rewrite lookup_insert_ne by done. by apply Hother.
Qed.

End MessageRoute.

(* ================================================================== *)
(** * What [POST /approve-module] does *)
(* ================================================================== *)

Section ApproveRoute.
Context (lib : Library) (env : Env) (w : World).
Implicit Types (st : State).

Ltac wp_runModule :=
  eapply wp_mono; [apply wp_runModule|]; intros ? ? ->.
Ltac wp_getResponse :=
  eapply wp_mono; [apply wp_getResponse; done|]; intros ? ? [-> [? ->]].
Ltac wp_history :=
  eapply wp_mono; [apply wp_history_or_empty|]; intros ? ? [-> ->].
Ltac wp_suspend :=
  eapply wp_mono; [apply wp_suspend|]; intros ? ? (? & ? & -> & ->).

Lemma falsy_false (s : string) : s <> "" -> falsy s = false.
Proof. by destruct s. Qed.

Lemma falsy_true (s : string) : falsy s = true -> s = "".
Proof. by destruct s. Qed.

(** A missing request id is answered before the table is looked at. *)
Lemma serve_approve_missing approved st :
  serve lib env w (PostApproveModule (mkApproveBody "" approved)) st
  = mkServed (Normal (RespFailure "Missing request ID")) st [].
Proof. reflexivity. Qed.

(** An id that is not in the table: an error, and nothing changes. *)
Lemma serve_approve_unknown rid approved st :
  rid <> "" -> pendingModuleRequests st !! rid = None ->
  serve lib env w (PostApproveModule (mkApproveBody rid approved)) st
  = mkServed (Normal (RespFailure "Request not found or expired")) st [].
Proof.
  intros Hrid Hnone. unfold serve, handler, post_approve_module. simpl.
  rewrite (falsy_false _ Hrid).
  unfold bind, get_state. simpl. by rewrite Hnone.
Qed.

(** A denial removes the request and does nothing else. *)
Lemma serve_approve_denied rid p st :
  rid <> "" -> pendingModuleRequests st !! rid = Some p ->
  serve lib env w (PostApproveModule (mkApproveBody rid false)) st
  = mkServed (Normal (RespDenied "Module execution denied by user."))
      (mkState (delete rid (pendingModuleRequests st)) (chatHistory st)) [].
Proof.
  intros Hrid Hsome. unfold serve, handler, post_approve_module. simpl.
  rewrite (falsy_false _ Hrid).
  unfold bind, get_state. simpl. by rewrite Hsome.
Qed.

Lemma wp_approved_run p st :
  wp w (try_catch (approved_run lib env p)
          (fun error =>
             ret (RespFailure ("Module execution failed: " +:+ error))))
     st (approved_post lib w p st).
Proof.
  unfold approved_run, approved_post.
  set (sid := str_or (originalSessionId p) "default").
  wp_step. wp_step. wp_runModule. destruct r as [out|e];
    [|wp_step; by eexists].
  wp_step. apply wp_JSON_check; [intros _|intros ? _; wp_step; by eexists].
  wp_step. wp_history. wp_step. wp_getResponse.
  destruct (parseModuleCommand _) as [d|].
  - destruct (_ =? _)%string.
    + wp_step. wp_step. wp_runModule. destruct r as [out'|e].
      * wp_step.
        apply wp_JSON_check; [intros _|intros ? _; wp_step; by eexists].
        wp_step. wp_history. wp_step. wp_getResponse.
        destruct (parseModuleCommand _) as [d'|].
        -- wp_suspend. eexists. split; [done|]. simpl. eauto.
        -- wp_step. eexists. split; [done|]. done.
      * wp_step. by eexists.
    + wp_suspend. eexists. split; [done|]. simpl. eauto.
  - wp_step. destruct (chatHistory st !! sid) as [old|] eqn:Hold.
    + eapply wp_mono; [eapply wp_push_history, Hold|].
      intros ? ? (ts & -> & ->). wp_step. wp_history. wp_step.
      eexists. split; [done|]. simpl. rewrite lookup_insert_eq. simpl.
      eexists old, _, ts. done.
    + eapply wp_mono; [by eapply wp_push_history_missing|].
      intros ? ? [-> ->]. wp_step. by eexists.
Qed.

(** The whole route as a [wp], for an id that is in the table. *)
Lemma wp_post_approve_known rid p st :
  rid <> "" -> pendingModuleRequests st !! rid = Some p ->
  wp w (post_approve_module lib env (mkApproveBody rid true)) st
    (approved_post lib w p
       (mkState (delete rid (pendingModuleRequests st)) (chatHistory st))).
Proof.
  intros Hrid Hsome. unfold post_approve_module. simpl.
  rewrite (falsy_false _ Hrid). wp_step. wp_step. rewrite Hsome.
  wp_step. unfold delete_pending. wp_step. simpl. apply wp_approved_run.
Qed.

End ApproveRoute.

(* ================================================================== *)
(** * The pending table across requests *)
(* ================================================================== *)

Section PendingTable.
Context (lib : Library) (env : Env).

(** A request served in a world that cannot generate [rid] does not put
    [rid] into the pending table. *)
Lemma serve_keeps_absent w req st rid :
  ~ generates w rid ->
  pendingModuleRequests st !! rid = None ->
  pendingModuleRequests (state_after (serve lib env w req st)) !! rid = None.
Proof.
  intros Hfresh Hnone. destruct req as [body|[rid' approved]|sid].
  - pose proof (wp_serve lib env w (PostMessage body) st _
                  (wp_post_message lib env w body st)) as (resp & _ & _ & H).
    destruct resp as [msg|msg out h|msg mo oh|id m c prev msg|msg].
    + by rewrite H.
    + destruct H as [H _]. by rewrite H.
    + destruct H as [H _]. by rewrite H.
    + destruct H as (Hid & [p H] & _). rewrite H.
      rewrite lookup_insert_ne; [done|]. by intros ->.
    + done.
  - destruct (decide (rid' = "")) as [->|Hne].
    { by rewrite serve_approve_missing. }
    destruct (pendingModuleRequests st !! rid') as [p|] eqn:Hp;
      [|by rewrite serve_approve_unknown].
    assert (Hdel : delete rid' (pendingModuleRequests st) !! rid = None).
    { rewrite lookup_delete. by case_decide. }
    destruct approved; [|by rewrite (serve_approve_denied _ _ _ _ p)].
    pose proof (wp_serve lib env w
                  (PostApproveModule (mkApproveBody rid' true)) st _
                  (wp_post_approve_known lib env w rid' p st Hne Hp))
      as (resp & _ & H).
    destruct resp as [msg|msg out h|msg mo [h|]|id m c prev msg|msg];
      try done; try (by rewrite H).
    + destruct H as (old & text & ts & _ & _ & _ & ->). done.
    + destruct H as (Hid & p' & ->). simpl.
      rewrite lookup_insert_ne; [done|]. by intros ->.
  - done.
Qed.

Lemma serve_all_keeps_absent reqs st rid :
  Forall (fun wr => ~ generates wr.1 rid) reqs ->
  pendingModuleRequests st !! rid = None ->
  pendingModuleRequests (serve_all lib env reqs st) !! rid = None.
Proof.
  intros Hfresh. revert st.
  induction Hfresh as [|[w req] reqs Hw _ IH]; intros st Hnone; simpl; [done|].
  apply IH. by apply serve_keeps_absent.
Qed.

(** The first call for a pending id takes it out of the table, whatever
    the decision and whatever the approved module and the provider do. *)
Lemma serve_approve_removes w rid approved p st :
  rid <> "" -> pendingModuleRequests st !! rid = Some p ->
  ~ generates w rid ->
  pendingModuleRequests
    (state_after
       (serve lib env w (PostApproveModule (mkApproveBody rid approved)) st))
    !! rid = None.
Proof.
  intros Hne Hp Hfresh.
  destruct approved;
    [|rewrite (serve_approve_denied _ _ _ _ p) by done; apply lookup_delete_eq].
  pose proof (wp_serve lib env w
                (PostApproveModule (mkApproveBody rid true)) st _
                (wp_post_approve_known lib env w rid p st Hne Hp))
    as (resp & _ & H).
  destruct resp as [msg|msg out h|msg mo [h|]|id m c prev msg|msg];
    try done; try (rewrite H; apply lookup_delete_eq).
  - destruct H as (old & text & ts & _ & _ & _ & ->). apply lookup_delete_eq.
  - destruct H as (Hid & p' & ->). simpl.
    rewrite lookup_insert_ne; [apply lookup_delete_eq|]. by intros ->.
Qed.

End PendingTable.

(** Request ids are never empty: the decimal rendering of [Date.now()]
    has at least one digit. *)
Lemma pretty_N_nonempty (n : N) : pretty n <> "".
Proof.
  unfold pretty, pretty_N.
  destruct (decide (n = 0%N)) as [->|Hn]; [done|].
  assert (H : forall x s, s <> "" -> pretty_N_go x s <> "").
  { intros x. induction (N.lt_wf_0 x) as [x _ IH]. intros s Hs.
    destruct (decide (x = 0%N)) as [->|Hx]; [by rewrite pretty_N_go_0|].
    rewrite pretty_N_go_step by lia. apply IH; [|done].
    apply N.div_lt; lia. }
  rewrite pretty_N_go_step by lia. by apply H.
Qed.

Lemma generates_nonempty (w : World) (id : string) : generates w id -> id <> "".
Proof.
  intros (now & rnd & _ & _ & ->) H.
  apply string_app_eq_nil in H as [H _]. by apply (pretty_N_nonempty now).
Qed.

(* ================================================================== *)
(** * Reasoning about the events of handler code *)
(* ================================================================== *)

Section EmitsRules.
Context {A B : Type} (w : World).

Lemma emits_mono (m : M A) (E E' : Event -> Prop) :
  emits w m E -> (forall e, E e -> E' e) -> emits w m E'.
Proof.
  intros H HE st tr. destruct (H st tr) as (ext & Heq & Hall).
  exists ext. split; [done|]. eapply Forall_impl; eauto.
Qed.

Lemma emits_ret (a : A) E : emits w (ret a) E.
Proof. intros st tr. exists []. by rewrite app_nil_r. Qed.

Lemma emits_throw (e : string) E : emits w (throw (A := A) e) E.
Proof. intros st tr. exists []. by rewrite app_nil_r. Qed.

Lemma emits_bind (m : M A) (f : A -> M B) E :
  emits w m E -> (forall a, emits w (f a) E) -> emits w (bind m f) E.
Proof.
  intros Hm Hf st tr. unfold bind. rewrite run_bind.
  destruct (Hm st tr) as (ext & Heq & Hall).
  destruct (run w tr (m st)) as [[[a|e] st'] tr']; simpl in *; subst tr'.
  - destruct (Hf a st' (tr ++ ext)) as (ext' & -> & Hall').
    exists (ext ++ ext'). rewrite app_assoc. split; [done|].
    by apply Forall_app.
  - by exists ext.
Qed.

Lemma emits_try_catch (m : M A) (h : string -> M A) E :
  emits w m E -> (forall e, emits w (h e) E) -> emits w (try_catch m h) E.
Proof.
  intros Hm Hh st tr. unfold try_catch. rewrite run_bind.
  destruct (Hm st tr) as (ext & Heq & Hall).
  destruct (run w tr (m st)) as [[[a|e] st'] tr']; simpl in *; subst tr'.
  - by exists ext.
  - destruct (Hh e st' (tr ++ ext)) as (ext' & -> & Hall').
    exists (ext ++ ext'). rewrite app_assoc. split; [done|].
    by apply Forall_app.
Qed.

End EmitsRules.

Lemma emits_modify (w : World) (f : State -> State) E : emits w (modify f) E.
Proof. intros st tr. exists []. by rewrite app_nil_r. Qed.

Lemma emits_get_state (w : World) E : emits w get_state E.
Proof. intros st tr. exists []. by rewrite app_nil_r. Qed.

Lemma emits_ask (w : World) (q : Query) (E : Event -> Prop) :
  (forall a, E (existT q a)) -> emits w (ask q) E.
Proof.
  intros H st tr. exists [existT q (w tr q)]. split; [done|].
  constructor; [apply H | constructor].
Qed.

(** One step of an [emits] proof on the structure of the program. *)
Ltac emits_step :=
  lazymatch goal with
  | |- emits _ (bind _ _) _ => apply emits_bind; [|intros ?]
  | |- emits _ (try_catch _ _) _ => apply emits_try_catch; [|intros ?]
  | |- emits _ (ret _) _ => apply emits_ret
  | |- emits _ (throw _) _ => apply emits_throw
  | |- emits _ (modify _) _ => apply emits_modify
  | |- emits _ get_state _ => apply emits_get_state
  | |- emits _ (ask _) _ => apply emits_ask; intros ?
  | |- emits _ (match ?x with _ => _ end) _ => destruct x
  | |- emits _ (if ?x then _ else _) _ => destruct x
  end.

Ltac emits_auto := repeat (emits_step; simpl; try done).

Section EmitsComponents.
Context (lib : Library) (env : Env) (w : World).

Lemma emits_loadModule moduleName :
  emits w (loadModule moduleName)
    (fun e => match projT1 e with
              | QImport m ext => m = moduleName /\ (ext = ".js" \/ ext = ".mjs")
              | _ => False
              end).
Proof. unfold loadModule. emits_auto; auto. Qed.

Lemma emits_runModule moduleName commandName parameters :
  emits w (runModule moduleName commandName parameters)
    (directive_event moduleName commandName parameters).
Proof.
  unfold runModule. emits_step.
  - eapply emits_mono; [apply emits_loadModule|].
    intros [q a]; unfold directive_event; simpl. by destruct q.
  - destruct (command_shape _ _); [emits_auto..|].
    emits_step; [by emits_step|]. emits_auto.
Qed.

Lemma emits_getResponse prompt sys out h :
  emits w (getResponse lib env prompt sys out h) provider_event.
Proof.
  unfold getResponse, getOpenAIResponse, getGeminiResponse, getOllamaResponse.
  emits_auto.
Qed.

Lemma emits_JSON_check out E : emits w (JSON_check lib out) E.
Proof. unfold JSON_check. emits_auto. Qed.

Lemma emits_newRequestId : emits w newRequestId clock_event.
Proof. unfold newRequestId. emits_auto. Qed.

Lemma emits_suspend d prompt response outputs sid prev message :
  emits w (suspend d prompt response outputs sid prev message) clock_event.
Proof.
  unfold suspend. emits_step; [apply emits_newRequestId|].
  unfold set_pending. emits_auto.
Qed.

Lemma emits_history_or_empty sid E : emits w (history_or_empty sid) E.
Proof. unfold history_or_empty, history_of. emits_auto. Qed.

Lemma emits_push_history sid r text :
  emits w (push_history sid r text) clock_event.
Proof. unfold push_history, history_of. emits_auto. Qed.

End EmitsComponents.

(* ================================================================== *)
(** * The events of the routes *)
(* ================================================================== *)

Section RouteEvents.
Context (lib : Library) (env : Env) (w : World).

Lemma directive_event_list c p e :
  directive_event "list" c p e -> listing_event e.
Proof.
  destruct e as [q a]. unfold directive_event, listing_event. simpl.
  destruct q; try done; by intros [-> _].
Qed.

Lemma emits_final_response sid text resp :
  emits w (push_history sid assistant text ;;;
           let* sessionHistory := history_or_empty sid in
           ret (resp sessionHistory : Response))
    unapproved_event.
Proof.
  emits_step.
  - eapply emits_mono; [apply emits_push_history|]. unfold unapproved_event. auto.
  - emits_step; [apply emits_history_or_empty|]. emits_step.
Qed.

Lemma emits_suspend_unapproved d prompt response outputs sid prev message :
  emits w (suspend d prompt response outputs sid prev message) unapproved_event.
Proof.
  eapply emits_mono; [apply emits_suspend|]. unfold unapproved_event. auto.
Qed.

Lemma emits_getResponse_unapproved prompt sys out h :
  emits w (getResponse lib env prompt sys out h) unapproved_event.
Proof.
  eapply emits_mono; [apply emits_getResponse|]. unfold unapproved_event. auto.
Qed.

(** The [llm] arm loads and calls the listing module at most. *)
Lemma emits_message_llm userprompt sid :
  emits w (message_llm lib env userprompt sid) unapproved_event.
Proof.
  unfold message_llm.
  emits_step; [apply emits_history_or_empty|].
  emits_step; [apply emits_getResponse_unapproved|].
  destruct (parseModuleCommand _) as [d|];
    [|apply (emits_final_response sid _ (fun h => RespFinal _ None (Some h)))].
  destruct (String.eqb_spec (module d) "list") as [Hlist|];
    [|apply emits_suspend_unapproved].
  emits_step; [|emits_step].
  emits_step.
  { eapply emits_mono; [apply emits_runModule|].
    intros e He. right. right. rewrite Hlist in He.
    by eapply directive_event_list. }
  emits_step; [apply emits_JSON_check|].
  emits_step; [apply emits_history_or_empty|].
  emits_step; [apply emits_getResponse_unapproved|].
  destruct (parseModuleCommand _) as [d'|]; [apply emits_suspend_unapproved|].
  apply (emits_final_response sid _ (fun h => RespFinal _ (Some _) (Some h))).
Qed.

(** The approved run loads and calls the approved directive and the
    listing module at most. *)
Lemma emits_approved_run p :
  emits w (try_catch (approved_run lib env p)
             (fun error =>
                ret (RespFailure ("Module execution failed: " +:+ error))))
    (approved_event p).
Proof.
  assert (Hleft : forall A (m : M A),
            emits w m unapproved_event -> emits w m (approved_event p)).
  { intros A m H. eapply emits_mono; [exact H|]. by left. }
  unfold approved_run. emits_step; [|emits_step].
  emits_step.
  { eapply emits_mono; [apply emits_runModule|]. by right. }
  emits_step; [apply emits_JSON_check|].
  emits_step; [apply emits_history_or_empty|].
  emits_step; [apply Hleft, emits_getResponse_unapproved|].
  destruct (parseModuleCommand _) as [d|];
    [|apply Hleft,
        (emits_final_response _ _ (fun h => RespFinal _ (Some _) (Some h)))].
  destruct (String.eqb_spec (module d) "list") as [Hlist|];
    [|apply Hleft, emits_suspend_unapproved].
  emits_step; [|emits_step].
  emits_step.
  { eapply emits_mono; [apply emits_runModule|].
    intros e He. left. right. right. rewrite Hlist in He.
    by eapply directive_event_list. }
  emits_step; [apply emits_JSON_check|].
  emits_step; [apply emits_history_or_empty|].
  emits_step; [apply Hleft, emits_getResponse_unapproved|].
  destruct (parseModuleCommand _) as [d'|];
    [apply Hleft, emits_suspend_unapproved|emits_step].
Qed.

End RouteEvents.

(* ================================================================== *)
(** * Relations the routes keep between the state before and after *)
(* ================================================================== *)

Section PreservesRules.
Context {A B : Type} (w : World) (R : State -> State -> Prop).
Context (R_refl : forall st, R st st).
Context (R_trans : forall st1 st2 st3, R st1 st2 -> R st2 st3 -> R st1 st3).

Lemma preserves_ret (a : A) : preserves w (ret a) R.
Proof using R_refl. intros st tr. apply R_refl. Qed.

Lemma preserves_throw (e : string) : preserves w (throw (A := A) e) R.
Proof using R_refl. intros st tr. apply R_refl. Qed.

Lemma preserves_bind (m : M A) (f : A -> M B) :
  preserves w m R -> (forall a, preserves w (f a) R) ->
  preserves w (bind m f) R.
Proof using R_trans.
  intros Hm Hf st tr. unfold bind. rewrite run_bind.
  specialize (Hm st tr).
  destruct (run w tr (m st)) as [[[a|e] st'] tr']; simpl in *; [|done].
  eapply R_trans; [exact Hm|]. apply Hf.
Qed.

Lemma preserves_try_catch (m : M A) (h : string -> M A) :
  preserves w m R -> (forall e, preserves w (h e) R) ->
  preserves w (try_catch m h) R.
Proof using R_trans.
  intros Hm Hh st tr. unfold try_catch. rewrite run_bind.
  specialize (Hm st tr).
  destruct (run w tr (m st)) as [[[a|e] st'] tr']; simpl in *; [done|].
  eapply R_trans; [exact Hm|]. apply Hh.
Qed.

End PreservesRules.

Lemma preserves_modify (w : World) (f : State -> State)
    (R : State -> State -> Prop) :
  (forall st, R st (f st)) -> preserves w (modify f) R.
Proof. intros H st tr. apply H. Qed.

Lemma preserves_get_state (w : World) (R : State -> State -> Prop) :
  (forall st, R st st) -> preserves w get_state R.
Proof. intros H st tr. apply H. Qed.

Lemma preserves_ask (w : World) (q : Query) (R : State -> State -> Prop) :
  (forall st, R st st) -> preserves w (ask q) R.
Proof. intros H st tr. apply H. Qed.

(** Code that leaves the state alone preserves every reflexive relation. *)
Lemma preserves_of_wp {A : Type} (w : World) (m : M A)
    (R : State -> State -> Prop) :
  (forall st, R st st) ->
  (forall st, wp w m st (fun _ st' => st' = st)) ->
  preserves w m R.
Proof. intros Hrefl H st tr. specialize (H st tr). simpl in H. rewrite H. apply Hrefl. Qed.

Lemma log_extends_refl st : log_extends st st.
Proof. intros sid old H. exists []. by rewrite app_nil_r. Qed.

Lemma log_extends_trans st1 st2 st3 :
  log_extends st1 st2 -> log_extends st2 st3 -> log_extends st1 st3.
Proof.
  intros H12 H23 sid old H.
  destruct (H12 sid old H) as [new1 H1].
  destruct (H23 sid _ H1) as [new2 H2].
  exists (new1 ++ new2). by rewrite app_assoc.
Qed.

Lemma pending_kept_refl st : pending_kept st st.
Proof. by intros id H. Qed.

Lemma pending_kept_trans st1 st2 st3 :
  pending_kept st1 st2 -> pending_kept st2 st3 -> pending_kept st1 st3.
Proof. intros H12 H23 id H. by apply H23, H12. Qed.

Section PreservesComponents.
Context (lib : Library) (env : Env) (w : World).
Context (R : State -> State -> Prop).
Context (R_refl : forall st, R st st).
Context (R_trans : forall st1 st2 st3, R st1 st2 -> R st2 st3 -> R st1 st3).

Lemma preserves_runModule m c p : preserves w (runModule m c p) R.
Proof using R_refl.
  apply preserves_of_wp; [done|]. intros st. apply wp_runModule.
Qed.

Lemma preserves_getResponse prompt sys out h :
  preserves w (getResponse lib env prompt sys out h) R.
Proof using R_refl.
  intros st tr.
  rewrite (wp_getResponse_state lib env w prompt sys out h st tr).
  apply R_refl.
Qed.

Lemma preserves_JSON_check out : preserves w (JSON_check lib out) R.
Proof using R_refl.
  unfold JSON_check.
  destruct (JSON_throws lib out); [by apply preserves_throw|by apply preserves_ret].
Qed.

Lemma preserves_history_or_empty sid : preserves w (history_or_empty sid) R.
Proof using R_refl.
  apply preserves_of_wp; [done|]. intros st.
  eapply wp_mono; [apply wp_history_or_empty|]. by intros ? ? [-> _].
Qed.

Lemma preserves_newRequestId : preserves w newRequestId R.
Proof using R_refl.
  apply preserves_of_wp; [done|]. intros st.
  eapply wp_mono; [apply wp_newRequestId|]. by intros ? ? [-> _].
Qed.

(** What is left to show for the code that writes. *)
Context (R_push : forall st sid msg,
  R st (mkState (pendingModuleRequests st)
          (alter (fun l => l ++ [msg]) sid (chatHistory st)))).
Context (R_set : forall st id p,
  R st (mkState (<[id := p]> (pendingModuleRequests st)) (chatHistory st))).

Lemma preserves_push_history sid r text :
  preserves w (push_history sid r text) R.
Proof using R_refl R_trans R_push.
  unfold push_history, history_of.
  apply preserves_bind; [done| |].
  { apply preserves_bind; [done|by apply preserves_get_state|].
    intros a. by apply preserves_ret. }
  intros [h|]; [|by apply preserves_throw].
  apply preserves_bind; [done|by apply preserves_ask|].
  intros ts. apply preserves_modify. intros st. apply R_push.
Qed.

Lemma preserves_suspend d prompt response outputs sid prev message :
  preserves w (suspend d prompt response outputs sid prev message) R.
Proof using R_refl R_trans R_set.
  unfold suspend. apply preserves_bind; [done|apply preserves_newRequestId|].
  intros id. apply preserves_bind; [done| |intros; by apply preserves_ret].
  unfold set_pending. apply preserves_modify. intros st. apply R_set.
Qed.

Lemma preserves_final_response sid text resp :
  preserves w (push_history sid assistant text ;;;
               let* sessionHistory := history_or_empty sid in
               ret (resp sessionHistory : Response)) R.
Proof using R_refl R_trans R_push.
  apply preserves_bind; [done|apply preserves_push_history|]. intros _.
  apply preserves_bind; [done|apply preserves_history_or_empty|]. intros h.
  by apply preserves_ret.
Qed.

Lemma preserves_message_llm userprompt sid :
  preserves w (message_llm lib env userprompt sid) R.
Proof using R_refl R_trans R_push R_set.
  unfold message_llm.
  apply preserves_bind; [done|apply preserves_history_or_empty|]. intros h.
  apply preserves_bind; [done|apply preserves_getResponse|]. intros aiResponse.
  destruct (parseModuleCommand _) as [d|];
    [|apply (preserves_final_response sid _
               (fun h => RespFinal _ None (Some h)))].
  destruct (_ =? _)%string; [|apply preserves_suspend].
  apply preserves_try_catch; [done| |intros; by apply preserves_ret].
  apply preserves_bind; [done|apply preserves_runModule|]. intros out.
  apply preserves_bind; [done|apply preserves_JSON_check|]. intros _.
  apply preserves_bind; [done|apply preserves_history_or_empty|]. intros h'.
  apply preserves_bind; [done|apply preserves_getResponse|]. intros final.
  destruct (parseModuleCommand _) as [d'|]; [apply preserves_suspend|].
  apply (preserves_final_response sid _
           (fun h => RespFinal _ (Some _) (Some h))).
Qed.

Lemma preserves_approved_run p :
  preserves w (try_catch (approved_run lib env p)
                 (fun error =>
                    ret (RespFailure ("Module execution failed: " +:+ error))))
    R.
Proof using R_refl R_trans R_push R_set.
  unfold approved_run.
  apply preserves_try_catch; [done| |intros; by apply preserves_ret].
  apply preserves_bind; [done|apply preserves_runModule|]. intros out.
  apply preserves_bind; [done|apply preserves_JSON_check|]. intros _.
  apply preserves_bind; [done|apply preserves_history_or_empty|]. intros h.
  apply preserves_bind; [done|apply preserves_getResponse|]. intros final.
  destruct (parseModuleCommand _) as [d|];
    [|apply (preserves_final_response _ _
               (fun h => RespFinal _ (Some _) (Some h)))].
  destruct (_ =? _)%string; [|apply preserves_suspend].
  apply preserves_try_catch; [done| |intros; by apply preserves_ret].
  apply preserves_bind; [done|apply preserves_runModule|]. intros out'.
  apply preserves_bind; [done|apply preserves_JSON_check|]. intros _.
  apply preserves_bind; [done|apply preserves_history_or_empty|]. intros h'.
  apply preserves_bind; [done|apply preserves_getResponse|]. intros final'.
  destruct (parseModuleCommand _) as [d'|]; [apply preserves_suspend|].
  by apply preserves_ret.
Qed.

Context (R_init : forall st sid,
  chatHistory st !! sid = None ->
  R st (mkState (pendingModuleRequests st) (<[sid := []]> (chatHistory st)))).

Lemma preserves_post_message body :
  preserves w (post_message lib env body) R.
Proof using R_refl R_trans R_push R_set R_init.
  unfold post_message.
  destruct (_ || _); [by apply preserves_ret|].
  apply preserves_bind; [done| |intros _].
  { unfold init_history. apply preserves_modify. intros st.
    destruct (chatHistory st !! _) eqn:E; [done|by apply R_init]. }
  destruct (parseModuleCommand _) as [d|].
  - apply preserves_try_catch; [done| |intros; by apply preserves_ret].
    apply preserves_bind; [done|apply preserves_runModule|]. intros out.
    apply preserves_bind; [done|apply preserves_push_history|]. intros _.
    apply preserves_bind; [done|apply preserves_JSON_check|]. intros _.
    apply (preserves_final_response _ _ (fun h => RespDirect _ out h)).
  - apply preserves_bind; [done|apply preserves_push_history|]. intros _.
    apply preserves_try_catch; [done| |intros; by apply preserves_ret].
    destruct (_ =? _)%string; [apply preserves_message_llm|].
    by apply preserves_ret.
Qed.

End PreservesComponents.

(* ================================================================== *)
(** * From handler code to served requests *)
(* ================================================================== *)

Lemma emits_serve lib env w req st (E : Event -> Prop) :
  emits w (handler lib env req) E ->
  Forall E (events (serve lib env w req st)).
Proof.
  intros H. destruct (H st []) as (ext & Heq & Hall). unfold serve.
  destruct (run w [] (handler lib env req st)) as [[r st'] tr].
  simpl in *. by subst tr.
Qed.

Lemma preserves_serve lib env w req st (R : State -> State -> Prop) :
  preserves w (handler lib env req) R ->
  R st (state_after (serve lib env w req st)).
Proof.
  intros H. specialize (H st []). unfold serve.
  by destruct (run w [] (handler lib env req st)) as [[r st'] tr].
Qed.

(** An approved, pending request: the route is the approved run from the
    state without the request. *)
Lemma serve_approve_approved lib env w rid p st :
  rid <> "" -> pendingModuleRequests st !! rid = Some p ->
  run w [] (post_approve_module lib env (mkApproveBody rid true) st)
  = run w []
      (try_catch (approved_run lib env p)
         (fun error =>
            ret (RespFailure ("Module execution failed: " +:+ error)))
         (mkState (delete rid (pendingModuleRequests st)) (chatHistory st))).
Proof.
  intros Hne Hp. unfold post_approve_module. simpl.
  rewrite (falsy_false _ Hne). unfold bind at 1. unfold get_state. simpl.
  rewrite Hp. reflexivity.
Qed.

Lemma log_extends_push st sid msg :
  log_extends st
    (mkState (pendingModuleRequests st)
       (alter (fun l => l ++ [msg]) sid (chatHistory st))).
Proof.
  intros sid' old H. simpl. rewrite lookup_alter.
  destruct (decide (sid = sid')) as [<-|].
  - rewrite H. simpl. by eexists.
  - exists []. by rewrite app_nil_r.
Qed.

Lemma log_extends_same_history st pend :
  log_extends st (mkState pend (chatHistory st)).
Proof. intros sid old H. exists []. by rewrite app_nil_r. Qed.

Lemma log_extends_init st sid :
  chatHistory st !! sid = None ->
  log_extends st
    (mkState (pendingModuleRequests st) (<[sid := []]> (chatHistory st))).
Proof.
  intros Hnone sid' old H. simpl. exists [].
  rewrite lookup_insert_ne; [by rewrite app_nil_r|]. by intros ->; congruence.
Qed.

(** The two routes that talk to the model only ever append to the logs. *)
Lemma log_extends_serve lib env w req st :
  clears req = false ->
  log_extends st (state_after (serve lib env w req st)).
Proof.
  intros Hreq. apply preserves_serve.
  destruct req as [body|[rid approved]|sid]; [| |done]; simpl.
  - apply preserves_post_message;
      [ apply log_extends_refl | apply log_extends_trans
      | apply log_extends_push | intros; apply log_extends_same_history
      | apply log_extends_init ].
  - unfold post_approve_module. simpl.
    destruct (falsy rid); [apply preserves_ret, log_extends_refl|].
    apply preserves_bind;
      [apply log_extends_trans
      |apply preserves_get_state, log_extends_refl|].
    intros st0. destruct (_ !! _) as [p|];
      [|apply preserves_ret, log_extends_refl].
    apply preserves_bind; [apply log_extends_trans| |intros _].
    { unfold delete_pending. apply preserves_modify.
      intros. apply log_extends_same_history. }
    destruct (negb approved); [apply preserves_ret, log_extends_refl|].
    apply preserves_approved_run;
      [ apply log_extends_refl | apply log_extends_trans
      | apply log_extends_push | intros; apply log_extends_same_history ].
Qed.

Lemma pending_kept_serve_message lib env w body st :
  pending_kept st (state_after (serve lib env w (PostMessage body) st)).
Proof.
  apply preserves_serve. simpl.
  apply preserves_post_message;
    [ apply pending_kept_refl | apply pending_kept_trans
    | by intros st0 sid msg id H | | by intros st0 sid Hnone id H ].
  intros st0 id p id' H. simpl.
  destruct (decide (id = id')) as [<-|];
    [by rewrite lookup_insert_eq | by rewrite lookup_insert_ne].
Qed.

(* ================================================================== *)
(** * What a suspension stores *)
(* ================================================================== *)

Section Announced.
Context (lib : Library) (env : Env) (w : World).

(** Every run ends. *)
Lemma wp_trivial {A : Type} (m : M A) st : wp w m st (fun _ _ => True).
Proof. by intros tr. Qed.

Lemma ensures_bind {A B : Type} (m : M A) (f : A -> M B) st
    (Q : Completion B -> State -> Prop) :
  (forall a st', wp w (f a) st' Q) -> (forall e st', Q (Throw e) st') ->
  wp w (bind m f) st Q.
Proof.
  intros Hf He. apply wp_bind. eapply wp_mono; [apply wp_trivial|].
  intros [a|e] st' _; [apply Hf | apply He].
Qed.

Lemma ensures_try_catch {A : Type} (m : M A) (h : string -> M A) st
    (Q : Completion A -> State -> Prop) :
  wp w m st Q -> (forall e st', wp w (h e) st' Q) ->
  wp w (try_catch m h) st Q.
Proof.
  intros Hm Hh. apply wp_try_catch. eapply wp_mono; [exact Hm|].
  intros [a|e] st' H; [exact H | apply Hh].
Qed.

Lemma announced_other prompt sid chain (resp : Response) st :
  match resp with RespApproval _ _ _ _ _ => False | _ => True end ->
  announced prompt sid chain (Normal resp) st.
Proof. intros H id m c prev msg [= ->]. done. Qed.

Lemma announced_throw prompt sid chain e st :
  announced prompt sid chain (Throw e) st.
Proof. by intros id m c prev msg. Qed.

Lemma wp_suspend_announced d prompt response outputs sid prev message
    (chain : list ChainEntry -> Prop) st :
  chain outputs ->
  wp w (suspend d prompt response outputs sid prev message) st
    (announced prompt sid chain).
Proof.
  intros Hchain. eapply wp_mono; [apply wp_suspend|].
  intros r st' (id & Hid & -> & ->) id' m c prev' msg [= <- <- <- <- <-].
  split; [by eapply generates_nonempty|].
  eexists. simpl. rewrite lookup_insert_eq. by split_and!.
Qed.

Ltac walk_step :=
  lazymatch goal with
  | |- wp _ (bind _ _) _ _ =>
      apply ensures_bind; [intros ? ?|intros; apply announced_throw]
  | |- wp _ (ret _) _ _ => apply wp_ret; by apply announced_other
  | |- wp _ (match ?x with _ => _ end) _ _ => destruct x eqn:?
  | |- wp _ (if ?x then _ else _) _ _ => destruct x eqn:?
  end.

Ltac walk := repeat walk_step.

Lemma wp_message_llm_announced userprompt sid st :
  wp w (message_llm lib env userprompt sid) st
    (announced userprompt sid (fun outputs => length outputs <= 1)).
Proof.
  unfold message_llm. walk.
  - apply ensures_try_catch; [|intros; apply wp_ret; by apply announced_other].
    walk. apply wp_suspend_announced. simpl. lia.
  - apply wp_suspend_announced. simpl. lia.
Qed.

Lemma wp_post_message_announced body st :
  wp w (post_message lib env body) st
    (announced (userprompt body) (default "default" (sessionId body))
       (fun outputs => length outputs <= 1)).
Proof.
  unfold post_message. walk.
  - apply ensures_try_catch; [|intros; apply wp_ret; by apply announced_other].
    walk.
  - apply ensures_try_catch; [|intros; apply wp_ret; by apply announced_other].
    walk. apply wp_message_llm_announced.
Qed.


End Announced.

(* ================================================================== *)
(** * The matcher on texts whose shape is known *)
(* ================================================================== *)

Module Greedy.
Import Regex RegexFacts.

Lemma exec_head r s m :
  rmatch r s no_captures (fun _ m => Some m) = Some m -> exec r s = Some m.
Proof. intros H. destruct s; simpl; by rewrite H. Qed.

Lemma run_plus_stops {R : Type} p s (k : string -> option R) :
  stops p s -> run_plus p s k = None.
Proof. destruct s as [|c s]; simpl; [done|]. by intros ->. Qed.

(** A quantifier takes the whole run when the rest of the pattern accepts
    what follows. *)
Lemma run_plus_span {R : Type} p v rest (k : string -> option R) :
  run_of p v -> stops p rest -> is_Some (k rest) ->
  run_plus p (v +:+ rest) k = k rest.
Proof.
  intros Hv Hstop [x Hk]. induction v as [|c v IH]; [by destruct Hv|].
  apply run_of_inv in Hv as [Hc Hv]. simpl. rewrite Hc.
  destruct Hv as [-> | Hv]; simpl.
  - by rewrite run_plus_stops.
  - by rewrite (IH Hv), Hk.
Qed.

Lemma rmatch_word {R : Type} w s m (k : string -> captures -> option R) :
  rmatch (word w) (w +:+ s) m k = k s m.
Proof.
  induction w as [|c w IH]; simpl; [done|]. by rewrite Ascii.eqb_refl.
Qed.

Lemma rmatch_plus_span {R : Type} p v rest m
    (k : string -> captures -> option R) :
  run_of p v -> stops p rest -> is_Some (k rest m) ->
  rmatch (Plus p) (v +:+ rest) m k = k rest m.
Proof. intros. simpl. by rewrite run_plus_span. Qed.

Lemma rmatch_star_stops {R : Type} p s m
    (k : string -> captures -> option R) :
  stops p s -> rmatch (Star p) s m k = k s m.
Proof. intros. simpl. by rewrite run_plus_stops. Qed.

Lemma rmatch_group_plus_span {R : Type} n p v rest m
    (k : string -> captures -> option R) :
  run_of p v -> stops p rest -> is_Some (k rest (set_capture n v m)) ->
  rmatch (Group n (Plus p)) (v +:+ rest) m k = k rest (set_capture n v m).
Proof.
  intros Hv Hstop Hk. simpl.
  rewrite run_plus_span; [by rewrite consumed_app|done|done|].
  by rewrite consumed_app.
Qed.

Lemma rmatch_opt_some {R : Type} r s m (k : string -> captures -> option R) x :
  rmatch r s m k = Some x -> rmatch (Opt r) s m k = Some x.
Proof. intros H. simpl. by rewrite H. Qed.

Lemma rmatch_opt_none {R : Type} r s m (k : string -> captures -> option R) :
  rmatch r s m k = None -> rmatch (Opt r) s m k = k s m.
Proof. intros H. simpl. by rewrite H. Qed.

(** The head of a run. *)
Lemma run_of_head p v :
  run_of p v -> exists c v', v = String c v' /\ p c = true.
Proof.
  destruct v as [|c v]; [by intros []|]. intros H.
  apply run_of_inv in H as [Hc _]. by exists c, v.
Qed.

Lemma stops_app p q v rest :
  run_of q v -> (forall c, q c = true -> p c = false) -> stops p (v +:+ rest).
Proof.
  intros Hv Hpq. apply run_of_head in Hv as (c & v' & -> & Hc). simpl. auto.
Qed.

(** The classes of the directive pattern against each other. *)
Lemma word_not_space c : is_word c = true -> is_space c = false.
Proof.
  destruct c as [[] [] [] [] [] [] [] []]; vm_compute; congruence.
Qed.

Lemma space_not_word c : is_space c = true -> is_word c = false.
Proof.
  destruct c as [[] [] [] [] [] [] [] []]; vm_compute; congruence.
Qed.

End Greedy.

Module DirectiveShape.
Import Regex RegexFacts Grammar Greedy.

Lemma run_plus_none {R : Type} p s (k : string -> option R) :
  (forall pre s', s = pre +:+ s' -> pre <> "" -> k s' = None) ->
  run_plus p s k = None.
Proof.
  induction s as [|c s IH]; intros H; simpl; [done|].
  destruct (p c); [|done].
  rewrite IH.
  - apply (H (String c "") s); done.
  - intros pre s' -> Hpre. apply (H (String c pre) s'); done.
Qed.

Lemma parameters_group_taken ws Z rest m :
  whitespace ws -> parameters_text Z -> stops is_space Z -> stops is_dot rest ->
  rmatch parameters_group (ws +:+ Z +:+ rest) m final
  = Some (set_capture 3 Z m).
Proof.
  intros Hws HZ HZs Hrest. apply rmatch_opt_some.
  change (rmatch (Plus is_space) (ws +:+ Z +:+ rest) m
            (fun s1 m1 => rmatch (Group 3 (Plus is_dot)) s1 m1 final)
          = Some (set_capture 3 Z m)).
  assert (Hgroup : rmatch (Group 3 (Plus is_dot)) (Z +:+ rest) m final
                   = Some (set_capture 3 Z m)).
  { rewrite rmatch_group_plus_span; [done..|]. by eexists. }
  rewrite rmatch_plus_span; [done|done| |by rewrite Hgroup].
  destruct HZ as [HZne _]. destruct Z; [done|]. exact HZs.
Qed.

Lemma parameters_group_skipped rest m :
  stops is_space rest -> rmatch parameters_group rest m final = Some m.
Proof.
  intros Hrest. unfold parameters_group.
  rewrite rmatch_opt_none; [done|]. simpl. by apply run_plus_stops.
Qed.

(** Whitespace that ends the text, all of it line terminators after its
    first character, leaves the parameter group unmatched. *)
Lemma parameters_group_line_end c W m :
  is_space c = true ->
  forallb (fun x => negb (is_dot x)) (list_ascii_of_string W) = true ->
  rmatch parameters_group (String c W) m final = Some m.
Proof.
  intros Hc HW. unfold parameters_group.
  rewrite rmatch_opt_none; [done|].
  change (run_plus is_space (String c W)
            (fun s' => rmatch (Group 3 (Plus is_dot)) s' m final) = None).
  apply run_plus_none. intros pre s' Heq Hpre. simpl.
  apply run_plus_stops.
  destruct pre as [|x pre]; [done|]. simpl in Heq. injection Heq as _ Heq.
  clear Hpre Hc. revert W HW Heq.
  induction pre as [|y pre IH]; intros W HW Heq; simpl in Heq; subst W.
  - destruct s' as [|z s']; [done|]. simpl in *.
    apply andb_prop in HW as [Hz _]. by apply negb_true_iff in Hz.
  - simpl in HW. apply andb_prop in HW as [_ HW]. by apply (IH _ HW).
Qed.

Lemma from_module_match X ws3 Y tail m m' :
  token X -> whitespace ws3 -> token Y -> stops is_word tail ->
  rmatch parameters_group tail (set_capture 2 Y (set_capture 1 X m)) final
  = Some m' ->
  rmatch from_module (X +:+ ws3 +:+ Y +:+ tail) m final = Some m'.
Proof.
  intros HX Hws HY Htail Hparams. unfold from_module.
  assert (H2 : rmatch (Cat (Group 2 (Plus is_word)) parameters_group)
                 (Y +:+ tail) (set_capture 1 X m) final = Some m').
  { change (rmatch (Group 2 (Plus is_word)) (Y +:+ tail) (set_capture 1 X m)
              (fun s1 m1 => rmatch parameters_group s1 m1 final) = Some m').
    rewrite rmatch_group_plus_span; [done..|]. by rewrite Hparams. }
  assert (H3 : rmatch (Cat (Plus is_space)
                         (Cat (Group 2 (Plus is_word)) parameters_group))
                 (ws3 +:+ Y +:+ tail) (set_capture 1 X m) final = Some m').
  { change (rmatch (Plus is_space) (ws3 +:+ Y +:+ tail) (set_capture 1 X m)
              (fun s1 m1 =>
                 rmatch (Cat (Group 2 (Plus is_word)) parameters_group)
                   s1 m1 final) = Some m').
    rewrite rmatch_plus_span; [done|done| |by rewrite H2].
    eapply stops_app; [exact HY|apply word_not_space]. }
  change (rmatch (Group 1 (Plus is_word)) (X +:+ ws3 +:+ Y +:+ tail) m
            (fun s1 m1 =>
               rmatch (Cat (Plus is_space)
                         (Cat (Group 2 (Plus is_word)) parameters_group))
                 s1 m1 final) = Some m').
  rewrite rmatch_group_plus_span; [done|done| |by rewrite H3].
  eapply stops_app; [exact Hws|apply space_not_word].
Qed.

Lemma directive_regex_head slash ws1 ws2 s m' :
  optional_slash slash -> whitespace ws1 -> whitespace ws2 ->
  stops is_space s ->
  rmatch from_module s no_captures final = Some m' ->
  rmatch directive_regex
    (slash +:+ "run" +:+ ws1 +:+ "module" +:+ ws2 +:+ s) no_captures final
  = Some m'.
Proof.
  intros Hslash Hws1 Hws2 Hs Hfrom.
  assert (H2 : rmatch (Cat (Plus is_space) from_module) (ws2 +:+ s)
                 no_captures final = Some m').
  { change (rmatch (Plus is_space) (ws2 +:+ s) no_captures
              (fun s1 m1 => rmatch from_module s1 m1 final) = Some m').
    rewrite rmatch_plus_span; [done|done|done|by rewrite Hfrom]. }
  assert (H3 : rmatch (Cat (word "module") (Cat (Plus is_space) from_module))
                 ("module" +:+ ws2 +:+ s) no_captures final = Some m').
  { change (rmatch (word "module") ("module" +:+ ws2 +:+ s) no_captures
              (fun s1 m1 =>
                 rmatch (Cat (Plus is_space) from_module) s1 m1 final)
            = Some m').
    by rewrite rmatch_word. }
  assert (H4 : rmatch (Cat (Plus is_space)
                         (Cat (word "module")
                            (Cat (Plus is_space) from_module)))
                 (ws1 +:+ "module" +:+ ws2 +:+ s) no_captures final
               = Some m').
  { change (rmatch (Plus is_space) (ws1 +:+ "module" +:+ ws2 +:+ s)
              no_captures
              (fun s1 m1 =>
                 rmatch (Cat (word "module")
                           (Cat (Plus is_space) from_module)) s1 m1 final)
            = Some m').
    rewrite rmatch_plus_span; [done|done|done|by rewrite H3]. }
  assert (H5 : rmatch (Cat (word "run")
                         (Cat (Plus is_space)
                            (Cat (word "module")
                               (Cat (Plus is_space) from_module))))
                 ("run" +:+ ws1 +:+ "module" +:+ ws2 +:+ s) no_captures final
               = Some m').
  { change (rmatch (word "run") ("run" +:+ ws1 +:+ "module" +:+ ws2 +:+ s)
              no_captures
              (fun s1 m1 =>
                 rmatch (Cat (Plus is_space)
                           (Cat (word "module")
                              (Cat (Plus is_space) from_module)))
                   s1 m1 final) = Some m').
    by rewrite rmatch_word. }
  destruct Hslash as [-> | ->].
  - change (rmatch (Opt (Lit "/"))
              ("run" +:+ ws1 +:+ "module" +:+ ws2 +:+ s) no_captures
              (fun s1 m1 =>
                 rmatch (Cat (word "run")
                           (Cat (Plus is_space)
                              (Cat (word "module")
                                 (Cat (Plus is_space) from_module))))
                   s1 m1 final) = Some m').
    by rewrite rmatch_opt_none.
  - change (rmatch (Opt (Lit "/"))
              ("/" +:+ "run" +:+ ws1 +:+ "module" +:+ ws2 +:+ s) no_captures
              (fun s1 m1 =>
                 rmatch (Cat (word "run")
                           (Cat (Plus is_space)
                              (Cat (word "module")
                                 (Cat (Plus is_space) from_module))))
                   s1 m1 final) = Some m').
    apply rmatch_opt_some. exact H5.
Qed.

Lemma directive_regex_from_module slash ws1 ws2 s m' :
  optional_slash slash -> whitespace ws1 -> whitespace ws2 ->
  stops is_space s ->
  rmatch from_module s no_captures final = Some m' ->
  exec directive_regex
    (slash +:+ "run" +:+ ws1 +:+ "module" +:+ ws2 +:+ s) = Some m'.
Proof. intros. apply exec_head. by apply directive_regex_head. Qed.

End DirectiveShape.

Module QueryShape.
Import Regex RegexFacts Greedy.

Lemma quote_not_space c : is_quote c = true -> is_space c = false.
Proof.
  destruct c as [[] [] [] [] [] [] [] []]; vm_compute; congruence.
Qed.

Lemma not_quote_false c : is_quote c = true -> not_quote c = false.
Proof. unfold not_quote. by intros ->. Qed.

Lemma not_space_is_space c : not_space c = true -> is_space c = false.
Proof. unfold not_space. by intros ?%negb_true_iff. Qed.

(** The quoted form, at the head of the parameters. *)
Lemma quoted_query_match q1 v q2 rest :
  is_quote q1 = true -> run_of not_quote v -> is_quote q2 = true ->
  exec quoted_query_regex ("query=" +:+ String q1 (v +:+ String q2 rest))
  = Some (set_capture 1 v no_captures).
Proof.
  intros Hq1 Hv Hq2. apply exec_head. unfold quoted_query_regex.
  assert (H7 : rmatch (Class is_quote) (String q2 rest) (set_capture 1 v no_captures) final = Some (set_capture 1 v no_captures)).
  { simpl. by rewrite Hq2. }
  assert (H6 : rmatch (Cat (Group 1 (Plus not_quote)) (Class is_quote))
                 (v +:+ String q2 rest) no_captures final = Some (set_capture 1 v no_captures)).
  { change (rmatch (Group 1 (Plus not_quote)) (v +:+ String q2 rest)
              no_captures
              (fun s1 m => rmatch (Class is_quote) s1 m final) = Some (set_capture 1 v no_captures)).
    rewrite rmatch_group_plus_span; [done|done| |by rewrite H7].
    simpl. by apply not_quote_false. }
  assert (H5 : rmatch (Cat (Class is_quote)
                         (Cat (Group 1 (Plus not_quote)) (Class is_quote)))
                 (String q1 (v +:+ String q2 rest)) no_captures final
               = Some (set_capture 1 v no_captures)).
  { simpl rmatch at 1. rewrite Hq1. exact H6. }
  assert (H4 : rmatch (Cat (Star is_space)
                         (Cat (Class is_quote)
                            (Cat (Group 1 (Plus not_quote))
                               (Class is_quote))))
                 (String q1 (v +:+ String q2 rest)) no_captures final
               = Some (set_capture 1 v no_captures)).
  { change (rmatch (Star is_space) (String q1 (v +:+ String q2 rest))
              no_captures
              (fun s1 m =>
                 rmatch (Cat (Class is_quote)
                           (Cat (Group 1 (Plus not_quote)) (Class is_quote)))
                   s1 m final) = Some (set_capture 1 v no_captures)).
    rewrite rmatch_star_stops; [done|]. simpl. by apply quote_not_space. }
  change (rmatch (word "query")
            ("query" +:+ String "=" (String q1 (v +:+ String q2 rest)))
            no_captures
            (fun s1 m =>
               rmatch (Cat (Star is_space)
                         (Cat (Lit "=")
                            (Cat (Star is_space)
                               (Cat (Class is_quote)
                                  (Cat (Group 1 (Plus not_quote))
                                     (Class is_quote))))))
                 s1 m final) = Some (set_capture 1 v no_captures)).
  rewrite rmatch_word.
  change (rmatch (Star is_space)
            (String "=" (String q1 (v +:+ String q2 rest))) no_captures
            (fun s1 m =>
               rmatch (Cat (Lit "=")
                         (Cat (Star is_space)
                            (Cat (Class is_quote)
                               (Cat (Group 1 (Plus not_quote))
                                  (Class is_quote)))))
                 s1 m final) = Some (set_capture 1 v no_captures)).
  rewrite rmatch_star_stops; [|done].
  exact H4.
Qed.

(** The bare form, at the head of the parameters. *)
Lemma bare_query_match v rest :
  run_of not_space v -> stops not_space rest ->
  exec bare_query_regex ("query=" +:+ v +:+ rest)
  = Some (set_capture 1 v no_captures).
Proof.
  intros Hv Hrest. apply exec_head. unfold bare_query_regex.
  assert (H5 : rmatch (Group 1 (Plus not_space)) (v +:+ rest) no_captures final
               = Some (set_capture 1 v no_captures)).
  { rewrite rmatch_group_plus_span; [done..|]. by eexists. }
  assert (H4 : rmatch (Cat (Star is_space) (Group 1 (Plus not_space)))
                 (v +:+ rest) no_captures final = Some (set_capture 1 v no_captures)).
  { change (rmatch (Star is_space) (v +:+ rest) no_captures
              (fun s1 m => rmatch (Group 1 (Plus not_space)) s1 m final)
            = Some (set_capture 1 v no_captures)).
    rewrite rmatch_star_stops; [done|].
    eapply stops_app; [exact Hv|apply not_space_is_space]. }
  change (rmatch (word "query") ("query" +:+ String "=" (v +:+ rest))
            no_captures
            (fun s1 m =>
               rmatch (Cat (Star is_space)
                         (Cat (Lit "=")
                            (Cat (Star is_space)
                               (Group 1 (Plus not_space)))))
                 s1 m final) = Some (set_capture 1 v no_captures)).
  rewrite rmatch_word.
  change (rmatch (Star is_space) (String "=" (v +:+ rest)) no_captures
            (fun s1 m =>
               rmatch (Cat (Lit "=")
                         (Cat (Star is_space) (Group 1 (Plus not_space))))
                 s1 m final) = Some (set_capture 1 v no_captures)).
  rewrite rmatch_star_stops; [|done].
  exact H4.
Qed.

Lemma list_ascii_of_string_app s1 s2 :
  list_ascii_of_string (s1 +:+ s2)
  = list_ascii_of_string s1 ++ list_ascii_of_string s2.
Proof. induction s1 as [|c s1 IH]; simpl; [done|]. by rewrite IH. Qed.

(** A text the quoted pattern matches holds a quote. *)
Lemma quoted_query_needs_quote s m m' :
  matches quoted_query_regex s m m' ->
  forallb not_quote (list_ascii_of_string s) = false.
Proof.
  unfold quoted_query_regex. intros H.
  repeat match goal with
         | H : matches (Cat _ _) _ _ _ |- _ => inversion H; subst; clear H
         end.
  match goal with
  | H : matches (Class is_quote) ?s _ _,
    H' : matches (Cat (Group _ _) _) _ _ _ |- _ => clear H'; inversion H; subst
  | H : matches (Class is_quote) ?s _ _ |- _ => inversion H; subst
  end.
  rewrite !list_ascii_of_string_app, !forallb_app. simpl.
  match goal with Hq : is_quote _ = true |- _ =>
    rewrite (not_quote_false _ Hq) end.
  simpl. by rewrite !andb_false_r.
Qed.

Lemma quoted_query_no_quote s :
  forallb not_quote (list_ascii_of_string s) = true ->
  exec quoted_query_regex s = None.
Proof.
  intros Hs. apply exec_None. intros pre rest -> (s1 & s2 & m & -> & Hm).
  apply quoted_query_needs_quote in Hm.
  rewrite !list_ascii_of_string_app, !forallb_app in Hs.
  rewrite Hm in Hs. simpl in Hs. by rewrite andb_false_r in Hs.
Qed.

End QueryShape.

(* ================================================================== *)
(** * Running handler code step by step *)
(* ================================================================== *)

Section RunRules.
Context {A B : Type} (w : World).

Lemma run_M_bind (m : M A) (f : A -> M B) st tr :
  run w tr (bind m f st)
  = match run w tr (m st) with
    | (Normal a, st', tr') => run w tr' (f a st')
    | (Throw e, st', tr') => (Throw e, st', tr')
    end.
Proof.
  unfold bind. rewrite run_bind.
  by destruct (run w tr (m st)) as [[[a|e] st'] tr'].
Qed.

Lemma run_M_try_catch (m : M A) (h : string -> M A) st tr :
  run w tr (try_catch m h st)
  = match run w tr (m st) with
    | (Normal a, st', tr') => (Normal a, st', tr')
    | (Throw e, st', tr') => run w tr' (h e st')
    end.
Proof.
  unfold try_catch. rewrite run_bind.
  by destruct (run w tr (m st)) as [[[a|e] st'] tr'].
Qed.

End RunRules.

(** What a run of [loadModule] leaves behind: one import when the [.js]
    file loads, two otherwise. *)
Lemma run_loadModule w tr st moduleName :
  exists module_ imports,
    run w tr (loadModule moduleName st) = (Normal module_, st, tr ++ imports) /\
    Forall (import_event moduleName) imports /\
    1 <= length imports <= 2 /\
    (module_ = None ->
     imports = [existT (QImport moduleName ".js") (None : Answer (QImport moduleName ".js"));
                existT (QImport moduleName ".mjs") (None : Answer (QImport moduleName ".mjs"))]).
Proof.
  unfold loadModule. rewrite run_M_bind. simpl.
  destruct (w tr (QImport moduleName ".js")) as [shape|] eqn:Ejs; simpl.
  - exists (Some shape), [existT (QImport moduleName ".js") (Some shape : Answer (QImport moduleName ".js"))].
    split; [done|]. split; [|split; [simpl; lia|done]].
    constructor; [|constructor]. unfold import_event; simpl; auto.
  - destruct (w _ (QImport moduleName ".mjs")) as [shape|] eqn:Emjs; simpl.
    + eexists (Some shape), [_; _]. rewrite <-app_assoc. simpl.
      split; [done|]. split; [|split; [simpl; lia|done]].
      constructor; [unfold import_event; simpl; auto|].
      constructor; [unfold import_event; simpl; auto|constructor].
    + eexists None, [_; _]. rewrite <-app_assoc. simpl.
      split; [done|]. split; [|split; [simpl; lia|done]].
      constructor; [unfold import_event; simpl; auto|].
      constructor; [unfold import_event; simpl; auto|constructor].
Qed.

(** What [runModule] returns and asks does not depend on the two maps,
    which it leaves alone. *)
Lemma run_runModule_any_state (w : World) (tr : list Event) m c p :
  exists r ext,
    forall st, run w tr (runModule m c p st) = (r, st, tr ++ ext).
Proof.
  unfold runModule, loadModule.
  assert (Hcall : forall (tr' : list Event) ext',
    tr' = tr ++ ext' ->
    exists r ext,
      forall st,
        run w tr'
          ((let* outcome := ask (QCall m c (parse_query p)) in
            match outcome with
            | Returned result => ret (Success result)
            | Threw (WithMessage message) => ret (Failed (Some message))
            | Threw WithoutMessage => ret (Failed None)
            | Threw Nullish =>
                throw "Cannot read properties of undefined (reading 'message')"
            end) st)
        = (r, st, tr ++ ext)).
  { intros tr' ext' ->.
    destruct (w (tr ++ ext') (QCall m c (parse_query p)))
      as [v|[msg| |]] eqn:E;
      eexists _, (ext' ++ [_]); intros st;
      rewrite run_M_bind; simpl; rewrite E; simpl;
      by rewrite app_assoc. }
  assert (Hshape : forall (tr' : list Event) ext' module_,
    tr' = tr ++ ext' ->
    exists r ext,
      forall st,
        run w tr'
          (match command_shape module_ c with
           | NoCommand =>
               ret (Failed (Some ("Command " +:+ dq +:+ c +:+ dq
                                  +:+ " not found in " +:+ dq +:+ m +:+ dq)))
           | NotCallable => ret (Failed (Some "Handler is not a function"))
           | Callable =>
               let parsedParams := parse_query p in
               let* outcome := ask (QCall m c parsedParams) in
               match outcome with
               | Returned result => ret (Success result)
               | Threw (WithMessage message) => ret (Failed (Some message))
               | Threw WithoutMessage => ret (Failed None)
               | Threw Nullish =>
                   throw "Cannot read properties of undefined (reading 'message')"
               end
           end st)
        = (r, st, tr ++ ext)).
  { intros tr' ext' module_ ->.
    destruct (command_shape module_ c);
      [by eexists _, ext'..|by apply (Hcall _ ext')]. }
  destruct (w tr (QImport m ".js")) as [shape|] eqn:Ejs.
  - destruct (Hshape (tr ++ [existT (QImport m ".js")
                               (Some shape : Answer (QImport m ".js"))])
                [existT (QImport m ".js")
                   (Some shape : Answer (QImport m ".js"))]
                (Some shape) eq_refl) as (r & ext & H).
    exists r, ext. intros st. rewrite !run_M_bind. simpl. rewrite Ejs. simpl.
    apply H.
  - set (tr1 := tr ++ [existT (QImport m ".js")
                         (None : Answer (QImport m ".js"))]).
    destruct (w tr1 (QImport m ".mjs")) as [shape|] eqn:Emjs.
    + destruct (Hshape (tr1 ++ [existT (QImport m ".mjs")
                                  (Some shape : Answer (QImport m ".mjs"))])
                  [existT (QImport m ".js")
                     (None : Answer (QImport m ".js"));
                   existT (QImport m ".mjs")
                     (Some shape : Answer (QImport m ".mjs"))]
                  (Some shape)) as (r & ext & H).
      { unfold tr1. by rewrite <-app_assoc. }
      exists r, ext. intros st. rewrite !run_M_bind. simpl. rewrite Ejs. simpl.
      fold tr1. rewrite Emjs. simpl. apply H.
    + destruct (Hshape (tr1 ++ [existT (QImport m ".mjs")
                                  (None : Answer (QImport m ".mjs"))])
                  [existT (QImport m ".js")
                     (None : Answer (QImport m ".js"));
                   existT (QImport m ".mjs")
                     (None : Answer (QImport m ".mjs"))]
                  None) as (r & ext & H).
      { unfold tr1. by rewrite <-app_assoc. }
      exists r, ext. intros st. rewrite !run_M_bind. simpl. rewrite Ejs. simpl.
      fold tr1. rewrite Emjs. simpl. apply H.
Qed.

Lemma run_history_or_empty (w : World) (tr : list Event) sid st :
  run w tr (history_or_empty sid st)
  = (Normal (default [] (chatHistory st !! sid)), st, tr).
Proof. reflexivity. Qed.

(** Pushing onto an existing log reads the clock once. *)
Lemma run_push_history (w : World) (tr : list Event) sid r text h st :
  chatHistory st !! sid = Some h ->
  run w tr (push_history sid r text st)
  = (Normal tt,
     mkState (pendingModuleRequests st)
       (<[sid := h ++ [mkChatMessage r text (Some (w tr QTimestamp))]]>
          (chatHistory st)),
     tr ++ [existT QTimestamp (w tr QTimestamp)]).
Proof.
  intros Hh. unfold push_history, history_of, bind, get_state, ret. simpl.
  rewrite Hh. simpl. do 2 f_equal. f_equal.
  apply map_eq. intros i. rewrite lookup_alter, lookup_insert.
  destruct (decide (sid = i)) as [<-|]; [by rewrite Hh | done].
Qed.

(* ================================================================== *)
(** * Completion, state and events together *)
(* ================================================================== *)

Section YieldsRules.
Context {A B : Type} (w : World).
Implicit Types (st : State).

Lemma yields_mono (m : M A) st
    (Q Q' : Completion A -> State -> list Event -> Prop) :
  yields w m st Q -> (forall r st' ext, Q r st' ext -> Q' r st' ext) ->
  yields w m st Q'.
Proof.
  intros H HQ tr. destruct (H tr) as (ext & Heq & Hq). exists ext. auto.
Qed.

Lemma yields_of (m : M A) st (Q : Completion A -> State -> Prop)
    (E : Event -> Prop) :
  wp w m st Q -> emits w m E ->
  yields w m st (fun r st' ext => Q r st' /\ Forall E ext).
Proof.
  intros Hwp Hem tr. destruct (Hem st tr) as (ext & Heq & Hall).
  exists ext. split; [done|]. split; [apply Hwp | done].
Qed.

Lemma yields_ret (a : A) st (Q : Completion A -> State -> list Event -> Prop) :
  Q (Normal a) st [] -> yields w (ret a) st Q.
Proof. intros H tr. exists []. by rewrite app_nil_r. Qed.

Lemma yields_throw (e : string) st
    (Q : Completion A -> State -> list Event -> Prop) :
  Q (Throw e) st [] -> yields w (throw e) st Q.
Proof. intros H tr. exists []. by rewrite app_nil_r. Qed.

Lemma yields_bind (m : M A) (f : A -> M B) st
    (Q : Completion B -> State -> list Event -> Prop) :
  yields w m st (fun r st' ext =>
    match r with
    | Normal a =>
        yields w (f a) st' (fun r' st'' ext' => Q r' st'' (ext ++ ext'))
    | Throw e => Q (Throw e) st' ext
    end) ->
  yields w (bind m f) st Q.
Proof.
  intros H tr. unfold bind. rewrite run_bind.
  destruct (H tr) as (ext & Heq & Hq).
  destruct (run w tr (m st)) as [[[a|e] st'] tr']; simpl in *; subst tr'.
  - destruct (Hq (tr ++ ext)) as (ext' & Heq' & Hq').
    exists (ext ++ ext'). by rewrite app_assoc.
  - by exists ext.
Qed.

Lemma yields_try_catch (m : M A) (h : string -> M A) st
    (Q : Completion A -> State -> list Event -> Prop) :
  yields w m st (fun r st' ext =>
    match r with
    | Normal a => Q (Normal a) st' ext
    | Throw e =>
        yields w (h e) st' (fun r' st'' ext' => Q r' st'' (ext ++ ext'))
    end) ->
  yields w (try_catch m h) st Q.
Proof.
  intros H tr. unfold try_catch. rewrite run_bind.
  destruct (H tr) as (ext & Heq & Hq).
  destruct (run w tr (m st)) as [[[a|e] st'] tr']; simpl in *; subst tr'.
  - by exists ext.
  - destruct (Hq (tr ++ ext)) as (ext' & Heq' & Hq').
    exists (ext ++ ext'). by rewrite app_assoc.
Qed.

End YieldsRules.

Lemma yields_modify (w : World) (f : State -> State) st
    (Q : Completion unit -> State -> list Event -> Prop) :
  Q (Normal tt) (f st) [] -> yields w (modify f) st Q.
Proof. intros H tr. exists []. by rewrite app_nil_r. Qed.

(** From [yields] to what [serve] leaves behind. *)
Lemma yields_serve lib env w req st
    (Q : Completion Response -> State -> list Event -> Prop) :
  yields w (handler lib env req) st Q ->
  Q (completion (serve lib env w req st)) (state_after (serve lib env w req st))
    (events (serve lib env w req st)).
Proof.
  intros H. destruct (H []) as (ext & Heq & Hq). unfold serve.
  destruct (run w [] (handler lib env req st)) as [[r st'] tr].
  simpl in *. by subst tr.
Qed.

(** One step of a [yields] proof on the structure of the program. *)
Ltac yields_step :=
  lazymatch goal with
  | |- yields _ (bind _ _) _ _ => apply yields_bind
  | |- yields _ (try_catch _ _) _ _ => apply yields_try_catch
  | |- yields _ (ret _) _ _ => apply yields_ret
  | |- yields _ (throw _) _ _ => apply yields_throw
  | |- yields _ (modify _) _ _ => apply yields_modify
  end.

Section Keyless.
Context (lib : Library) (env : Env) (w : World).
Hypothesis service : defaultService env = "openai".
Hypothesis unusable : openai_key_unusable env = true.

(** Without a usable key the OpenAI wrapper returns the notice and calls
    nothing. *)
Lemma wp_getResponse_keyless prompt sys out h st :
  falsy prompt = false ->
  wp w (getResponse lib env prompt sys out h) st (fun r st' =>
    st' = st /\ r = Normal openai_key_notice).
Proof using service unusable.
  intros Hp. unfold getResponse, getOpenAIResponse. rewrite Hp, service.
  simpl. unfold openai_key_unusable in unusable. rewrite unusable.
  by wp_step.
Qed.

Lemma emits_getResponse_keyless prompt sys out h E :
  emits w (getResponse lib env prompt sys out h) E.
Proof using service unusable.
  unfold getResponse, getOpenAIResponse. rewrite service. simpl.
  unfold openai_key_unusable in unusable. rewrite unusable.
  destruct (falsy prompt); [apply emits_throw | apply emits_ret].
Qed.

End Keyless.

Section YieldsComponents.
Context (w : World).
Implicit Types (st : State).

(** Code that asks nothing adds no event. *)
Lemma yields_silent {A : Type} (m : M A) st
    (Q : Completion A -> State -> Prop) :
  wp w m st Q -> emits w m (fun _ => False) ->
  yields w m st (fun r st' ext => Q r st' /\ ext = []).
Proof.
  intros Hwp Hem. eapply yields_mono; [by apply yields_of|].
  intros r st' ext [Hq Hall]. split; [done|].
  destruct ext as [|e ext]; [done|]. by inversion Hall.
Qed.

Lemma yields_history_or_empty sid st :
  yields w (history_or_empty sid) st (fun r st' ext =>
    st' = st /\ r = Normal (default [] (chatHistory st !! sid)) /\ ext = []).
Proof.
  eapply yields_mono.
  - apply yields_silent; [apply wp_history_or_empty|apply emits_history_or_empty].
  - by intros r st' ext [[-> ->] ->].
Qed.

(** Pushing onto an existing log reads the clock once. *)
Lemma yields_push_history sid r text h st :
  chatHistory st !! sid = Some h ->
  yields w (push_history sid r text) st (fun res st' ext =>
    exists ts,
      res = Normal tt /\
      st' = mkState (pendingModuleRequests st)
              (<[sid := h ++ [mkChatMessage r text (Some ts)]]> (chatHistory st)) /\
      ext = [existT QTimestamp (ts : Answer QTimestamp)]).
Proof.
  intros Hh tr. pose proof (wp_push_history w sid r text h st Hh tr) as Hwp.
  revert Hwp. unfold push_history, history_of, bind, get_state, ret. simpl.
  rewrite Hh. simpl. intros (ts & Hr & Hst).
  eexists [_]. split; [done|]. exists (w tr QTimestamp).
  split; [done|]. split; [|done].
  f_equal. apply map_eq. intros i. rewrite lookup_alter, lookup_insert.
  destruct (decide (sid = i)) as [<-|]; [by rewrite Hh | done].
Qed.

End YieldsComponents.

(* ================================================================== *)
(** * A model that never asks for a module *)
(* ================================================================== *)

Lemma wp_getResponse_plain lib env w prompt sys h st :
  plain_model lib env w -> falsy prompt = false ->
  wp w (getResponse lib env prompt sys None h) st (fun r st' =>
    st' = st /\ exists text, r = Normal text /\ parseModuleCommand text = None).
Proof.
  intros Hplain Hp tr.
  destruct (Hplain prompt sys h st tr Hp) as (text & Hr & Hparse).
  split; [apply wp_getResponse_state|]. by exists text.
Qed.

(** The scripted world without replies is one: its model answers with the
    empty text. *)
Lemma noon_world_plain : plain_model plain_library ollama_env noon_world.
Proof.
  intros prompt sys h st tr Hp. unfold getResponse. rewrite Hp.
  exists "". split; [|reflexivity].
  simpl. by destruct (count_provider_calls tr).
Qed.

(* ================================================================== *)
(** * File names and their extensions *)
(* ================================================================== *)

Module FileNames.

Lemma ends_with_app pre suffix : ends_with suffix (pre +:+ suffix) = true.
Proof.
  induction pre as [|c pre IH].
  - change ("" +:+ suffix) with suffix.
    destruct suffix; cbn [ends_with]; by rewrite String.eqb_refl.
  - change (String c pre +:+ suffix) with (String c (pre +:+ suffix)).
    cbn [ends_with]. rewrite IH. apply orb_true_r.
Qed.

Lemma ends_with_inv suffix s :
  ends_with suffix s = true -> exists pre, s = pre +:+ suffix.
Proof.
  induction s as [|c s IH]; cbn [ends_with].
  - rewrite orb_false_r. intros H%String.eqb_eq. by exists "".
  - intros [H|H]%orb_true_iff.
    + exists "". by apply String.eqb_eq in H.
    + destruct (IH H) as [pre ->]. by exists (String c pre).
Qed.

Lemma length_app (s t : string) :
  String.length (s +:+ t) = String.length s + String.length t.
Proof. induction s as [|c s IH]; simpl; [done|]. by rewrite IH. Qed.

Lemma substring_prefix (s t : string) :
  substring 0 (String.length s) (s +:+ t) = s.
Proof.
  induction s as [|c s IH]; simpl.
  - by destruct t.
  - by rewrite IH.
Qed.

Lemma slice_end_app pre suffix :
  slice_end (String.length suffix) (pre +:+ suffix) = pre.
Proof.
  unfold slice_end. rewrite length_app.
  replace (String.length pre + String.length suffix - String.length suffix)
    with (String.length pre) by lia.
  apply substring_prefix.
Qed.

(** A name cannot end in both extensions. *)
Lemma js_is_not_mjs a b : a +:+ ".js" <> b +:+ ".mjs".
Proof.
  intros H. apply (f_equal list_ascii_of_string) in H.
  rewrite !QueryShape.list_ascii_of_string_app in H. simpl in H.
  change (list_ascii_of_string b ++ ["."; "m"; "j"; "s"]%char)
    with (list_ascii_of_string b ++ ["."%char] ++ ["m"; "j"; "s"]%char) in H.
  rewrite app_assoc in H.
  apply app_inj_2 in H; [|done]. by destruct H as [_ [=]].
Qed.

Lemma ends_with_mjs_js name : ends_with ".mjs" (name +:+ ".js") = false.
Proof.
  destruct (ends_with ".mjs" (name +:+ ".js")) eqn:E; [|done].
  apply ends_with_inv in E as [pre E]. by apply js_is_not_mjs in E.
Qed.

End FileNames.

(* ================================================================== *)
(** * The parser returns what the pattern reads at the first match *)
(* ================================================================== *)

(** The directive built from the captures of a match. *)
Lemma directive_of_captures X Y :
  Grammar.token X ->
  directive_of
    (Regex.set_capture 2 Y (Regex.set_capture 1 X Regex.no_captures))
  = mkDirective X Y "".
Proof.
  intros [_ HX]. unfold directive_of, Regex.set_capture. simpl.
  by rewrite ParserFacts.word_chars_no_dot.
Qed.

Lemma directive_of_captures_parameters X Y Z :
  Grammar.token X -> Z <> "" ->
  directive_of
    (Regex.set_capture 3 Z
       (Regex.set_capture 2 Y (Regex.set_capture 1 X Regex.no_captures)))
  = mkDirective X Y Z.
Proof.
  intros [_ HX] HZ. unfold directive_of, Regex.set_capture. simpl.
  rewrite ParserFacts.word_chars_no_dot by done. by destruct Z.
Qed.

Module FirstMatchFacts.
Import Regex RegexFacts Grammar Greedy DirectiveShape FirstMatch.

(** ** From a reading to the matcher's answer *)

Lemma run_plus_no_run {R : Type} p s (k : string -> option R) :
  (forall pre s', s = pre +:+ s' -> run_of p pre -> k s' = None) ->
  run_plus p s k = None.
Proof.
  induction s as [|c s IH]; intros H; simpl; [done|].
  destruct (p c) eqn:Hc; [|done].
  rewrite IH.
  - apply (H (String c "") s); [done|]. by apply run_of_cons; [|left].
  - intros pre s' -> Hpre. apply (H (String c pre) s'); [done|].
    by apply run_of_cons; [|right].
Qed.

(** A quantifier stops at the longest run after which the rest of the
    pattern succeeds. *)
Lemma run_plus_longest {R : Type} p v rest (k : string -> option R) :
  run_of p v -> is_Some (k rest) ->
  (forall pre s', rest = pre +:+ s' -> run_of p pre -> k s' = None) ->
  run_plus p (v +:+ rest) k = k rest.
Proof.
  intros Hv [x Hk] Hlonger. induction v as [|c v IH]; [by destruct Hv|].
  apply run_of_inv in Hv as [Hc Hv]. simpl. rewrite Hc.
  destruct Hv as [-> | Hv]; simpl.
  - by rewrite run_plus_no_run.
  - by rewrite (IH Hv), Hk.
Qed.

Lemma group_parameters_stops s m :
  stops is_dot s -> rmatch (Group 3 (Plus is_dot)) s m final = None.
Proof. intros H. simpl. by apply run_plus_stops. Qed.

Lemma parameters_group_none rest m :
  no_parameters rest -> rmatch parameters_group rest m final = Some m.
Proof.
  intros Hno. unfold parameters_group.
  rewrite rmatch_opt_none; [done|].
  change (run_plus is_space rest
            (fun s' => rmatch (Group 3 (Plus is_dot)) s' m final) = None).
  apply run_plus_no_run. intros pre s' Heq Hpre.
  apply group_parameters_stops. by apply (Hno pre s').
Qed.

Lemma parameters_group_longest ws p rest m :
  whitespace ws -> parameters_text p -> stops is_dot rest ->
  no_parameters (p +:+ rest) ->
  rmatch parameters_group (ws +:+ p +:+ rest) m final
  = Some (set_capture 3 p m).
Proof.
  intros Hws Hp Hrest Hno. apply rmatch_opt_some.
  change (run_plus is_space (ws +:+ p +:+ rest)
            (fun s' => rmatch (Group 3 (Plus is_dot)) s' m final)
          = Some (set_capture 3 p m)).
  assert (Hgroup : rmatch (Group 3 (Plus is_dot)) (p +:+ rest) m final
                   = Some (set_capture 3 p m)).
  { rewrite rmatch_group_plus_span; [done..|]. by eexists. }
  rewrite run_plus_longest; [done|done|by rewrite Hgroup|].
  intros pre s' Heq Hpre. apply group_parameters_stops. by apply (Hno pre s').
Qed.

Lemma reads_rmatch s d :
  reads s d ->
  exists m, rmatch directive_regex s no_captures final = Some m /\
            directive_of m = d.
Proof.
  intros [slash ws1 ws2 X ws3 Y rest Hslash Hws1 Hws2 HX Hws3 HY Hw Hno
         |slash ws1 ws2 X ws3 Y ws4 Z rest Hslash Hws1 Hws2 HX Hws3 HY
            Hws4 HZ Hrest Hno].
  - eexists. split; [|by apply directive_of_captures].
    apply directive_regex_head; [done..| |].
    + eapply stops_app; [exact HX|apply word_not_space].
    + apply from_module_match; [done..|]. by apply parameters_group_none.
  - eexists. split.
    + apply directive_regex_head; [done..| |].
      * eapply stops_app; [exact HX|apply word_not_space].
      * apply from_module_match; [done..| |].
        -- eapply stops_app; [exact Hws4|apply space_not_word].
        -- by apply parameters_group_longest.
    + apply directive_of_captures_parameters; [done|by destruct HZ].
Qed.

(** [exec] returns the match at an offset before which there is none. *)
Lemma exec_at r pre s m :
  rmatch r s no_captures final = Some m ->
  (forall pre' rest, pre +:+ s = pre' +:+ rest ->
     String.length pre' < String.length pre -> ~ matched_at r rest) ->
  exec r (pre +:+ s) = Some m.
Proof.
  intros Hm. induction pre as [|c pre IH]; intros Hfirst.
  - by apply exec_head.
  - change (String c pre +:+ s) with (String c (pre +:+ s)).
    cbn [exec].
    assert (Hnone : rmatch r (String c (pre +:+ s)) no_captures
                      (fun _ m => Some m) = None).
    { apply rmatch_top_None. apply (Hfirst "" (String c (pre +:+ s)));
        [done|simpl; lia]. }
    rewrite Hnone. apply IH. intros pre' rest Heq Hlen.
    apply (Hfirst (String c pre') rest); [simpl; by rewrite Heq|simpl; lia].
Qed.

(** ** From a sentence to the reading *)

(** The longest prefix of one class. *)
Lemma max_run p s :
  exists v rest,
    s = v +:+ rest /\ forallb p (list_ascii_of_string v) = true /\
    stops p rest.
Proof.
  induction s as [|c s (v & rest & -> & Hv & Hrest)].
  - by exists "", "".
  - destruct (p c) eqn:Hc.
    + exists (String c v), rest. split_and!; [done| |done].
      cbn [list_ascii_of_string forallb]. by rewrite Hc.
    + by exists "", (String c (v +:+ rest)).
Qed.

Lemma run_of_app_run p s v :
  run_of p s -> forallb p (list_ascii_of_string v) = true ->
  run_of p (s +:+ v).
Proof.
  intros [Hne Hs] Hv. split.
  - destruct s; [done|discriminate].
  - rewrite QueryShape.list_ascii_of_string_app, forallb_app.
    by rewrite Hs, Hv.
Qed.

(** Either nothing after the command can be read as parameters, or there
    is a longest whitespace after which they start. *)
Lemma parameters_choice r :
  no_parameters r \/
  exists ws p rest,
    r = ws +:+ p +:+ rest /\ whitespace ws /\ parameters_text p /\
    stops is_dot rest /\ no_parameters (p +:+ rest).
Proof.
  induction r as [|a r0 IH].
  - left. intros ws rest' Heq Hws. destruct ws; [by destruct Hws|discriminate].
  - destruct (is_space a) eqn:Ha.
    2:{ left. intros ws rest' Heq Hws.
        destruct ws as [|x ws]; [by destruct Hws|].
        injection Heq as -> _. apply run_of_inv in Hws as [Hx _]. congruence. }
    destruct IH as [Hno | (ws & p & rest & -> & Hws & Hp & Hrest & Hno)].
    + destruct (max_run is_dot r0) as (p & rest & Heq & Hp & Hrest).
      destruct p as [|b p].
      * (* a line terminator, or the end, follows *)
        left. simpl in Heq. subst rest. intros ws rest' Heq Hws.
        destruct ws as [|x ws]; [by destruct Hws|].
        injection Heq as -> Heq.
        apply run_of_inv in Hws as [_ [-> | Hws]].
        -- simpl in Heq. by subst.
        -- by apply (Hno ws rest').
      * right. exists (String a ""), (String b p), rest.
        split_and!; [by rewrite Heq| | |done|by rewrite <-Heq].
        -- by apply run_of_cons; [|left].
        -- by split.
    + right. exists (String a ws), p, rest.
      split_and!; [done| |done..]. by apply run_of_cons; [|right].
Qed.

Lemma grammar_reads mt d rest :
  directive_grammar mt d -> exists d', reads (mt +:+ rest) d'.
Proof.
  intros [slash ws1 ws2 X ws3 Y Hslash Hws1 Hws2 HX Hws3 HY
         |slash ws1 ws2 X ws3 Y ws4 Z Hslash Hws1 Hws2 HX Hws3 HY Hws4 HZ].
  - destruct (max_run is_word rest) as (v & r & -> & Hv & Hr).
    assert (HY' : token (Y +:+ v)) by (by apply run_of_app_run).
    destruct (parameters_choice r)
      as [Hno | (ws & p & rest' & -> & Hws & Hp & Hrest & Hno)].
    + exists (mkDirective X (Y +:+ v) "").
      replace ((slash +:+ "run" +:+ ws1 +:+ "module" +:+ ws2 +:+ X +:+ ws3
                +:+ Y) +:+ v +:+ r)
        with (slash +:+ "run" +:+ ws1 +:+ "module" +:+ ws2 +:+ X +:+ ws3
              +:+ (Y +:+ v) +:+ r)
        by (by rewrite !string_app_assoc).
      by apply R_bare.
    + exists (mkDirective X (Y +:+ v) p).
      replace ((slash +:+ "run" +:+ ws1 +:+ "module" +:+ ws2 +:+ X +:+ ws3
                +:+ Y) +:+ v +:+ ws +:+ p +:+ rest')
        with (slash +:+ "run" +:+ ws1 +:+ "module" +:+ ws2 +:+ X +:+ ws3
              +:+ (Y +:+ v) +:+ ws +:+ p +:+ rest')
        by (by rewrite !string_app_assoc).
      by apply R_parameters.
  - destruct (parameters_choice (ws4 +:+ Z +:+ rest))
      as [Hno | (ws & p & rest' & Heq & Hws & Hp & Hrest & Hno)].
    + exfalso. specialize (Hno ws4 (Z +:+ rest) eq_refl Hws4).
      apply run_of_head in HZ as (c & Z' & -> & Hc). simpl in Hno. congruence.
    + exists (mkDirective X Y p).
      replace ((slash +:+ "run" +:+ ws1 +:+ "module" +:+ ws2 +:+ X +:+ ws3
                +:+ Y +:+ ws4 +:+ Z) +:+ rest)
        with (slash +:+ "run" +:+ ws1 +:+ "module" +:+ ws2 +:+ X +:+ ws3
              +:+ Y +:+ ws +:+ p +:+ rest')
        by (rewrite !string_app_assoc; by rewrite Heq).
      by apply R_parameters.
Qed.

(** ** The two together *)

Lemma first_directive_parse text d :
  first_directive text d -> parseModuleCommand text = Some d.
Proof.
  intros (pre & s & -> & Hreads & Hleft).
  destruct (reads_rmatch s d Hreads) as (m & Hm & <-).
  rewrite ParserFacts.parseModuleCommand_exec.
  rewrite (exec_at directive_regex pre s m Hm); [done|].
  intros pre' rest Heq Hlen Hmatched.
  apply ParserFacts.matched_at_occurs in Hmatched
    as (mt & rest' & d' & -> & Hd').
  assert (Hocc : occurs_at (pre +:+ s) (String.length pre') d')
    by (by exists pre', mt, rest').
  apply Hleft in Hocc. lia.
Qed.

Lemma parse_first_directive text d :
  parseModuleCommand text = Some d -> first_directive text d.
Proof.
  intros Hparse. pose proof Hparse as Hexec.
  rewrite ParserFacts.parseModuleCommand_exec in Hexec.
  destruct (exec directive_regex text) as [m|] eqn:E; [|discriminate].
  apply exec_Some in E as (pre & s1 & s2 & -> & Hm & Hfirst).
  apply ParserFacts.matches_directive_grammar in Hm.
  destruct (grammar_reads s1 _ s2 Hm) as [d' Hreads].
  assert (Hd' : first_directive (pre +:+ s1 +:+ s2) d').
  { exists pre, (s1 +:+ s2). split_and!; [done..|].
    intros n d0 (pre' & mt & rest & Heq & <- & Hd0).
    destruct (decide (String.length pre <= String.length pre')) as [|Hlt];
      [done|].
    exfalso. apply (Hfirst pre' (mt +:+ rest) Heq); [lia|].
    apply ParserFacts.matched_at_occurs. by exists mt, rest, d0. }
  pose proof (first_directive_parse _ _ Hd') as Hparse'.
  rewrite Hparse in Hparse'. by injection Hparse' as ->.
Qed.

End FirstMatchFacts.

(* ================================================================== *)
(** * The directive parser: first match of the grammar *)
(* ================================================================== *)

Example parse_direct_command :
  parseModuleCommand "/run module time getDate"
  = Some (mkDirective "time" "getDate" "").
Proof. vm_compute. reflexivity. Qed.

Example parse_with_parameters :
  parseModuleCommand "Let me look: run  module websearch search rocq prover"
  = Some (mkDirective "websearch" "search" "rocq prover").
Proof. vm_compute. reflexivity. Qed.

Example parse_plain_text : parseModuleCommand "What time is it?" = None.
Proof. vm_compute. reflexivity. Qed.

(** The module of a parsed directive is a run of identifier characters, so
    the branch of [parseModuleCommand] that splits a dotted module name is
    never taken. *)
Lemma parsed_module_is_token text d :
  parseModuleCommand text = Some d -> Grammar.token (module d).
Proof.
  rewrite ParserFacts.parseModuleCommand_exec.
  destruct (Regex.exec directive_regex text) as [m|] eqn:E; [|discriminate].
  intros [= <-].
  apply RegexFacts.exec_Some in E as (pre & s1 & s2 & _ & Hm & _).
  apply ParserFacts.matches_directive_grammar in Hm.
  by inversion Hm.
Qed.

(** C8, as stated, fails for the grammar of the specification, whose
    tokens are whitespace-separated: this text starts with a sentence of
    that grammar, with the module [my-module] and the command [get-time],
    and the parser returns [null]; the pattern's tokens are runs of
    identifier characters. *)
Lemma hyphenated_tokens_counterexample :
  SpecGrammar.occurs_at "/run module my-module get-time" 0
    (mkDirective "my-module" "get-time" "") /\
  parseModuleCommand "/run module my-module get-time" = None.
Proof.
  split; [|vm_compute; reflexivity].
  exists "", "/run module my-module get-time", "".
  split_and!; [reflexivity..|].
  apply (SpecGrammar.S_plain "/" " " " " "my-module" " " "get-time");
    first [by right | by split | reflexivity].
Qed.

(** C8, amended: the tokens being runs of [A-Za-z0-9_].  The parser is a
    function of the text; on the empty text it returns [null]; it returns
    [null] exactly when no offset of the text starts a sentence of the
    pattern [["/"] "run" <ws> "module" <ws> <module> <ws> <command>
    [<ws> <parameters>]]; it returns [d] exactly when [d] is what the
    pattern reads at the leftmost such offset, the module and the command
    being whole runs of identifier characters and the parameters starting
    after the longest whitespace they can follow and running to the end of
    the line; and this reading is unique. *)
Theorem parseModuleCommand_first_match :
  parseModuleCommand "" = None /\
  (forall text,
     parseModuleCommand text = None <->
     forall n d, ~ Grammar.occurs_at text n d) /\
  (forall text d,
     parseModuleCommand text = Some d <-> FirstMatch.first_directive text d) /\
  (forall text d d',
     FirstMatch.first_directive text d -> FirstMatch.first_directive text d' ->
     d = d').
Proof.
  split; [by vm_compute|]. split_and!.
  - intros text. rewrite ParserFacts.parseModuleCommand_exec.
    rewrite fmap_None, RegexFacts.exec_None. split.
    + intros H n d (pre & mt & rest & -> & _ & Hd).
      apply (H pre (mt +:+ rest) eq_refl).
      apply ParserFacts.matched_at_occurs. by exists mt, rest, d.
    + intros H pre rest -> Hm.
      apply ParserFacts.matched_at_occurs in Hm as (mt & rest' & d & -> & Hd).
      apply (H (String.length pre) d). by exists pre, mt, rest'.
  - intros text d. split.
    + apply FirstMatchFacts.parse_first_directive.
    + apply FirstMatchFacts.first_directive_parse.
  - intros text d d' Hd Hd'.
    apply FirstMatchFacts.first_directive_parse in Hd, Hd'. congruence.
Qed.

(** The parameters start after the longest whitespace they can follow:
    behind two trailing blanks, the second blank is the parameters. *)
Example parse_trailing_blanks :
  parseModuleCommand "/run module a b  " = Some (mkDirective "a" "b" " ").
Proof. vm_compute. reflexivity. Qed.

(** C3: on the text [/run module websearch.search foo] the parser returns
    [null], not the directive [{websearch, search, foo}]: the pattern's
    module group [(\w+)] cannot hold a dot, so the text has no match. *)
Theorem parse_dotted_module_is_null :
  parseModuleCommand "/run module websearch.search foo" = None.
Proof. vm_compute. reflexivity. Qed.

(* ================================================================== *)
(** * The approval loop *)
(* ================================================================== *)

Lemma generates_scripted replies outcome id :
  generates (scripted replies outcome) id -> id = scripted_id.
Proof. by intros (now & rnd & [tr ->] & [tr' ->] & ->). Qed.

Lemma scripted_fresh replies outcome :
  ~ generates (scripted replies outcome) waiting_id.
Proof. intros H. apply generates_scripted in H. discriminate. Qed.

(** C4: denying a pending request answers [{success:true, message,
    denied:true}], takes the request out of the table and nothing else: no
    module is loaded, no handler is invoked and no provider is called (no
    event at all), and the logs are untouched; denying the same id again
    answers "Request not found or expired", changes nothing and again
    causes no event.  (A pending id is never empty, see
    [generates_nonempty].) *)
Theorem denial_resolves_without_execution lib env w w' st rid p :
  rid <> "" ->
  pendingModuleRequests st !! rid = Some p ->
  let deny := PostApproveModule (mkApproveBody rid false) in
  let first := serve lib env w deny st in
  let second := serve lib env w' deny (state_after first) in
  completion first = Normal (RespDenied "Module execution denied by user.") /\
  pendingModuleRequests (state_after first)
    = delete rid (pendingModuleRequests st) /\
  chatHistory (state_after first) = chatHistory st /\
  events first = [] /\
  completion second = Normal (RespFailure "Request not found or expired") /\
  state_after second = state_after first /\
  events second = [].
Proof.
  intros Hne Hp. cbv zeta.
  rewrite (serve_approve_denied _ _ _ _ p) by done.
  rewrite serve_approve_unknown; [by simpl|done|apply lookup_delete_eq].
Qed.

Lemma denial_resolves_without_execution_witness :
  waiting_id <> "" /\
  pendingModuleRequests waiting_state !! waiting_id = Some waiting_request /\
  let deny := PostApproveModule (mkApproveBody waiting_id false) in
  let first := serve plain_library ollama_env time_world deny waiting_state in
  let second :=
    serve plain_library ollama_env time_world deny (state_after first) in
  completion first = Normal (RespDenied "Module execution denied by user.") /\
  pendingModuleRequests (state_after first)
    = delete waiting_id (pendingModuleRequests waiting_state) /\
  chatHistory (state_after first) = chatHistory waiting_state /\
  events first = [] /\
  completion second = Normal (RespFailure "Request not found or expired") /\
  state_after second = state_after first /\
  events second = [].
Proof.
  split; [discriminate|]. split; [vm_compute; reflexivity|].
  apply (denial_resolves_without_execution plain_library ollama_env
           time_world time_world waiting_state waiting_id waiting_request).
  - discriminate.
  - vm_compute; reflexivity.
Defined.

(** A denial never touches the logs, in any state. *)
Lemma denial_keeps_history lib env w rid st :
  chatHistory
    (state_after
       (serve lib env w (PostApproveModule (mkApproveBody rid false)) st))
  = chatHistory st.
Proof.
  destruct (decide (rid = "")) as [->|Hne]; [done|].
  destruct (pendingModuleRequests st !! rid) as [p|] eqn:Hp.
  - by rewrite (serve_approve_denied _ _ _ _ p).
  - by rewrite serve_approve_unknown.
Qed.

(** C10: when [POST /message] answers with a suspension, the request is in
    the pending table, the session's log is the old log followed by the
    user message and nothing else, the other sessions are untouched, and a
    denial of the request, whenever it comes, leaves every log as it is. *)
Theorem suspension_logs_only_the_user_message
    lib env w st body rid m c prev msg :
  completion (serve lib env w (PostMessage body) st)
  = Normal (RespApproval rid m c prev msg) ->
  let sid := default "default" (sessionId body) in
  let st1 := state_after (serve lib env w (PostMessage body) st) in
  is_Some (pendingModuleRequests st1 !! rid) /\
  (exists ts,
     chatHistory st1 !! sid
     = Some (default [] (chatHistory st !! sid)
             ++ [mkChatMessage user (userprompt body) (Some ts)])) /\
  (forall sid', sid' <> sid -> chatHistory st1 !! sid' = chatHistory st !! sid') /\
  (forall w' st2,
     chatHistory
       (state_after
          (serve lib env w' (PostApproveModule (mkApproveBody rid false)) st2))
     = chatHistory st2).
Proof.
  intros Hresp. cbv zeta.
  pose proof (wp_serve lib env w (PostMessage body) st _
                (wp_post_message lib env w body st)) as (resp & Hr & Hother & H).
  rewrite Hresp in Hr. injection Hr as <-.
  destruct H as (_ & [p Hp] & Hlog).
  split_and!.
  - rewrite Hp, lookup_insert_eq. by eexists.
  - exact Hlog.
  - exact Hother.
  - intros w' st2. apply denial_keeps_history.
Qed.

Lemma suspension_logs_only_the_user_message_witness :
  completion
    (serve plain_library ollama_env time_world (PostMessage time_question)
       initial_state)
  = Normal (RespApproval scripted_id "time" "getTime" None
      "AI requests permission to execute a module. Please approve or deny.") /\
  let st1 :=
    state_after
      (serve plain_library ollama_env time_world (PostMessage time_question)
         initial_state) in
  is_Some (pendingModuleRequests st1 !! scripted_id) /\
  (exists ts,
     chatHistory st1 !! "default"
     = Some (default [] (chatHistory initial_state !! "default")
             ++ [mkChatMessage user "What time is it?" (Some ts)])) /\
  (forall sid',
     sid' <> "default" ->
     chatHistory st1 !! sid' = chatHistory initial_state !! sid') /\
  (forall w' st2,
     chatHistory
       (state_after
          (serve plain_library ollama_env w'
             (PostApproveModule (mkApproveBody scripted_id false)) st2))
     = chatHistory st2).
Proof.
  split; [vm_compute; reflexivity|].
  apply (suspension_logs_only_the_user_message plain_library ollama_env
           time_world initial_state time_question scripted_id "time" "getTime"
           None
           "AI requests permission to execute a module. Please approve or deny.").
  vm_compute; reflexivity.
Defined.

(** C6, as stated, fails: a user prompt that is itself a directive is run
    as a direct command before [typoftask] is looked at. *)
Lemma unknown_task_type_counterexample :
  userprompt (mkMessageBody "/run module time getDate" "summarize" None) <> "" /\
  typoftask (mkMessageBody "/run module time getDate" "summarize" None) <> "" /\
  typoftask (mkMessageBody "/run module time getDate" "summarize" None) <> "llm" /\
  completion
    (serve plain_library ollama_env time_world
       (PostMessage (mkMessageBody "/run module time getDate" "summarize" None))
       initial_state)
  = Normal
      (RespDirect
         "<strong>Direct Command Result:</strong><br><pre>12:00</pre>"
         (Success "12:00")
         [ mkChatMessage user "/run module time getDate"
             (Some "2025-01-01T00:00:00.000Z");
           mkChatMessage assistant
             (direct_log plain_library (mkDirective "time" "getDate" "")
                (Success "12:00"))
             (Some "2025-01-01T00:00:00.000Z") ]).
Proof. split_and!; try discriminate. vm_compute; reflexivity. Qed.

(** C6, amended: when [userprompt] and [typoftask] are present, the prompt
    is not itself a directive and [typoftask] is not ["llm"], the answer is
    [{success:false, message:"Unknown task type"}]. *)
Theorem unknown_task_type lib env w st body :
  userprompt body <> "" ->
  typoftask body <> "" ->
  typoftask body <> "llm" ->
  parseModuleCommand (userprompt body) = None ->
  completion (serve lib env w (PostMessage body) st)
  = Normal (RespFailure "Unknown task type").
Proof.
  intros Hp Ht Hllm Hparse.
  apply (wp_serve lib env w (PostMessage body) st
           (fun r _ => r = Normal (RespFailure "Unknown task type"))).
  simpl. unfold post_message.
  rewrite (falsy_false _ Hp), (falsy_false _ Ht), Hparse. simpl.
  apply String.eqb_neq in Hllm. rewrite Hllm.
  wp_step. unfold init_history. wp_step. wp_step.
  eapply wp_mono; [eapply wp_push_history, init_history_lookup|].
  intros ? ? (ts & -> & ->). wp_step. by wp_step.
Qed.

Lemma unknown_task_type_witness :
  userprompt (mkMessageBody "Summarize this text" "summarize" None) <> "" /\
  typoftask (mkMessageBody "Summarize this text" "summarize" None) <> "" /\
  typoftask (mkMessageBody "Summarize this text" "summarize" None) <> "llm" /\
  parseModuleCommand
    (userprompt (mkMessageBody "Summarize this text" "summarize" None)) = None /\
  completion
    (serve plain_library ollama_env time_world
       (PostMessage (mkMessageBody "Summarize this text" "summarize" None))
       initial_state)
  = Normal (RespFailure "Unknown task type").
Proof.
  split_and!; try discriminate; [vm_compute; reflexivity|].
  apply (unknown_task_type plain_library ollama_env time_world initial_state
           (mkMessageBody "Summarize this text" "summarize" None));
    try discriminate.
  vm_compute; reflexivity.
Defined.

(** C2, as stated, fails: a call whose [requestId] is empty (or missing)
    is answered "Missing request ID", although that id was never stored. *)
Lemma approve_empty_id_counterexample :
  pendingModuleRequests initial_state !! "" = None /\
  serve plain_library ollama_env time_world
    (PostApproveModule (mkApproveBody "" true)) initial_state
  = mkServed (Normal (RespFailure "Missing request ID")) initial_state [].
Proof. split; reflexivity. Qed.

(** C2, amended: for a non-empty id [rid] that is pending, the first call
    of [POST /approve-module] with it (approved or denied, whatever the
    module and the provider then do) takes it out of the table; after that,
    and after any further requests, a call with [rid] answers "Request not
    found or expired" and changes nothing; and so does a call with any
    non-empty id that is not in the table.  The code does not check that a
    generated id is new, so the worlds are taken not to generate [rid]
    again. *)
Theorem approval_resolves_once
    lib env st rid p w approved later w' approved' :
  rid <> "" ->
  pendingModuleRequests st !! rid = Some p ->
  ~ generates w rid ->
  Forall (fun wr => ~ generates wr.1 rid) later ->
  let call a := PostApproveModule (mkApproveBody rid a) in
  let st1 := state_after (serve lib env w (call approved) st) in
  let st2 := serve_all lib env later st1 in
  pendingModuleRequests st1 !! rid = None /\
  serve lib env w' (call approved') st2
  = mkServed (Normal (RespFailure "Request not found or expired")) st2 [] /\
  (forall st0 w0 rid0 a0,
     rid0 <> "" -> pendingModuleRequests st0 !! rid0 = None ->
     serve lib env w0 (PostApproveModule (mkApproveBody rid0 a0)) st0
     = mkServed (Normal (RespFailure "Request not found or expired")) st0 []).
Proof.
  intros Hne Hp Hfresh Hlater. cbv zeta.
  assert (H1 : pendingModuleRequests
                 (state_after
                    (serve lib env w
                       (PostApproveModule (mkApproveBody rid approved)) st))
               !! rid = None)
    by (by apply (serve_approve_removes lib env w rid approved p)).
  split_and!.
  - exact H1.
  - apply serve_approve_unknown; [done|]. by apply serve_all_keeps_absent.
  - intros st0 w0 rid0 a0 Hne0 Hnone. by apply serve_approve_unknown.
Qed.

Lemma approval_resolves_once_witness :
  waiting_id <> "" /\
  pendingModuleRequests waiting_state !! waiting_id = Some waiting_request /\
  ~ generates time_world waiting_id /\
  Forall (fun wr : World * Request => ~ generates wr.1 waiting_id)
    [(time_world, PostMessage time_question)] /\
  let call a := PostApproveModule (mkApproveBody waiting_id a) in
  let st1 :=
    state_after
      (serve plain_library ollama_env time_world (call true) waiting_state) in
  let st2 :=
    serve_all plain_library ollama_env
      [(time_world, PostMessage time_question)] st1 in
  pendingModuleRequests st1 !! waiting_id = None /\
  serve plain_library ollama_env time_world (call false) st2
  = mkServed (Normal (RespFailure "Request not found or expired")) st2 [] /\
  (forall st0 w0 rid0 a0,
     rid0 <> "" -> pendingModuleRequests st0 !! rid0 = None ->
     serve plain_library ollama_env w0
       (PostApproveModule (mkApproveBody rid0 a0)) st0
     = mkServed (Normal (RespFailure "Request not found or expired")) st0 []).
Proof.
  split; [discriminate|]. split; [vm_compute; reflexivity|].
  split; [apply scripted_fresh|].
  split; [repeat constructor; apply scripted_fresh|].
  apply (approval_resolves_once plain_library ollama_env waiting_state
           waiting_id waiting_request time_world true
           [(time_world, PostMessage time_question)] time_world false).
  - discriminate.
  - vm_compute; reflexivity.
  - apply scripted_fresh.
  - repeat constructor; apply scripted_fresh.
Defined.

(** C5, as stated, fails: here an approved module runs successfully and the
    answer (a further suspension) is produced while the log of the session
    is exactly what it was. *)
Lemma approved_execution_not_logged_counterexample :
  let s :=
    serve plain_library ollama_env chain_world
      (PostApproveModule (mkApproveBody waiting_id true)) waiting_state in
  existsb is_successful_call (events s) = true /\
  completion s
  = Normal (RespApproval scripted_id "system" "getDeviceId"
              (Some "/run module system getDeviceId")
              "AI requests permission to execute another module.") /\
  chatHistory (state_after s) = chatHistory waiting_state.
Proof. vm_compute. split_and!; reflexivity. Qed.

(** C5, amended.  A direct command is in the session's log when its
    answer is produced, as the user entry and an assistant entry holding
    the result, whether the module succeeded or returned an error, unless
    [JSON.stringify] throws on the result: then the user entry alone is
    logged and the answer is a failure; when [runModule] itself rejects
    nothing is logged.  The final model response of [POST /message] is in
    the log when the answer is produced, and is produced whenever the
    model's replies hold no directive.  In [POST /approve-module] nothing
    is logged unless the answer is a final response that carries the log,
    which then ends with that response: the result of an approved
    execution is never logged by itself.  Such an answer is produced when
    the session has a log, the approved module returns a result that can
    be rendered and the model's replies hold no directive. *)
Theorem final_responses_are_logged lib env w st :
  (forall body d,
     userprompt body <> "" -> typoftask body <> "" ->
     parseModuleCommand (userprompt body) = Some d ->
     let sid := default "default" (sessionId body) in
     let old := default [] (chatHistory st !! sid) in
     let s := serve lib env w (PostMessage body) st in
     match (run w [] (runModule (module d) (command d) (parameters d) st)).1.1
     with
     | Throw e =>
         completion s
         = Normal (RespFailure ("Direct command execution failed: " +:+ e)) /\
         chatHistory (state_after s) !! sid = Some old
     | Normal out =>
         exists ts1,
           let entry := mkChatMessage user (userprompt body) (Some ts1) in
           match JSON_throws lib out with
           | Some e =>
               completion s
               = Normal (RespFailure
                           ("Direct command execution failed: " +:+ e)) /\
               chatHistory (state_after s) !! sid = Some (old ++ [entry])
           | None =>
               exists ts2,
                 let h :=
                   old ++ [entry;
                           mkChatMessage assistant (direct_log lib d out)
                             (Some ts2)] in
                 completion s
                 = Normal (RespDirect
                             ("<strong>Direct Command Result:</strong><br><pre>"
                              +:+ JSON_stringify_pretty lib out +:+ "</pre>")
                             out h) /\
                 chatHistory (state_after s) !! sid = Some h
           end
     end) /\
  (forall body msg mo oh,
     completion (serve lib env w (PostMessage body) st)
     = Normal (RespFinal msg mo oh) ->
     let sid := default "default" (sessionId body) in
     chatHistory (state_after (serve lib env w (PostMessage body) st)) !! sid
     = oh /\
     exists text ts1 ts2,
       msg = markdown_toHTML lib text /\
       oh = Some (default [] (chatHistory st !! sid)
                  ++ [mkChatMessage user (userprompt body) (Some ts1);
                      mkChatMessage assistant text (Some ts2)])) /\
  (forall body,
     plain_model lib env w ->
     userprompt body <> "" -> typoftask body = "llm" ->
     parseModuleCommand (userprompt body) = None ->
     let sid := default "default" (sessionId body) in
     let s := serve lib env w (PostMessage body) st in
     exists text ts1 ts2,
       let h := default [] (chatHistory st !! sid)
                ++ [mkChatMessage user (userprompt body) (Some ts1);
                    mkChatMessage assistant text (Some ts2)] in
       completion s
       = Normal (RespFinal (markdown_toHTML lib text) None (Some h)) /\
       chatHistory (state_after s) !! sid = Some h) /\
  (forall rid approved msg mo h,
     completion
       (serve lib env w (PostApproveModule (mkApproveBody rid approved)) st)
     = Normal (RespFinal msg mo (Some h)) ->
     exists p old text ts,
       pendingModuleRequests st !! rid = Some p /\
       let sid := str_or (originalSessionId p) "default" in
       chatHistory st !! sid = Some old /\
       msg = markdown_toHTML lib text /\
       h = old ++ [mkChatMessage assistant text (Some ts)] /\
       chatHistory
         (state_after
            (serve lib env w
               (PostApproveModule (mkApproveBody rid approved)) st)) !! sid
       = Some h) /\
  (forall rid approved,
     let s :=
       serve lib env w (PostApproveModule (mkApproveBody rid approved)) st in
     chatHistory (state_after s) = chatHistory st \/
     exists msg mo h, completion s = Normal (RespFinal msg mo (Some h))) /\
  (forall rid p old,
     plain_model lib env w ->
     rid <> "" -> pendingModuleRequests st !! rid = Some p ->
     let sid := str_or (originalSessionId p) "default" in
     chatHistory st !! sid = Some old ->
     let s :=
       serve lib env w (PostApproveModule (mkApproveBody rid true)) st in
     match (run w []
              (runModule (pending_module p) (pending_command p)
                 (pending_parameters p) st)).1.1
     with
     | Throw e =>
         completion s
         = Normal (RespFailure ("Module execution failed: " +:+ e)) /\
         chatHistory (state_after s) = chatHistory st
     | Normal out =>
         match JSON_throws lib out with
         | Some e =>
             completion s
             = Normal (RespFailure ("Module execution failed: " +:+ e)) /\
             chatHistory (state_after s) = chatHistory st
         | None =>
             exists text ts,
               let h := old ++ [mkChatMessage assistant text (Some ts)] in
               completion s
               = Normal (RespFinal (markdown_toHTML lib text) (Some out)
                           (Some h)) /\
               chatHistory (state_after s) !! sid = Some h
         end
     end).
Proof.
  split_and!.
  - intros body d Hprompt Htask Hparse. cbv zeta.
    set (sid := default "default" (sessionId body)).
    set (old := default [] (chatHistory st !! sid)).
    destruct (run_runModule_any_state w [] (module d) (command d)
                (parameters d)) as (r & ext & Hrun).
    rewrite (Hrun st). cbn [fst].
    unfold serve, handler, post_message. fold sid.
    rewrite (falsy_false _ Hprompt), (falsy_false _ Htask), Hparse.
    cbn [orb]. rewrite run_M_bind. cbn [init_history modify run].
    pose proof (init_history_lookup sid st) as Hold. fold old in Hold.
    revert Hold.
    generalize (match chatHistory st !! sid with
                | Some _ => st
                | None =>
                    mkState (pendingModuleRequests st)
                      (<[sid := []]> (chatHistory st))
                end).
    intros st0 Hold.
    rewrite run_M_try_catch, run_M_bind, (Hrun st0). cbn [app].
    destruct r as [out|e]; [|by cbn].
    rewrite run_M_bind, (run_push_history _ _ _ _ _ old) by done.
    exists (w ext QTimestamp). rewrite run_M_bind. unfold JSON_check.
    destruct (JSON_throws lib out) as [e|].
    { cbn. split; [done|]. apply lookup_insert_eq. }
    cbn [ret run]. rewrite run_M_bind.
    erewrite run_push_history by (cbn; apply lookup_insert_eq).
    rewrite run_M_bind, run_history_or_empty. cbn [ret run].
    eexists. cbn. rewrite !lookup_insert_eq. cbn. rewrite <-app_assoc. cbn.
    split; reflexivity.
  - intros body msg mo oh Hresp. cbv zeta.
    pose proof (wp_serve lib env w (PostMessage body) st _
                  (wp_post_message lib env w body st)) as (resp & Hr & _ & H).
    rewrite Hresp in Hr. injection Hr as <-.
    destruct H as (_ & text & ts1 & ts2 & Hmsg & Hoh & Hlog).
    split; [done|]. by exists text, ts1, ts2.
  - intros body Hplain Hprompt Htask Hparse. cbv zeta.
    set (sid := default "default" (sessionId body)).
    set (old := default [] (chatHistory st !! sid)).
    apply (wp_serve lib env w (PostMessage body) st
             (fun r st' =>
                exists text ts1 ts2,
                  r = Normal
                        (RespFinal (markdown_toHTML lib text) None
                           (Some (old ++ [mkChatMessage user (userprompt body)
                                            (Some ts1);
                                          mkChatMessage assistant text
                                            (Some ts2)]))) /\
                  chatHistory st' !! sid
                  = Some (old ++ [mkChatMessage user (userprompt body)
                                    (Some ts1);
                                  mkChatMessage assistant text (Some ts2)]))).
    simpl. unfold post_message. fold sid.
    rewrite (falsy_false _ Hprompt), Htask, Hparse. simpl.
    wp_step. unfold init_history. wp_step.
    pose proof (init_history_lookup sid st) as Hold. fold old in Hold.
    revert Hold.
    generalize (match chatHistory st !! sid with
                | Some _ => st
                | None =>
                    mkState (pendingModuleRequests st)
                      (<[sid := []]> (chatHistory st))
                end).
    intros st0 Hold.
    wp_step. eapply wp_mono; [by apply wp_push_history|].
    intros ? ? (ts1 & -> & ->).
    wp_step. unfold message_llm.
    wp_step. eapply wp_mono; [apply wp_history_or_empty|]. intros ? ? [-> ->].
    wp_step. eapply wp_mono.
    { apply wp_getResponse_plain; [done|by apply falsy_false]. }
    intros ? ? (-> & text & -> & ->).
    wp_step. eapply wp_mono.
    { eapply wp_push_history. simpl. apply lookup_insert_eq. }
    intros ? ? (ts2 & -> & ->).
    wp_step. eapply wp_mono; [apply wp_history_or_empty|]. intros ? ? [-> ->].
    wp_step. exists text, ts1, ts2. simpl.
    rewrite !lookup_insert_eq. simpl. by rewrite <-app_assoc.
  - intros rid approved msg mo h.
    destruct (decide (rid = "")) as [->|Hne]; [discriminate|].
    destruct (pendingModuleRequests st !! rid) as [p|] eqn:Hp;
      [|by rewrite serve_approve_unknown].
    destruct approved; [|by rewrite (serve_approve_denied _ _ _ _ p)].
    intros Hresp.
    pose proof (wp_serve lib env w
                  (PostApproveModule (mkApproveBody rid true)) st _
                  (wp_post_approve_known lib env w rid p st Hne Hp))
      as (resp & Hr & H).
    rewrite Hresp in Hr. injection Hr as <-.
    destruct H as (old & text & ts & Hold & Hmsg & Hh & Hst).
    exists p, old, text, ts. cbv zeta. split_and!; try done.
    rewrite Hst. simpl. apply lookup_insert_eq.
  - intros rid approved. cbv zeta.
    destruct (decide (rid = "")) as [->|Hne]; [by left|].
    destruct (pendingModuleRequests st !! rid) as [p|] eqn:Hp;
      [|left; by rewrite serve_approve_unknown].
    destruct approved; [|left; by rewrite (serve_approve_denied _ _ _ _ p)].
    pose proof (wp_serve lib env w
                  (PostApproveModule (mkApproveBody rid true)) st _
                  (wp_post_approve_known lib env w rid p st Hne Hp))
      as (resp & Hr & H).
    rewrite Hr.
    destruct resp as [msg|msg out h|msg mo [h|]|id m c prev msg|msg];
      try done.
    + left. by rewrite H.
    + right. by exists msg, mo, h.
    + left. by rewrite H.
    + left. destruct H as (_ & p' & ->). done.
  - intros rid p old Hplain Hrid Hsome. cbv zeta.
    set (sid := str_or (originalSessionId p) "default"). intros Hold.
    destruct (run_runModule_any_state w [] (pending_module p)
                (pending_command p) (pending_parameters p))
      as (r & ext & Hrun).
    rewrite (Hrun st). cbn [fst].
    unfold serve, handler, post_approve_module. cbn [requestId approved].
    rewrite (falsy_false _ Hrid).
    rewrite run_M_bind. cbn [get_state run]. rewrite Hsome.
    rewrite run_M_bind. cbn [delete_pending modify run negb].
    set (st1 := mkState (delete rid (pendingModuleRequests st))
                  (chatHistory st)).
    rewrite run_M_try_catch. unfold approved_run. fold sid.
    rewrite run_M_bind, (Hrun st1). cbn [app].
    destruct r as [out|e]; [|by cbn].
    rewrite run_M_bind. unfold JSON_check.
    destruct (JSON_throws lib out) as [e|]; [by cbn|].
    cbn [ret run]. rewrite run_M_bind, run_history_or_empty, run_M_bind.
    set (nextPrompt := continuation_prompt lib (originalPrompt p)
                         (pending_module p) (pending_command p) out).
    assert (Hjson : falsy nextPrompt = false)
      by apply continuation_prompt_truthy.
    destruct (Hplain nextPrompt (SystemLLMPrompt lib)
                (default [] (chatHistory st1 !! sid)) st1 ext Hjson)
      as (text & Htext & Hparse).
    pose proof (wp_getResponse_state lib env w nextPrompt
                  (SystemLLMPrompt lib) None
                  (default [] (chatHistory st1 !! sid)) st1 ext) as Hstate.
    destruct (run w ext (getResponse lib env nextPrompt _ None _ st1))
      as [[r st2] tr2].
    cbn in Htext, Hstate. subst r st2. rewrite Hparse.
    rewrite run_M_bind, (run_push_history _ _ _ _ _ old) by done.
    rewrite run_M_bind, run_history_or_empty. cbn.
    rewrite lookup_insert_eq. eexists _, _. split; reflexivity.
Qed.

(** A direct command whose result [JSON.stringify] cannot render: the
    handler has returned, the user entry is logged, the result is not, and
    the answer is a failure. *)
Example direct_command_result_not_rendered :
  let s :=
    serve strict_library ollama_env bigint_world
      (PostMessage (mkMessageBody "/run module time getDate" "llm" None))
      initial_state in
  existsb is_successful_call (events s) = true /\
  completion s
  = Normal (RespFailure
              "Direct command execution failed: Do not know how to serialize a BigInt") /\
  chatHistory (state_after s) !! "default"
  = Some [mkChatMessage user "/run module time getDate"
            (Some "2025-01-01T00:00:00.000Z")].
Proof. vm_compute. split_and!; reflexivity. Qed.

(** The final response of the listing branch of [POST /approve-module] is
    not in the log when the answer is produced. *)
Example approved_listing_response_not_logged :
  let s :=
    serve plain_library ollama_env
      (scripted ["/run module list listAllModules"; "These are the modules."]
         (Returned "[]"))
      (PostApproveModule (mkApproveBody waiting_id true)) waiting_state in
  completion s = Normal (RespFinal "These are the modules." (Some (Success "[]")) None) /\
  chatHistory (state_after s) = chatHistory waiting_state.
Proof. vm_compute. split; reflexivity. Qed.

(** C1: a directive for the listing module that the model emits after an
    auto-approved listing step is not executed but suspended: the answer
    has [requiresApproval: true] with [module: "list"], and a pending request
    for the module [list] is stored.  The same happens in
    [POST /approve-module] for the second listing directive of a chain. *)
Theorem second_list_directive_is_suspended :
  let s :=
    serve plain_library ollama_env listing_world
      (PostMessage (mkMessageBody "Which modules are there?" "llm" None))
      initial_state in
  let s' :=
    serve plain_library ollama_env listing_world
      (PostApproveModule (mkApproveBody waiting_id true)) waiting_state in
  (completion s
   = Normal (RespApproval scripted_id "list" "listAllModules"
               (Some "/run module list listAllModules")
               "AI requests permission to execute another module.") /\
   pending_module <$> pendingModuleRequests (state_after s) !! scripted_id
   = Some "list") /\
  (completion s'
   = Normal (RespApproval scripted_id "list" "listAllModules"
               (Some "/run module list listAllModules")
               "AI requests permission to execute another module.") /\
   pending_module <$> pendingModuleRequests (state_after s') !! scripted_id
   = Some "list").
Proof. vm_compute. split_and!; reflexivity. Qed.

(** The first listing directive of a turn is executed without suspension. *)
Example first_list_directive_is_auto_approved :
  let s :=
    serve plain_library ollama_env
      (scripted ["/run module list listAllModules"; "These are the modules."]
         (Returned "[]"))
      (PostMessage (mkMessageBody "Which modules are there?" "llm" None))
      initial_state in
  pendingModuleRequests (state_after s) = ∅ /\
  existsb is_successful_call (events s) = true /\
  exists h, completion s
            = Normal (RespFinal "These are the modules." (Some (Success "[]"))
                        (Some h)).
Proof. vm_compute. split_and!; [reflexivity..|]. eexists. reflexivity. Qed.

(* ================================================================== *)
(** * The provider requests *)
(* ================================================================== *)

(** The other two builders forward the last ten entries. *)
Lemma openai_messages_recent lib prompt sys history :
  openai_messages lib prompt sys None history
  = [mkChatMessage system sys None] ++ slice_last 10 history
    ++ [mkChatMessage user prompt None].
Proof.
  unfold openai_messages. by destruct history as [|m history].
Qed.

Lemma slice_last_length {A : Type} (n : nat) (l : list A) :
  length (slice_last n l) = min n (length l).
Proof. unfold slice_last. rewrite length_drop. lia. Qed.

Lemma slice_last_suffix {A : Type} (n : nat) (l : list A) :
  exists older, l = older ++ slice_last n l.
Proof. exists (take (length l - n) l). unfold slice_last. by rewrite take_drop. Qed.

(** C7: the request [getOllamaResponse] sends holds the system prompt, the
    prompt and the module result, and no history entry at all: it is the
    same request for every history.  (When [JSON.stringify] throws on the
    module result, nothing is sent, again for every history.) *)
Theorem ollama_request_omits_history lib env w st prompt sys out history :
  map (fun e => projT1 e)
    (run w [] (getOllamaResponse lib env prompt sys out history st)).2
  = match JSON_failure lib out with
    | Some _ => []
    | None =>
        [ QProvider
            (OllamaChat (str_or (OLLAMA_MAIN_MODEL env) "llama2")
               ([ mkChatMessage system sys None;
                  mkChatMessage user prompt None ]
                ++ module_output_messages lib out)) ]
    end.
Proof.
  unfold getOllamaResponse, bind, ask.
  destruct (JSON_failure lib out); simpl; [done|].
  by destruct (w [] _).
Qed.

Example ollama_request_without_history :
  map (fun e => projT1 e)
    (run time_world []
       (getResponse plain_library ollama_env "And tomorrow?" "You are an AI agent."
          None
          [ mkChatMessage user "What day is it?" (Some "2025-01-01T00:00:00.000Z");
            mkChatMessage assistant "It is Wednesday."
              (Some "2025-01-01T00:00:01.000Z") ]
          initial_state)).2
  = [ QProvider
        (OllamaChat "llama2"
           [ mkChatMessage system "You are an AI agent." None;
             mkChatMessage user "And tomorrow?" None ]) ].
Proof. vm_compute. reflexivity. Qed.

(* ================================================================== *)
(** * The registry boundary *)
(* ================================================================== *)

(** What [runModule] returns when the handler returns or throws a value
    that has a [message]. *)
Lemma runModule_returned m c p v st :
  (run (scripted [] (Returned v)) [] (runModule m c p st)).1
  = (Normal (Success v), st).
Proof. reflexivity. Qed.

Lemma runModule_caught m c p message st :
  (run (scripted [] (Threw (WithMessage message))) [] (runModule m c p st)).1
  = (Normal (Failed (Some message)), st).
Proof. reflexivity. Qed.

(** C9: for every module, command and parameters, when the handler throws
    [null] or [undefined] (a promise rejected without a reason),
    [runModule] does not return an [{error}] value: reading [err.message]
    in its [catch] block throws, and that exception leaves [runModule]. *)
Theorem runModule_nullish_rejection_escapes m c p st :
  (run rejecting_world [] (runModule m c p st)).1
  = (Throw "Cannot read properties of undefined (reading 'message')", st).
Proof. reflexivity. Qed.

(** The routes never throw: every request is answered. *)
Lemma routes_always_answer lib env w req st :
  exists resp, completion (serve lib env w req st) = Normal resp.
Proof.
  destruct req as [body|[rid approved]|sid].
  - pose proof (wp_serve lib env w (PostMessage body) st _
                  (wp_post_message lib env w body st)) as (resp & Hr & _).
    by exists resp.
  - destruct (decide (rid = "")) as [->|Hne]; [by eexists|].
    destruct (pendingModuleRequests st !! rid) as [p|] eqn:Hp;
      [|rewrite serve_approve_unknown by done; by eexists].
    destruct approved;
      [|rewrite (serve_approve_denied _ _ _ _ p) by done; by eexists].
    pose proof (wp_serve lib env w
                  (PostApproveModule (mkApproveBody rid true)) st _
                  (wp_post_approve_known lib env w rid p st Hne Hp))
      as (resp & Hr & _).
    by exists resp.
  - by eexists.
Qed.

(** In particular the routes catch what escapes [runModule]. *)
Example direct_command_nullish_rejection :
  completion
    (serve plain_library ollama_env rejecting_world
       (PostMessage (mkMessageBody "/run module time getDate" "llm" None))
       initial_state)
  = Normal
      (RespFailure
         "Direct command execution failed: Cannot read properties of undefined (reading 'message')").
Proof. vm_compute. reflexivity. Qed.

(* ================================================================== *)
(** * Further properties of the routes *)
(* ================================================================== *)

(** X1: every request whose body holds strings is answered by its route:
    no exception escapes a handler of [POST /message],
    [POST /approve-module] or [POST /clear-history], whatever the
    providers, the module imports and the module handlers do, and also
    when [JSON.stringify] throws on a module result. *)
Theorem every_request_is_answered lib env w req st :
  exists resp, completion (serve lib env w req st) = Normal resp.
Proof. apply routes_always_answer. Qed.

(** X2: the permission gate.  When the user prompt is not itself a
    directive, serving [POST /message] imports no module file and calls no
    handler except those of the listing module: whatever the model answers,
    every event is a provider call, a clock read or an event of the module
    [list]. *)
Theorem model_turn_runs_only_listing lib env w st body :
  parseModuleCommand (userprompt body) = None ->
  Forall unapproved_event (events (serve lib env w (PostMessage body) st)).
Proof.
  intros Hparse. apply emits_serve. simpl. unfold post_message.
  rewrite Hparse.
  destruct (_ || _); [apply emits_ret|].
  emits_step; [unfold init_history; apply emits_modify|].
  emits_step.
  { eapply emits_mono; [apply emits_push_history|].
    unfold unapproved_event. auto. }
  emits_step; [|emits_step].
  destruct (_ =? _)%string; [apply emits_message_llm | emits_step].
Qed.

Lemma model_turn_runs_only_listing_witness :
  parseModuleCommand (userprompt (mkMessageBody "Which modules are there?" "llm" None))
  = None /\
  Forall unapproved_event
    (events
       (serve plain_library ollama_env listing_world
          (PostMessage (mkMessageBody "Which modules are there?" "llm" None))
          initial_state)).
Proof.
  split; [vm_compute; reflexivity|].
  apply (model_turn_runs_only_listing plain_library ollama_env listing_world
           initial_state (mkMessageBody "Which modules are there?" "llm" None)).
  vm_compute; reflexivity.
Defined.

(** X3: a direct command bypasses the model and the approval table: when
    the user prompt is a directive [d], serving [POST /message] calls no
    provider, imports and calls nothing but [d] itself (with the parsed
    parameters), and leaves the pending table as it was. *)
Theorem direct_command_bypasses_model lib env w st body d :
  parseModuleCommand (userprompt body) = Some d ->
  Forall (direct_event d) (events (serve lib env w (PostMessage body) st)) /\
  same_pending st (state_after (serve lib env w (PostMessage body) st)).
Proof.
  intros Hparse. split.
  - apply emits_serve. simpl. unfold post_message. rewrite Hparse.
    destruct (_ || _); [apply emits_ret|].
    emits_step; [unfold init_history; apply emits_modify|].
    emits_step; [|emits_step].
    emits_step.
    { eapply emits_mono; [apply emits_runModule|]. by right. }
    emits_step.
    { eapply emits_mono; [apply emits_push_history|]. by left. }
    emits_step; [apply emits_JSON_check|].
    emits_step.
    { eapply emits_mono; [apply emits_push_history|]. by left. }
    emits_step; [apply emits_history_or_empty|]. emits_step.
  - apply preserves_serve. simpl. unfold post_message. rewrite Hparse.
    assert (Hrefl : forall st0, same_pending st0 st0) by done.
    assert (Htrans : forall st1 st2 st3,
              same_pending st1 st2 -> same_pending st2 st3 ->
              same_pending st1 st3).
    { unfold same_pending. intros st1 st2 st3 H12 H23. congruence. }
    destruct (_ || _); [by apply preserves_ret|].
    apply preserves_bind; [done| |intros _].
    { unfold init_history. apply preserves_modify. intros st0.
      by destruct (chatHistory st0 !! _). }
    apply preserves_try_catch; [done| |intros; by apply preserves_ret].
    apply preserves_bind; [done|by apply preserves_runModule|]. intros out.
    apply preserves_bind; [done|by apply preserves_push_history|]. intros _.
    apply preserves_bind; [done|by apply preserves_JSON_check|]. intros _.
    by apply (preserves_final_response w same_pending Hrefl Htrans
                ltac:(done) _ _ (fun h => RespDirect _ out h)).
Qed.

Lemma direct_command_bypasses_model_witness :
  parseModuleCommand
    (userprompt (mkMessageBody "/run module time getDate" "llm" None))
  = Some (mkDirective "time" "getDate" "") /\
  Forall (direct_event (mkDirective "time" "getDate" ""))
    (events
       (serve plain_library ollama_env time_world
          (PostMessage (mkMessageBody "/run module time getDate" "llm" None))
          waiting_state)) /\
  same_pending waiting_state
    (state_after
       (serve plain_library ollama_env time_world
          (PostMessage (mkMessageBody "/run module time getDate" "llm" None))
          waiting_state)).
Proof.
  split; [vm_compute; reflexivity|].
  apply (direct_command_bypasses_model plain_library ollama_env time_world
           waiting_state
           (mkMessageBody "/run module time getDate" "llm" None)
           (mkDirective "time" "getDate" "")).
  vm_compute; reflexivity.
Defined.

(** X4: approving a pending request imports and calls nothing but the
    stored directive (its module, its command, its parameters as parsed)
    and the listing module; a denial, by C4, causes no event at all. *)
Theorem approval_runs_only_what_was_approved lib env w st rid approved p :
  rid <> "" ->
  pendingModuleRequests st !! rid = Some p ->
  Forall (approved_event p)
    (events
       (serve lib env w (PostApproveModule (mkApproveBody rid approved)) st)).
Proof.
  intros Hne Hp. destruct approved;
    [|by rewrite (serve_approve_denied _ _ _ _ p)].
  unfold serve, handler. rewrite (serve_approve_approved _ _ _ _ p) by done.
  destruct (emits_approved_run lib env w p
              (mkState (delete rid (pendingModuleRequests st)) (chatHistory st))
              []) as (ext & Heq & Hall).
  destruct (run w [] _) as [[r st'] tr]. simpl in *. by subst tr.
Qed.

Lemma approval_runs_only_what_was_approved_witness :
  waiting_id <> "" /\
  pendingModuleRequests waiting_state !! waiting_id = Some waiting_request /\
  Forall (approved_event waiting_request)
    (events
       (serve plain_library ollama_env listing_world
          (PostApproveModule (mkApproveBody waiting_id true)) waiting_state)).
Proof.
  split; [discriminate|]. split; [vm_compute; reflexivity|].
  apply (approval_runs_only_what_was_approved plain_library ollama_env
           listing_world waiting_state waiting_id true waiting_request).
  - discriminate.
  - vm_compute; reflexivity.
Defined.

(** X5: what the user is asked to approve is what is stored and what an
    approval runs.  When [POST /message] answers with a suspension for
    [module.command], the returned id is not empty and names a stored
    request for that module and command, under the user's prompt and
    session; denying it answers [denied: true], and approving it imports
    and calls nothing but that directive and the listing module. *)
Theorem suspension_round_trip lib env w st body rid m c prev msg :
  completion (serve lib env w (PostMessage body) st)
  = Normal (RespApproval rid m c prev msg) ->
  let st1 := state_after (serve lib env w (PostMessage body) st) in
  rid <> "" /\
  exists p,
    pendingModuleRequests st1 !! rid = Some p /\
    pending_module p = m /\ pending_command p = c /\
    originalPrompt p = userprompt body /\
    originalSessionId p = default "default" (sessionId body) /\
    length (allModuleOutputs p) <= 1 /\
    (forall w',
       completion
         (serve lib env w' (PostApproveModule (mkApproveBody rid false)) st1)
       = Normal (RespDenied "Module execution denied by user.")) /\
    (forall w',
       Forall
         (fun e => unapproved_event e \/
                   directive_event m c (pending_parameters p) e)
         (events
            (serve lib env w' (PostApproveModule (mkApproveBody rid true))
               st1))).
Proof.
  intros Hresp. cbv zeta.
  pose proof (wp_serve lib env w (PostMessage body) st _
                (wp_post_message_announced lib env w body st)) as H.
  destruct (H _ _ _ _ _ Hresp)
    as (Hne & p & Hp & Hm & Hc & Hprompt & Hsid & Hchain).
  split; [done|]. exists p. split_and!; try done.
  - intros w'. by rewrite (serve_approve_denied _ _ _ _ p).
  - intros w'. rewrite <-Hm, <-Hc.
    by apply (approval_runs_only_what_was_approved lib env w' _ rid true p).
Qed.

Lemma suspension_round_trip_witness :
  completion
    (serve plain_library ollama_env time_world (PostMessage time_question)
       initial_state)
  = Normal (RespApproval scripted_id "time" "getTime" None
      "AI requests permission to execute a module. Please approve or deny.") /\
  let st1 :=
    state_after
      (serve plain_library ollama_env time_world (PostMessage time_question)
         initial_state) in
  scripted_id <> "" /\
  exists p,
    pendingModuleRequests st1 !! scripted_id = Some p /\
    pending_module p = "time" /\ pending_command p = "getTime" /\
    originalPrompt p = userprompt time_question /\
    originalSessionId p = default "default" (sessionId time_question) /\
    length (allModuleOutputs p) <= 1 /\
    (forall w',
       completion
         (serve plain_library ollama_env w'
            (PostApproveModule (mkApproveBody scripted_id false)) st1)
       = Normal (RespDenied "Module execution denied by user.")) /\
    (forall w',
       Forall
         (fun e => unapproved_event e \/
                   directive_event "time" "getTime" (pending_parameters p) e)
         (events
            (serve plain_library ollama_env w'
               (PostApproveModule (mkApproveBody scripted_id true)) st1))).
Proof.
  split; [vm_compute; reflexivity|].
  apply (suspension_round_trip plain_library ollama_env time_world
           initial_state time_question scripted_id "time" "getTime" None
           "AI requests permission to execute a module. Please approve or deny.").
  vm_compute; reflexivity.
Defined.



(** X7: the logs are append-only.  Over any sequence of [POST /message]
    and [POST /approve-module] requests, in any worlds, every session's
    log at the start is a prefix of that session's log at the end: only
    [POST /clear-history] drops or rewrites an entry. *)
Theorem logs_are_append_only lib env reqs st :
  Forall (fun wr : World * Request => clears wr.2 = false) reqs ->
  log_extends st (serve_all lib env reqs st).
Proof.
  intros Hreqs. revert st.
  induction Hreqs as [|[w req] reqs Hreq _ IH]; intros st; simpl.
  - apply log_extends_refl.
  - eapply log_extends_trans; [by apply log_extends_serve|apply IH].
Qed.

Lemma logs_are_append_only_witness :
  Forall (fun wr : World * Request => clears wr.2 = false)
    [ (time_world, PostMessage time_question);
      (chain_world, PostApproveModule (mkApproveBody waiting_id true)) ] /\
  log_extends waiting_state
    (serve_all plain_library ollama_env
       [ (time_world, PostMessage time_question);
         (chain_world, PostApproveModule (mkApproveBody waiting_id true)) ]
       waiting_state).
Proof.
  split; [by repeat constructor|].
  apply (logs_are_append_only plain_library ollama_env
           [ (time_world, PostMessage time_question);
             (chain_world, PostApproveModule (mkApproveBody waiting_id true)) ]
           waiting_state).
  by repeat constructor.
Defined.

(** X8: the frame of [POST /message]: whatever the answer, every request
    that was pending is still pending, and the log of every session other
    than the request's own is untouched. *)
Theorem message_frame lib env w st body :
  let st1 := state_after (serve lib env w (PostMessage body) st) in
  pending_kept st st1 /\
  forall sid',
    sid' <> default "default" (sessionId body) ->
    chatHistory st1 !! sid' = chatHistory st !! sid'.
Proof.
  cbv zeta. split; [apply pending_kept_serve_message|].
  pose proof (wp_serve lib env w (PostMessage body) st _
                (wp_post_message lib env w body st)) as (resp & _ & H & _).
  exact H.
Qed.

(** X9: the frame of [POST /approve-module]: resolving the request [p]
    touches no log but that of the session [originalSessionId || 'default'],
    so a request stored under the empty session id is logged under
    [default]. *)
Theorem approval_touches_one_session lib env w st rid approved p sid' :
  rid <> "" ->
  pendingModuleRequests st !! rid = Some p ->
  sid' <> str_or (originalSessionId p) "default" ->
  chatHistory
    (state_after
       (serve lib env w (PostApproveModule (mkApproveBody rid approved)) st))
    !! sid'
  = chatHistory st !! sid'.
Proof.
  intros Hne Hp Hsid. destruct approved;
    [|by rewrite (serve_approve_denied _ _ _ _ p)].
  pose proof (wp_serve lib env w
                (PostApproveModule (mkApproveBody rid true)) st _
                (wp_post_approve_known lib env w rid p st Hne Hp))
    as (resp & _ & H).
  destruct resp as [msg|msg out h|msg mo [h|]|id m c prev msg|msg];
    try done; try (by rewrite H).
  - destruct H as (old & text & ts & _ & _ & _ & ->). simpl.
    by rewrite lookup_insert_ne.
  - by destruct H as (_ & p' & ->).
Qed.

Lemma approval_touches_one_session_witness :
  waiting_id <> "" /\
  pendingModuleRequests waiting_state !! waiting_id = Some waiting_request /\
  "other" <> str_or (originalSessionId waiting_request) "default" /\
  chatHistory
    (state_after
       (serve plain_library ollama_env time_world
          (PostApproveModule (mkApproveBody waiting_id true)) waiting_state))
    !! "other"
  = chatHistory waiting_state !! "other".
Proof.
  split; [discriminate|]. split; [vm_compute; reflexivity|].
  split; [discriminate|].
  apply (approval_touches_one_session plain_library ollama_env time_world
           waiting_state waiting_id true waiting_request "other").
  - discriminate.
  - vm_compute; reflexivity.
  - discriminate.
Defined.

(** X10: a request outlives its session.  When the session of a pending
    request has no log (it was cleared, or never existed), approving the
    request still runs it, but no log is created or changed and the answer
    never carries a history: a final model response is lost to the log. *)
Theorem approval_without_session lib env w st rid p :
  rid <> "" ->
  pendingModuleRequests st !! rid = Some p ->
  chatHistory st !! str_or (originalSessionId p) "default" = None ->
  let s := serve lib env w (PostApproveModule (mkApproveBody rid true)) st in
  chatHistory (state_after s) = chatHistory st /\
  forall msg mo h, completion s <> Normal (RespFinal msg mo (Some h)).
Proof.
  intros Hne Hp Hnone. cbv zeta.
  pose proof (wp_serve lib env w
                (PostApproveModule (mkApproveBody rid true)) st _
                (wp_post_approve_known lib env w rid p st Hne Hp))
    as (resp & Hr & H).
  rewrite Hr.
  destruct resp as [msg|msg out h|msg mo [h|]|id m c prev msg|msg];
    try done.
  - rewrite H. by split.
  - destruct H as (old & text & ts & Hold & _). simpl in Hold. congruence.
  - rewrite H. by split.
  - destruct H as (_ & p' & ->). by split.
Qed.

Lemma approval_without_session_witness :
  waiting_id <> "" /\
  pendingModuleRequests
    (mkState (pendingModuleRequests waiting_state) ∅) !! waiting_id
  = Some waiting_request /\
  chatHistory (mkState (pendingModuleRequests waiting_state) ∅)
    !! str_or (originalSessionId waiting_request) "default" = None /\
  let s :=
    serve plain_library ollama_env time_world
      (PostApproveModule (mkApproveBody waiting_id true))
      (mkState (pendingModuleRequests waiting_state) ∅) in
  chatHistory (state_after s)
  = chatHistory (mkState (pendingModuleRequests waiting_state) ∅) /\
  forall msg mo h, completion s <> Normal (RespFinal msg mo (Some h)).
Proof.
  split; [discriminate|]. split; [vm_compute; reflexivity|].
  split; [vm_compute; reflexivity|].
  apply (approval_without_session plain_library ollama_env time_world
           (mkState (pendingModuleRequests waiting_state) ∅) waiting_id
           waiting_request).
  - discriminate.
  - vm_compute; reflexivity.
  - vm_compute; reflexivity.
Defined.

(* ================================================================== *)
(** * Further properties of the directive parser *)
(* ================================================================== *)

(** X11: a text that starts with a directive parses to its parts, for any
    amounts of whitespace between the words.  With [cmd] the text
    [[/]run module X Y]: [cmd] followed by nothing, or by a character that
    is neither an identifier character nor whitespace, reads as [{X, Y, ""}];
    so does [cmd] followed by one whitespace character and line
    terminators to the end of the text (a trailing newline); and [cmd]
    followed by whitespace and a text [Z] that does not start with
    whitespace and runs to the end of the line reads as [{X, Y, Z}]. *)
Theorem parse_canonical_directive slash ws1 ws2 X ws3 Y :
  Grammar.optional_slash slash ->
  Grammar.whitespace ws1 -> Grammar.whitespace ws2 -> Grammar.token X ->
  Grammar.whitespace ws3 -> Grammar.token Y ->
  let cmd :=
    slash +:+ "run" +:+ ws1 +:+ "module" +:+ ws2 +:+ X +:+ ws3 +:+ Y in
  (forall rest,
     stops Regex.is_word rest -> stops Regex.is_space rest ->
     parseModuleCommand (cmd +:+ rest) = Some (mkDirective X Y "")) /\
  (forall c W,
     Regex.is_space c = true ->
     forallb (fun x => negb (Regex.is_dot x)) (list_ascii_of_string W) = true ->
     parseModuleCommand (cmd +:+ String c W) = Some (mkDirective X Y "")) /\
  (forall ws4 Z rest,
     Grammar.whitespace ws4 -> Grammar.parameters_text Z ->
     stops Regex.is_space Z -> stops Regex.is_dot rest ->
     parseModuleCommand (cmd +:+ ws4 +:+ Z +:+ rest)
     = Some (mkDirective X Y Z)).
Proof.
  intros Hslash Hws1 Hws2 HX Hws3 HY. cbv zeta.
  assert (Hshape : forall tail m',
    stops Regex.is_word tail ->
    Regex.rmatch parameters_group tail
      (Regex.set_capture 2 Y (Regex.set_capture 1 X Regex.no_captures)) final
    = Some m' ->
    parseModuleCommand
      ((slash +:+ "run" +:+ ws1 +:+ "module" +:+ ws2 +:+ X +:+ ws3 +:+ Y)
       +:+ tail)
    = Some (directive_of m')).
  { intros tail m' Htail Hparams.
    rewrite ParserFacts.parseModuleCommand_exec.
    replace ((slash +:+ "run" +:+ ws1 +:+ "module" +:+ ws2 +:+ X +:+ ws3 +:+ Y)
             +:+ tail)
      with (slash +:+ "run" +:+ ws1 +:+ "module" +:+ ws2
            +:+ (X +:+ ws3 +:+ Y +:+ tail))
      by (by rewrite !string_app_assoc).
    rewrite (DirectiveShape.directive_regex_from_module _ _ _ _ m');
      [done|done|done|done| |].
    - eapply Greedy.stops_app; [exact HX|apply Greedy.word_not_space].
    - by apply DirectiveShape.from_module_match. }
  set (m12 := Regex.set_capture 2 Y
                (Regex.set_capture 1 X Regex.no_captures)) in *.
  split_and!.
  - intros rest Hw Hs. rewrite (Hshape rest m12 Hw);
      [unfold m12; by rewrite directive_of_captures|].
    by apply DirectiveShape.parameters_group_skipped.
  - intros c W Hc HW. rewrite (Hshape (String c W) m12);
      [unfold m12; by rewrite directive_of_captures| |].
    + simpl. by apply Greedy.space_not_word.
    + by apply DirectiveShape.parameters_group_line_end.
  - intros ws4 Z rest Hws4 HZ HZs Hrest.
    rewrite (Hshape (ws4 +:+ Z +:+ rest) (Regex.set_capture 3 Z m12)).
    + unfold m12. rewrite directive_of_captures_parameters; [done|done|].
      by destruct HZ.
    + eapply Greedy.stops_app; [exact Hws4|apply Greedy.space_not_word].
    + by apply DirectiveShape.parameters_group_taken.
Qed.

Lemma parse_canonical_directive_witness :
  Grammar.optional_slash "/" /\
  Grammar.whitespace " " /\ Grammar.whitespace " " /\
  Grammar.token "websearch" /\ Grammar.whitespace " " /\
  Grammar.token "search" /\
  let cmd :=
    "/" +:+ "run" +:+ " " +:+ "module" +:+ " " +:+ "websearch" +:+ " "
    +:+ "search" in
  (forall rest,
     stops Regex.is_word rest -> stops Regex.is_space rest ->
     parseModuleCommand (cmd +:+ rest)
     = Some (mkDirective "websearch" "search" "")) /\
  (forall c W,
     Regex.is_space c = true ->
     forallb (fun x => negb (Regex.is_dot x)) (list_ascii_of_string W) = true ->
     parseModuleCommand (cmd +:+ String c W)
     = Some (mkDirective "websearch" "search" "")) /\
  (forall ws4 Z rest,
     Grammar.whitespace ws4 -> Grammar.parameters_text Z ->
     stops Regex.is_space Z -> stops Regex.is_dot rest ->
     parseModuleCommand (cmd +:+ ws4 +:+ Z +:+ rest)
     = Some (mkDirective "websearch" "search" Z)).
Proof.
  split; [by right|].
  split; [by split|]. split; [by split|]. split; [by split|].
  split; [by split|]. split; [by split|].
  apply (parse_canonical_directive "/" " " " " "websearch" " " "search");
    first [by right | by split].
Defined.

(** X12: what the parser returns is well formed: the module and the command
    of a parsed directive are non-empty runs of [A-Za-z0-9_] (so a module
    name holds no dot, slash or space), and the parameters are empty or a
    non-empty text without a line terminator. *)
Theorem parsed_directive_is_well_formed text d :
  parseModuleCommand text = Some d ->
  Grammar.token (module d) /\ Grammar.token (command d) /\
  (parameters d = "" \/ Grammar.parameters_text (parameters d)).
Proof.
  rewrite ParserFacts.parseModuleCommand_exec.
  destruct (Regex.exec directive_regex text) as [m|] eqn:E; [|discriminate].
  intros [= <-].
  apply RegexFacts.exec_Some in E as (pre & s1 & s2 & _ & Hm & _).
  apply ParserFacts.matches_directive_grammar in Hm.
  inversion Hm; subst; simpl; auto.
Qed.

Lemma parsed_directive_is_well_formed_witness :
  parseModuleCommand "Sure: /run module websearch search rocq prover"
  = Some (mkDirective "websearch" "search" "rocq prover") /\
  Grammar.token (module (mkDirective "websearch" "search" "rocq prover")) /\
  Grammar.token (command (mkDirective "websearch" "search" "rocq prover")) /\
  (parameters (mkDirective "websearch" "search" "rocq prover") = "" \/
   Grammar.parameters_text
     (parameters (mkDirective "websearch" "search" "rocq prover"))).
Proof.
  split; [vm_compute; reflexivity|].
  apply (parsed_directive_is_well_formed
           "Sure: /run module websearch search rocq prover"
           (mkDirective "websearch" "search" "rocq prover")).
  vm_compute; reflexivity.
Defined.

(* ================================================================== *)
(** * The parameters a handler receives *)
(* ================================================================== *)

(** X13: parameters that start with [query=], a quote, a non-empty text [v]
    without quotes, and a quote reach the handler as [v] alone; the two
    quotes may be different characters, and what follows the closing quote
    is dropped. *)
Theorem parse_query_unwraps_quotes q1 v q2 rest :
  is_quote q1 = true -> Regex.run_of not_quote v -> is_quote q2 = true ->
  parse_query ("query=" +:+ String q1 (v +:+ String q2 rest)) = v.
Proof.
  intros Hq1 Hv Hq2. unfold parse_query.
  replace (negb (falsy ("query=" +:+ String q1 (v +:+ String q2 rest)))
           && includes "query=" ("query=" +:+ String q1 (v +:+ String q2 rest)))
    with true by reflexivity.
  by rewrite QueryShape.quoted_query_match.
Qed.

Lemma parse_query_unwraps_quotes_witness :
  is_quote (Ascii.ascii_of_nat 34) = true /\
  Regex.run_of not_quote "rocq prover" /\
  is_quote "'"%char = true /\
  parse_query
    ("query=" +:+ String (Ascii.ascii_of_nat 34)
                    ("rocq prover" +:+ String "'"%char " limit=3"))
  = "rocq prover".
Proof.
  split; [reflexivity|]. split; [by split|]. split; [reflexivity|].
  apply (parse_query_unwraps_quotes (Ascii.ascii_of_nat 34) "rocq prover"
           "'"%char " limit=3"); first [reflexivity | by split].
Defined.

(** X14: parameters without any quote that start with [query=] and a text
    [v] free of whitespace reach the handler as [v]: an unquoted query is
    cut at its first whitespace. *)
Theorem parse_query_cuts_bare_value v rest :
  Regex.run_of not_space v -> stops not_space rest ->
  forallb not_quote (list_ascii_of_string (v +:+ rest)) = true ->
  parse_query ("query=" +:+ v +:+ rest) = v.
Proof.
  intros Hv Hrest Hquote. unfold parse_query.
  replace (negb (falsy ("query=" +:+ v +:+ rest))
           && includes "query=" ("query=" +:+ v +:+ rest))
    with true by reflexivity.
  rewrite QueryShape.quoted_query_no_quote.
  - replace (includes "query=" ("query=" +:+ v +:+ rest)) with true
      by reflexivity.
    by rewrite QueryShape.bare_query_match.
  - rewrite QueryShape.list_ascii_of_string_app, forallb_app, Hquote.
    reflexivity.
Qed.

Lemma parse_query_cuts_bare_value_witness :
  Regex.run_of not_space "rocq" /\
  stops not_space " prover" /\
  forallb not_quote (list_ascii_of_string ("rocq" +:+ " prover")) = true /\
  parse_query ("query=" +:+ "rocq" +:+ " prover") = "rocq".
Proof.
  split; [by split|]. split; [reflexivity|]. split; [reflexivity|].
  apply (parse_query_cuts_bare_value "rocq" " prover");
    first [reflexivity | by split].
Defined.

(* ================================================================== *)
(** * More on the two services *)
(* ================================================================== *)

(** X15: when [runModule] returns [{ success: true, result }], the result
    is what the handler of that module and command returned on the parsed
    parameters; the call is the last thing that happened, after one or two
    imports of that module's files and nothing else, and the two maps are
    untouched. *)
Theorem runModule_success_is_handler_return (w : World) tr st m c p v st' tr' :
  run w tr (runModule m c p st) = (Normal (Success v), st', tr') ->
  st' = st /\
  exists imports,
    tr' = tr ++ imports
          ++ [existT (QCall m c (parse_query p))
                (Returned v : Answer (QCall m c (parse_query p)))] /\
    Forall (import_event m) imports /\
    1 <= length imports <= 2.
Proof.
  unfold runModule. rewrite run_M_bind.
  destruct (run_loadModule w tr st m)
    as (module_ & imports & -> & Himp & Hlen & _).
  destruct (command_shape module_ c); simpl; [discriminate..|].
  destruct (w _ (QCall m c (parse_query p))) as [v'|[msg| |]] eqn:E;
    simpl; intros [= <- <- <-].
  split; [done|]. exists imports. by rewrite app_assoc.
Qed.

Lemma runModule_success_is_handler_return_witness :
  run time_world [] (runModule "time" "getTime" "" initial_state)
  = (Normal (Success "12:00"), initial_state,
     [existT (QImport "time" ".js")
        (Some (fun _ => Callable) : Answer (QImport "time" ".js"));
      existT (QCall "time" "getTime" "")
        (Returned "12:00" : Answer (QCall "time" "getTime" ""))]) /\
  initial_state = initial_state /\
  exists imports,
    [existT (QImport "time" ".js")
        (Some (fun _ => Callable) : Answer (QImport "time" ".js"));
      existT (QCall "time" "getTime" "")
        (Returned "12:00" : Answer (QCall "time" "getTime" ""))]
    = [] ++ imports
      ++ [existT (QCall "time" "getTime" (parse_query ""))
            (Returned "12:00" : Answer (QCall "time" "getTime" (parse_query "")))] /\
    Forall (import_event "time") imports /\
    1 <= length imports <= 2.
Proof.
  split; [reflexivity|].
  apply (runModule_success_is_handler_return time_world [] initial_state
           "time" "getTime" "" "12:00").
  reflexivity.
Defined.

(** X16: when neither the [.js] nor the [.mjs] file of a module can be
    imported, [runModule] tries both, calls no handler, and returns an
    error that names the command as not found in the module. *)
Theorem runModule_missing_module (w : World) tr st m c p :
  w tr (QImport m ".js") = None ->
  w (tr ++ [existT (QImport m ".js") (None : Answer (QImport m ".js"))])
    (QImport m ".mjs") = None ->
  run w tr (runModule m c p st)
  = (Normal (Failed (Some ("Command " +:+ dq +:+ c +:+ dq
                           +:+ " not found in " +:+ dq +:+ m +:+ dq))),
     st,
     tr ++ [existT (QImport m ".js") (None : Answer (QImport m ".js"));
            existT (QImport m ".mjs") (None : Answer (QImport m ".mjs"))]).
Proof.
  intros Hjs Hmjs. unfold runModule, loadModule.
  rewrite !run_M_bind. simpl. rewrite Hjs. simpl. rewrite Hmjs. simpl.
  by rewrite <-app_assoc.
Qed.

Lemma runModule_missing_module_witness :
  unloadable [] [] (QImport "weather" ".js") = None /\
  unloadable []
    ([] ++ [existT (QImport "weather" ".js")
              (None : Answer (QImport "weather" ".js"))])
    (QImport "weather" ".mjs") = None /\
  run (unloadable []) [] (runModule "weather" "today" "" initial_state)
  = (Normal (Failed (Some ("Command " +:+ dq +:+ "today" +:+ dq
                           +:+ " not found in " +:+ dq +:+ "weather" +:+ dq))),
     initial_state,
     [] ++ [existT (QImport "weather" ".js")
              (None : Answer (QImport "weather" ".js"));
            existT (QImport "weather" ".mjs")
              (None : Answer (QImport "weather" ".mjs"))]).
Proof.
  split; [reflexivity|]. split; [reflexivity|].
  apply (runModule_missing_module (unloadable []) [] initial_state
           "weather" "today" ""); reflexivity.
Defined.

(** X17: [getResponse] throws on an empty prompt before anything else
    happens; on any other prompt it leaves the two maps alone, makes at
    most one call, to a provider, and returns a text whatever the provider
    does (a missing key, an unknown service and a rejected call all end in
    a text).  The one exception: with OpenAI selected, a module result
    that [JSON.stringify] cannot render makes it throw that [TypeError]
    before any call; the routes pass no module result. *)
Theorem getResponse_contract lib env w tr st prompt sys out h :
  (prompt = "" ->
   run w tr (getResponse lib env prompt sys out h st)
   = (Throw "Prompt is required", st, tr)) /\
  (prompt <> "" ->
   exists r ext,
     run w tr (getResponse lib env prompt sys out h st) = (r, st, tr ++ ext) /\
     length ext <= 1 /\ Forall provider_event ext /\
     ((exists text, r = Normal text) \/
      (exists message,
         r = Throw message /\ JSON_failure lib out = Some message /\
         defaultService env = "openai" /\ ext = []))) /\
  (prompt <> "" -> JSON_failure lib out = None ->
   exists text ext,
     run w tr (getResponse lib env prompt sys out h st)
     = (Normal text, st, tr ++ ext) /\
     length ext <= 1 /\ Forall provider_event ext).
Proof.
  split; [by intros ->|].
  assert (Hmain : prompt <> "" ->
    exists r ext,
      run w tr (getResponse lib env prompt sys out h st) = (r, st, tr ++ ext) /\
      length ext <= 1 /\ Forall provider_event ext /\
      ((exists text, r = Normal text) \/
       (exists message,
          r = Throw message /\ JSON_failure lib out = Some message /\
          defaultService env = "openai" /\ ext = []))).
  { intros Hp. unfold getResponse. rewrite (falsy_false _ Hp).
    assert (Hnone : forall text,
              exists r ext,
                (Normal text : Completion string, st, tr) = (r, st, tr ++ ext) /\
                length ext <= 1 /\ Forall provider_event ext /\
                ((exists text, r = Normal text) \/
                 (exists message,
                    r = Throw message /\ JSON_failure lib out = Some message /\
                    defaultService env = "openai" /\ ext = []))).
    { intros text. exists (Normal text), []. rewrite app_nil_r. simpl.
      split_and!; [done|lia|done|]. left. by exists text. }
    assert (Hone : forall req (k : ProviderAnswer -> string),
              exists r ext,
                run w tr
                  ((let* a := ask (QProvider req) in
                    match a with
                    | Reply t => ret (k (Reply t))
                    | Rejected e => ret (k (Rejected e))
                    end) st)
                = (r, st, tr ++ ext) /\
                length ext <= 1 /\ Forall provider_event ext /\
                ((exists text, r = Normal text) \/
                 (exists message,
                    r = Throw message /\ JSON_failure lib out = Some message /\
                    defaultService env = "openai" /\ ext = []))).
    { intros req k. rewrite run_M_bind. simpl.
      destruct (w tr (QProvider req)) as [t|e]; simpl;
        eexists _, [_]; (split; [done|]); (split; [simpl; lia|]);
        (split; [by repeat constructor|]); left; by eexists. }
    destruct (String.eqb_spec (defaultService env) "openai") as [Hservice|_].
    { unfold getOpenAIResponse. destruct (_ || _); [apply Hnone|].
      destruct (JSON_failure lib out) as [message|] eqn:Hjson.
      - exists (Throw message), []. rewrite app_nil_r. simpl.
        split_and!; [done|lia|done|]. right. by exists message.
      - apply (Hone _ (fun a => match a with
                                | Reply t => t
                                | Rejected e => _ +:+ e +:+ _
                                end)). }
    destruct (_ =? _)%string.
    { unfold getGeminiResponse. destruct (_ || _); [apply Hnone|].
      destruct (JSON_failure lib out); [apply Hnone|].
      apply (Hone _ (fun a => match a with
                              | Reply t => t
                              | Rejected e => _ +:+ e +:+ _
                              end)). }
    destruct (_ =? _)%string; [|apply Hnone].
    unfold getOllamaResponse.
    destruct (JSON_failure lib out); [apply Hnone|].
    apply (Hone _ (fun a => match a with
                            | Reply t => t
                            | Rejected e => _ +:+ e +:+ _
                            end)). }
  split; [exact Hmain|].
  intros Hp Hjson.
  destruct (Hmain Hp) as (r & ext & Hrun & Hlen & Hall & [[text ->]|Hthrow]).
  - by exists text, ext.
  - destruct Hthrow as (message & _ & Hsome & _). congruence.
Qed.

(** X18: when the configured service is OpenAI and its key is missing or
    is the placeholder, a model turn of [POST /message] succeeds with the
    configuration notice as its message: the notice is appended to the
    session's log as the assistant's entry, after the user's, no request is
    stored, and nothing is called but the clock, twice (no provider, no
    module). *)
Theorem keyless_turn_logs_the_notice lib env w st body :
  defaultService env = "openai" ->
  openai_key_unusable env = true ->
  userprompt body <> "" -> typoftask body = "llm" ->
  parseModuleCommand (userprompt body) = None ->
  let s := serve lib env w (PostMessage body) st in
  let sid := default "default" (sessionId body) in
  let old := default [] (chatHistory st !! sid) in
  exists ts1 ts2,
    let log :=
      old ++ [mkChatMessage user (userprompt body) (Some ts1);
              mkChatMessage assistant openai_key_notice (Some ts2)] in
    completion s
    = Normal (RespFinal (markdown_toHTML lib openai_key_notice) None
                (Some log)) /\
    chatHistory (state_after s) !! sid = Some log /\
    pendingModuleRequests (state_after s) = pendingModuleRequests st /\
    Forall clock_event (events s) /\ length (events s) = 2.
Proof.
  intros Hservice Hkey Hprompt Htask Hparse; cbv zeta.
  set (sid := default "default" (sessionId body)).
  set (old := default [] (chatHistory st !! sid)).
  apply (yields_serve lib env w (PostMessage body) st
           (fun r st' ext =>
              exists ts1 ts2,
                r = Normal (RespFinal (markdown_toHTML lib openai_key_notice)
                              None
                              (Some (old ++ [mkChatMessage user (userprompt body) (Some ts1);
                                             mkChatMessage assistant openai_key_notice (Some ts2)]))) /\
                chatHistory st' !! sid
                = Some (old ++ [mkChatMessage user (userprompt body) (Some ts1);
                                mkChatMessage assistant openai_key_notice (Some ts2)]) /\
                pendingModuleRequests st' = pendingModuleRequests st /\
                Forall clock_event ext /\ length ext = 2)).
  simpl. unfold post_message. fold sid.
  rewrite (falsy_false _ Hprompt), Htask, Hparse. simpl.
  yields_step. unfold init_history. yields_step.
  pose proof (init_history_lookup sid st) as Hold. fold old in Hold.
  assert (Hpend : pendingModuleRequests
                    match chatHistory st !! sid with
                    | Some _ => st
                    | None =>
                        mkState (pendingModuleRequests st)
                          (<[sid := []]> (chatHistory st))
                    end = pendingModuleRequests st)
    by (by destruct (chatHistory st !! sid)).
  revert Hold Hpend.
  generalize (match chatHistory st !! sid with
              | Some _ => st
              | None =>
                  mkState (pendingModuleRequests st)
                    (<[sid := []]> (chatHistory st))
              end).
  intros st0 Hold Hpend.
  yields_step.
  eapply yields_mono; [by apply yields_push_history|].
  intros ? ? ? (ts1 & -> & -> & ->).
  yields_step. unfold message_llm.
  yields_step. eapply yields_mono; [apply yields_history_or_empty|].
  intros ? ? ? (-> & -> & ->).
  yields_step. eapply yields_mono.
  { apply yields_silent.
    - apply wp_getResponse_keyless; [done|done|by apply falsy_false].
    - by apply emits_getResponse_keyless. }
  intros ? ? ? [[-> ->] ->].
  replace (parseModuleCommand openai_key_notice) with (@None Directive)
    by (vm_compute; reflexivity).
  yields_step. eapply yields_mono.
  { eapply yields_push_history. simpl. apply lookup_insert_eq. }
  intros ? ? ? (ts2 & -> & -> & ->).
  yields_step. eapply yields_mono; [apply yields_history_or_empty|].
  intros ? ? ? (-> & -> & ->).
  yields_step. exists ts1, ts2. simpl.
  rewrite !lookup_insert_eq. simpl. rewrite <-app_assoc. simpl.
  split_and!; try done.
  repeat constructor.
Qed.

Lemma keyless_turn_logs_the_notice_witness :
  defaultService keyless_env = "openai" /\
  openai_key_unusable keyless_env = true /\
  userprompt time_question <> "" /\
  typoftask time_question = "llm" /\
  parseModuleCommand (userprompt time_question) = None /\
  let s :=
    serve plain_library keyless_env noon_world (PostMessage time_question)
      initial_state in
  exists ts1 ts2,
    let log :=
      default [] (chatHistory initial_state !! "default")
      ++ [mkChatMessage user (userprompt time_question) (Some ts1);
          mkChatMessage assistant openai_key_notice (Some ts2)] in
    completion s
    = Normal (RespFinal (markdown_toHTML plain_library openai_key_notice) None
                (Some log)) /\
    chatHistory (state_after s) !! "default" = Some log /\
    pendingModuleRequests (state_after s)
    = pendingModuleRequests initial_state /\
    Forall clock_event (events s) /\ length (events s) = 2.
Proof.
  split; [reflexivity|]. split; [reflexivity|]. split; [discriminate|].
  split; [reflexivity|]. split; [vm_compute; reflexivity|].
  apply (keyless_turn_logs_the_notice plain_library keyless_env noon_world
           initial_state time_question);
    first [reflexivity | discriminate | vm_compute; reflexivity].
Defined.

(** X19: [POST /clear-history] drops the log of a session and leaves its
    waiting requests in the table.  Approving such a request afterwards,
    when the model then answers without a directive, is answered
    [success: false] with a message that starts with [Module execution
    failed:], although the module may well have run; the request is
    consumed and the session still has no log. *)
Theorem approval_after_clear_history_fails lib env w w' st rid p :
  plain_model lib env w' ->
  rid <> "" -> pendingModuleRequests st !! rid = Some p ->
  let sid := str_or (originalSessionId p) "default" in
  let cleared :=
    state_after (serve lib env w (PostClearHistory (Some sid)) st) in
  let s :=
    serve lib env w' (PostApproveModule (mkApproveBody rid true)) cleared in
  pendingModuleRequests cleared = pendingModuleRequests st /\
  (exists reason,
     completion s
     = Normal (RespFailure ("Module execution failed: " +:+ reason))) /\
  pendingModuleRequests (state_after s) = delete rid (pendingModuleRequests st) /\
  chatHistory (state_after s) = delete sid (chatHistory st).
Proof.
  intros Hplain Hrid Hsome; cbv zeta.
  set (sid := str_or (originalSessionId p) "default").
  change (state_after (serve lib env w (PostClearHistory (Some sid)) st))
    with (mkState (pendingModuleRequests st) (delete sid (chatHistory st))).
  split; [done|].
  set (cleared := mkState (pendingModuleRequests st) (delete sid (chatHistory st))).
  apply (wp_serve lib env w' (PostApproveModule (mkApproveBody rid true)) cleared
           (fun r st' =>
              (exists reason,
                 r = Normal (RespFailure ("Module execution failed: " +:+ reason))) /\
              pendingModuleRequests st' = delete rid (pendingModuleRequests st) /\
              chatHistory st' = delete sid (chatHistory st))).
  simpl. unfold post_approve_module. simpl.
  rewrite (falsy_false _ Hrid). wp_step. wp_step. simpl. rewrite Hsome.
  wp_step. unfold delete_pending. wp_step. simpl.
  unfold approved_run. fold sid.
  wp_step. wp_step.
  eapply wp_mono; [apply wp_runModule|]. intros r ? ->.
  destruct r as [moduleOutput|e]; [|wp_step; eauto].
  wp_step. apply wp_JSON_check; [intros _|intros ? _; wp_step; eauto].
  wp_step.
  eapply wp_mono; [apply wp_history_or_empty|]. intros ? ? [-> ->].
  wp_step.
  eapply wp_mono; [by apply wp_getResponse_plain|].
  intros ? ? (-> & text & -> & ->).
  wp_step.
  eapply wp_mono.
  { apply wp_push_history_missing. simpl. apply lookup_delete_eq. }
  intros ? ? [-> ->]. wp_step. eauto.
Qed.

Lemma approval_after_clear_history_fails_witness :
  plain_model plain_library ollama_env noon_world /\
  waiting_id <> "" /\
  pendingModuleRequests waiting_state !! waiting_id = Some waiting_request /\
  let sid := str_or (originalSessionId waiting_request) "default" in
  let cleared :=
    state_after
      (serve plain_library ollama_env noon_world
         (PostClearHistory (Some sid)) waiting_state) in
  let s :=
    serve plain_library ollama_env noon_world
      (PostApproveModule (mkApproveBody waiting_id true)) cleared in
  pendingModuleRequests cleared = pendingModuleRequests waiting_state /\
  (exists reason,
     completion s
     = Normal (RespFailure ("Module execution failed: " +:+ reason))) /\
  pendingModuleRequests (state_after s)
  = delete waiting_id (pendingModuleRequests waiting_state) /\
  chatHistory (state_after s) = delete sid (chatHistory waiting_state).
Proof.
  split; [apply noon_world_plain|]. split; [discriminate|].
  split; [vm_compute; reflexivity|].
  apply (approval_after_clear_history_fails plain_library ollama_env
           noon_world noon_world waiting_state waiting_id waiting_request).
  - apply noon_world_plain.
  - discriminate.
  - vm_compute; reflexivity.
Defined.

(* ================================================================== *)
(** * The module listing *)
(* ================================================================== *)

(** X20: [listModules] lists exactly the names that have a file in the
    modules directory which [loadModule] would try to import: a name is
    listed if and only if the directory holds the name followed by [.js] or
    by [.mjs].  The listing is never longer than the directory. *)
Theorem listModules_lists_loadable_names files :
  (forall name,
     In name (listModules files) <->
     In (name +:+ ".js") files \/ In (name +:+ ".mjs") files) /\
  length (listModules files) <= length files.
Proof.
  split.
  - intros name. unfold listModules. rewrite in_map_iff. split.
    + intros (file & Hname & [Hin Hext]%filter_In).
      destruct (ends_with ".mjs" file) eqn:Emjs.
      * apply FileNames.ends_with_inv in Emjs as [pre ->].
        pose proof (FileNames.slice_end_app pre ".mjs") as Hslice.
        change (String.length ".mjs") with 4 in Hslice.
        rewrite Hslice in Hname. subst pre.
        by right.
      * rewrite orb_false_r in Hext.
        apply FileNames.ends_with_inv in Hext as [pre ->].
        pose proof (FileNames.slice_end_app pre ".js") as Hslice.
        change (String.length ".js") with 3 in Hslice.
        rewrite Hslice in Hname. subst pre.
        by left.
    + intros [Hin|Hin].
      * exists (name +:+ ".js"). rewrite FileNames.ends_with_mjs_js.
        split; [apply (FileNames.slice_end_app name ".js")|].
        apply filter_In. split; [done|].
        by rewrite (FileNames.ends_with_app name ".js").
      * exists (name +:+ ".mjs").
        rewrite (FileNames.ends_with_app name ".mjs").
        split; [apply (FileNames.slice_end_app name ".mjs")|].
        apply filter_In. split; [done|].
        rewrite (FileNames.ends_with_app name ".mjs"). apply orb_true_r.
  - unfold listModules. rewrite length_map. apply filter_length_le.
Qed.

(* ================================================================== *)
(** * The web search handler *)
(* ================================================================== *)

Section SearchHandler.
Import WebSearch.

Ltac search_done :=
  rewrite <-?app_assoc; simpl;
  first [ eexists _, (_ :: _); split; [reflexivity|]
        | eexists _, []; split; [by rewrite app_nil_r|] ];
  split; [repeat (constructor;
                   [first [left; exact I | right; exact I]|]);
          constructor|];
  split; [vm_compute; lia|];
  try (intros ? ? ? ? [=]; subst; by split_and!).

(** X21: the [search] handler always returns a value, never a rejection
    (a rejected provider call carries a message); it leaves the two maps
    alone, asks only providers and the clock, makes at most two provider
    calls, and a success result echoes the query it was given and names the
    configured service.  An empty query, an unsupported service and a
    missing or placeholder key each end in their own [{ error }] result
    without any call.  With Gemini configured there is one call, on
    [Search for: <query>]: its reply is returned as a success with the
    time, its rejection as [{ error: "Web search failed: ..." }].  With
    OpenAI configured a reply to the first call is returned as a success
    with the time. *)
Theorem search_never_rejects env ets (w : World) (tr : list Event) st query :
  (exists res ext,
     run w tr (search env ets query st) = (Normal res, st, tr ++ ext) /\
     Forall (fun e => provider_event e \/ clock_event e) ext /\
     count_provider_calls ext <= 2 /\
     (forall service q result ts,
        res = SearchDone service q result ts ->
        q = query /\ query <> "" /\ service = defaultService env)) /\
  (query = "" ->
   run w tr (search env ets query st)
   = (Normal (SearchFailed "Search query is required" None), st, tr)) /\
  (query <> "" ->
   defaultService env <> "gemini" -> defaultService env <> "openai" ->
   run w tr (search env ets query st)
   = (Normal (SearchFailed
                ("Unsupported LLM service: " +:+ defaultService env
                 +:+ ". Use 'gemini' or 'openai'.") None),
      st, tr)) /\
  (query <> "" ->
   defaultService env = "gemini" -> gemini_key_unusable env = true ->
   run w tr (search env ets query st)
   = (Normal (SearchFailed
                "Gemini API key is not configured. Please set GEMINI_API_KEY in .ENV file."
                None),
      st, tr)) /\
  (query <> "" ->
   defaultService env = "openai" -> openai_key_unusable env = true ->
   run w tr (search env ets query st)
   = (Normal (SearchFailed
                "OpenAI API key is not configured. Please set OPENAI_API_KEY in .ENV file."
                None),
      st, tr)) /\
  (query <> "" ->
   defaultService env = "gemini" -> gemini_key_unusable env = false ->
   let request :=
     QProvider
       (GeminiGenerate (str_or (GEMINI_MAIN_MODEL env) "gemini-2.0-flash-exp")
          ("Search for: " +:+ query)) in
   match w tr request with
   | Reply text =>
       let tr1 := tr ++ [existT request (Reply text : Answer request)] in
       run w tr (search env ets query st)
       = (Normal (SearchDone "gemini" query text (w tr1 QTimestamp)),
          st, tr1 ++ [existT QTimestamp (w tr1 QTimestamp)])
   | Rejected message =>
       run w tr (search env ets query st)
       = (Normal (SearchFailed ("Web search failed: " +:+ message)
                    (Some (ets message))),
          st, tr ++ [existT request (Rejected message : Answer request)])
   end) /\
  (query <> "" ->
   defaultService env = "openai" -> openai_key_unusable env = false ->
   let request :=
     QProvider
       (OpenAIChat (str_or (OPENAI_MAIN_MODEL env) "gpt-4o")
          (browsing_messages query)) in
   forall text,
     w tr request = Reply text ->
     let tr1 := tr ++ [existT request (Reply text : Answer request)] in
     run w tr (search env ets query st)
     = (Normal (SearchDone "openai" query text (w tr1 QTimestamp)),
        st, tr1 ++ [existT QTimestamp (w tr1 QTimestamp)])).
Proof.
  split_and!.
  - unfold search. destruct query as [|c query']; cbn [falsy].
    { exists (SearchFailed "Search query is required" None), [].
      rewrite app_nil_r. split_and!; [done|done|vm_compute; lia|done]. }
    rewrite run_M_try_catch.
    destruct (String.eqb_spec (defaultService env) "gemini") as [Hg|_].
    { unfold searchWithGemini. destruct (_ || _).
      { simpl. search_done. }
      rewrite run_M_bind. simpl.
      destruct (w tr (QProvider _)) as [text|message]; simpl.
      - search_done.
      - search_done. }
    destruct (String.eqb_spec (defaultService env) "openai") as [Ho|_].
    2:{ simpl. search_done. }
    unfold searchWithOpenAI. destruct (_ || _).
    { simpl. search_done. }
    rewrite run_M_try_catch, run_M_bind. simpl.
    destruct (w tr (QProvider _)) as [text|message]; simpl.
    { search_done. }
    destruct (w _ (QProvider _)) as [text|message']; simpl.
    + search_done.
    + search_done.
  - by intros ->.
  - intros Hq Hg Ho. unfold search. rewrite (falsy_false _ Hq).
    apply String.eqb_neq in Hg, Ho. by rewrite Hg, Ho.
  - intros Hq Hg Hkey. unfold search, searchWithGemini.
    rewrite (falsy_false _ Hq), Hg.
    unfold gemini_key_unusable in Hkey. by rewrite Hkey.
  - intros Hq Ho Hkey. unfold search, searchWithOpenAI.
    rewrite (falsy_false _ Hq), Ho.
    unfold openai_key_unusable in Hkey. by rewrite Hkey.
  - intros Hq Hg Hkey; cbv zeta. unfold search, searchWithGemini.
    rewrite (falsy_false _ Hq), Hg.
    unfold gemini_key_unusable in Hkey. rewrite Hkey.
    change (("gemini" =? "gemini")%string) with true. cbv iota.
    generalize (str_or (GEMINI_MAIN_MODEL env) "gemini-2.0-flash-exp")
               ("Search for: " +:+ query).
    intros model contents.
    rewrite run_M_try_catch, run_M_bind. simpl.
    destruct (w tr (QProvider _)) as [text|message] eqn:E;
      rewrite ?E; by simpl.
  - intros Hq Ho Hkey; cbv zeta. unfold search, searchWithOpenAI.
    rewrite (falsy_false _ Hq), Ho.
    unfold openai_key_unusable in Hkey. rewrite Hkey.
    change (("openai" =? "gemini")%string) with false.
    change (("openai" =? "openai")%string) with true. cbv iota.
    generalize (browsing_messages query)
               (str_or (OPENAI_MAIN_MODEL env) "gpt-4o").
    intros messages model text Hreply.
    rewrite !run_M_try_catch, run_M_bind. simpl. rewrite Hreply. by simpl.
Qed.

(** X22: with OpenAI configured, a rejected first call is not reported:
    the handler asks again, the fixed model [gpt-4o-mini] and without the
    system message.  When that call answers, the result is a success whose
    text ends with the training-data note; when it is rejected too, the
    result is an error built from the second rejection, and the first
    one is lost. *)
Theorem search_openai_fallback env ets (w : World) (tr : list Event) st
    query message :
  query <> "" -> defaultService env = "openai" ->
  openai_key_unusable env = false ->
  let first :=
    QProvider (OpenAIChat (str_or (OPENAI_MAIN_MODEL env) "gpt-4o")
                 (browsing_messages query)) in
  let second :=
    QProvider (OpenAIChat "gpt-4o-mini" (fallback_messages query)) in
  let tr1 := tr ++ [existT first (Rejected message : Answer first)] in
  w tr first = Rejected message ->
  match w tr1 second with
  | Reply text =>
      let tr2 := tr1 ++ [existT second (Reply text : Answer second)] in
      run w tr (search env ets query st)
      = (Normal (SearchDone "openai" query (text +:+ fallback_note)
                   (w tr2 QTimestamp)),
         st, tr2 ++ [existT QTimestamp (w tr2 QTimestamp)])
  | Rejected message' =>
      run w tr (search env ets query st)
      = (Normal (SearchFailed ("Web search failed: " +:+ message')
                   (Some (ets message'))),
         st, tr1 ++ [existT second (Rejected message' : Answer second)])
  end.
Proof.
  intros Hq Hservice Hkey; cbv zeta.
  unfold search, searchWithOpenAI. rewrite (falsy_false _ Hq), Hservice.
  generalize (browsing_messages query) (fallback_messages query)
             (str_or (OPENAI_MAIN_MODEL env) "gpt-4o").
  intros m1 m2 model Hfirst.
  change (("openai" =? "gemini")%string) with false.
  change (("openai" =? "openai")%string) with true. cbv iota.
  unfold openai_key_unusable in Hkey. rewrite Hkey.
  rewrite !run_M_try_catch, run_M_bind. simpl. rewrite Hfirst. simpl.
  destruct (w (tr ++ _) (QProvider _)) eqn:Esecond; by rewrite ?Esecond.
Qed.

Lemma search_openai_fallback_witness :
  "rocq" <> "" /\ defaultService openai_env = "openai" /\
  openai_key_unusable openai_env = false /\
  let first :=
    QProvider (OpenAIChat (str_or (OPENAI_MAIN_MODEL openai_env) "gpt-4o")
                 (browsing_messages "rocq")) in
  let second :=
    QProvider (OpenAIChat "gpt-4o-mini" (fallback_messages "rocq")) in
  let tr1 :=
    [] ++ [existT first (Rejected "The model does not exist" : Answer first)] in
  flaky_world [] first = Rejected "The model does not exist" /\
  match flaky_world tr1 second with
  | Reply text =>
      let tr2 := tr1 ++ [existT second (Reply text : Answer second)] in
      run flaky_world [] (search openai_env (fun e => e) "rocq" initial_state)
      = (Normal (SearchDone "openai" "rocq" (text +:+ fallback_note)
                   (flaky_world tr2 QTimestamp)),
         initial_state, tr2 ++ [existT QTimestamp (flaky_world tr2 QTimestamp)])
  | Rejected message' =>
      run flaky_world [] (search openai_env (fun e => e) "rocq" initial_state)
      = (Normal (SearchFailed ("Web search failed: " +:+ message')
                   (Some message')),
         initial_state,
         tr1 ++ [existT second (Rejected message' : Answer second)])
  end.
Proof.
  split; [discriminate|]. split; [reflexivity|]. split; [reflexivity|].
  split; [reflexivity|].
  apply (search_openai_fallback openai_env (fun e => e) flaky_world []
           initial_state "rocq" "The model does not exist");
    first [discriminate | reflexivity].
Defined.

End SearchHandler.
